(** * User-account service: controllers and the authentication middleware

    A shallow embedding of [controllers/userController.js],
    [routes/userRoutes.js] and [middleware/authMiddleware.js], with the
    parts of JavaScript, of the SQL engine and of the [bcrypt] /
    [jsonwebtoken] packages that the handlers rely on.

    Conventions.
    - A JavaScript string is a [string]; its characters are code units
      below 256.
    - A value of a request body or of a query string is a JSON value:
      [undefined] (a property that is missing), [null], a boolean, a
      number, a string, an array or an object.  A number is given by the
      string that [String] prints for it, which is all the handlers use
      of it.
    - A number that [parseInt] returns is [NaN], an integer that is a
      double, or an infinity.
    - [req.body] is the object that [express.json()] parsed, given by its
      properties; it is the empty object when the request has no JSON
      body, and an array has none of the properties the handlers read.
    - One pooled connection is modelled; the table committed so far, the
      working copy of an open transaction and the calls made on the pool
      and on the connection are part of the state the handlers thread.
      The calls on the pool and on the connection succeed, but for the
      statements the server refuses. *)

From Stdlib Require Import ZArith List Bool Ascii String Lia.
From Stdlib Require Import DecimalString DecimalPos Sorted Permutation.
Import ListNotations.

Local Open Scope string_scope.
Local Open Scope Z_scope.

#[local] Set Warnings "-register-all".

(** ** JavaScript strings, numbers and values *)

Module JS.

Definition code (c : ascii) : Z := Z.of_N (N_of_ascii c).

(** [WhiteSpace] and [LineTerminator] code units below 256: TAB, LF, VT,
    FF, CR, SP and NBSP.  This is the class [\s] of a regular expression
    and the set of characters [parseInt] skips. *)
Definition isWhiteSpace (c : ascii) : bool :=
  let n := code c in
  ((9 <=? n) && (n <=? 13)) || (n =? 32) || (n =? 160).

Definition isDigit (c : ascii) : bool :=
  let n := code c in (48 <=? n) && (n <=? 57).

Definition digitValue (c : ascii) : Z := code c - 48.

(** A number that [parseInt] returns: [NaN], an integer that is a double
    (the two zeros are not told apart), or an infinity. *)
Inductive number : Type :=
| NaN
| Num (z : Z)
| Infinity
| MinusInfinity.

Definition isNaN (n : number) : bool :=
  match n with NaN => true | _ => false end.

(** [n > 0]; every comparison with [NaN] is false. *)
Definition gt0 (n : number) : bool :=
  match n with
  | NaN | MinusInfinity => false
  | Num z => 0 <? z
  | Infinity => true
  end.

(** The double nearest to an integer, ties going to the even mantissa:
    an integer below [2^53] in magnitude is a double; a larger one keeps
    its 53 leading bits, rounded.  From [2^1024 - 2^970] on the result is
    an infinity. *)
Definition to_double (z : Z) : number :=
  let n := Z.abs z in
  if n <? 2 ^ 53 then Num z
  else
    let e := Z.log2 n - 52 in
    let q := n / 2 ^ e in
    let r := n mod 2 ^ e in
    let half := 2 ^ (e - 1) in
    let q' := if (half <? r) || ((r =? half) && Z.odd q) then q + 1 else q in
    if 2 ^ 1024 <=? q' * 2 ^ e then
      if z <? 0 then MinusInfinity else Infinity
    else Num (Z.sgn z * (q' * 2 ^ e)).

(** A JSON value.  [VUndefined] is what reading a missing property
    gives.  [VNumber p] is the number that [String] prints as [p]: [12],
    [1.5], [1e+21], or [Infinity], which [JSON.parse] makes of [1e999];
    both zeros print as [0]. *)
Inductive value : Type :=
| VUndefined
| VNull
| VBool (b : bool)
| VNumber (print : string)
| VString (s : string)
| VArray (items : list value)
| VObject (fields : list (string * value)).

Definition string_of_Z (z : Z) : string :=
  NilZero.string_of_int (Z.to_int z).

Definition has_own_property (k : string) (fields : list (string * value)) : bool :=
  existsb (fun kv => String.eqb (fst kv) k) fields.

(** [String(v)], [None] when it throws a [TypeError].  An array prints
    as its elements joined by commas, [null] and [undefined] among them
    as nothing.  An object prints as [[object Object]] through
    [Object.prototype.toString]; an own property [toString] hides that
    method and, not being callable, leaves the object without a
    primitive value. *)
Fixpoint ToString (v : value) : option string :=
  match v with
  | VUndefined => Some "undefined"
  | VNull => Some "null"
  | VBool true => Some "true"
  | VBool false => Some "false"
  | VNumber p => Some p
  | VString s => Some s
  | VArray items =>
      let element (x : value) : option string :=
        match x with
        | VUndefined | VNull => Some ""
        | _ => ToString x
        end in
      (fix join (l : list value) : option string :=
         match l with
         | [] => Some ""
         | [x] => element x
         | x :: l' =>
             match element x, join l' with
             | Some a, Some b => Some (a ++ "," ++ b)
             | _, _ => None
             end
         end) items
  | VObject fields =>
      if has_own_property "toString" fields then None
      else Some "[object Object]"
  end.

(** [!!v]: [undefined], [null], [false], the zeros, [NaN] and the empty
    string are falsy. *)
Definition ToBoolean (v : value) : bool :=
  match v with
  | VUndefined | VNull => false
  | VBool b => b
  | VNumber p => negb (String.eqb p "0" || String.eqb p "NaN")
  | VString s => negb (String.eqb s "")
  | VArray _ | VObject _ => true
  end.

(** [typeof v === 'string'] *)
Definition is_string (v : value) : bool :=
  match v with VString _ => true | _ => false end.

(** [ToString] of a header, which is a string or [undefined]. *)
Definition str (v : option string) : string :=
  match v with Some s => s | None => "undefined" end.

(** [!!v] for a header: true exactly for a non-empty string. *)
Definition truthy (v : option string) : bool :=
  match v with
  | Some (String _ _) => true
  | _ => false
  end.

Fixpoint trimStart (s : string) : string :=
  match s with
  | String c s' => if isWhiteSpace c then trimStart s' else s
  | EmptyString => s
  end.

(** The longest prefix of decimal digits, read as an integer; [acc] is
    the value of the digits read so far and [seen] tells whether there
    were any. *)
Fixpoint digits (acc : Z) (seen : bool) (s : string) : option Z :=
  match s with
  | String c s' =>
      if isDigit c then digits (10 * acc + digitValue c) true s'
      else if seen then Some acc else None
  | EmptyString => if seen then Some acc else None
  end.

(** The integer [parseInt(s, 10)] reads in a string: leading white space
    is skipped, one sign is accepted, the digits that follow are read
    and the rest of the string is ignored; [None] without a digit. *)
Definition mathInt (s : string) : option Z :=
  let body := trimStart s in
  let '(sign, rest) :=
    match body with
    | String "-" r => (-1, r)
    | String "+" r => (1, r)
    | _ => (1, body)
    end in
  option_map (Z.mul sign) (digits 0 false rest).

(** [parseInt(s, 10)] on a string: [NaN] without a digit, and else the
    double nearest to the integer read (V8 reads the digits with its
    correctly rounded [strtod]). *)
Definition parseInt10 (s : string) : number :=
  match mathInt s with
  | None => NaN
  | Some z => to_double z
  end.

(** [parseInt(v, 10)]: the value is first printed as a string, which
    may throw. *)
Definition parseInt (v : value) : option number :=
  option_map parseInt10 (ToString v).

Fixpoint startsWith (s prefix : string) {struct prefix} : bool :=
  match prefix with
  | EmptyString => true
  | String p prefix' =>
      match s with
      | String c s' => Ascii.eqb c p && startsWith s' prefix'
      | EmptyString => false
      end
  end.

(** [s.split(sep)] for a one-character separator: [cur] holds the
    characters of the piece being read. *)
Fixpoint split_aux (sep : ascii) (cur : string) (s : string) : list string :=
  match s with
  | EmptyString => [cur]
  | String c s' =>
      if Ascii.eqb c sep then cur :: split_aux sep EmptyString s'
      else split_aux sep (cur ++ String c EmptyString) s'
  end.

Definition split (s : string) (sep : ascii) : list string :=
  split_aux sep EmptyString s.

Definition upper (c : ascii) : ascii :=
  let n := code c in
  if (97 <=? n) && (n <=? 122) then ascii_of_N (Z.to_N (n - 32)) else c.

Definition lower (c : ascii) : ascii :=
  let n := code c in
  if (65 <=? n) && (n <=? 90) then ascii_of_N (Z.to_N (n + 32)) else c.

Fixpoint map_string (f : ascii -> ascii) (s : string) : string :=
  match s with
  | EmptyString => EmptyString
  | String c s' => String (f c) (map_string f s')
  end.

(** [toUpperCase] and [toLowerCase] on the letters a-z and A-Z.  Of the
    other code units below 256 JavaScript maps none to one of these
    letters, but for the sharp s, whose upper case is SS; so a string
    equals ['ASC'] once in upper case, or ['active'] or ['blocked'] once in
    lower case, here exactly when it does in JavaScript. *)
Definition toUpperCase : string -> string := map_string upper.
Definition toLowerCase : string -> string := map_string lower.

(** ** Regular expressions, matched by derivatives *)

Inductive regex : Type :=
| Void
| Eps
| Class (p : ascii -> bool)
| Cat (r1 r2 : regex)
| Alt (r1 r2 : regex)
| Star (r : regex).

Definition Plus (r : regex) : regex := Cat r (Star r).

Fixpoint nullable (r : regex) : bool :=
  match r with
  | Void => false
  | Eps => true
  | Class _ => false
  | Cat r1 r2 => nullable r1 && nullable r2
  | Alt r1 r2 => nullable r1 || nullable r2
  | Star _ => true
  end.

Fixpoint deriv (c : ascii) (r : regex) : regex :=
  match r with
  | Void => Void
  | Eps => Void
  | Class p => if p c then Eps else Void
  | Cat r1 r2 =>
      if nullable r1 then Alt (Cat (deriv c r1) r2) (deriv c r2)
      else Cat (deriv c r1) r2
  | Alt r1 r2 => Alt (deriv c r1) (deriv c r2)
  | Star r' => Cat (deriv c r') (Star r')
  end.

(** [/^r$/.test(s)] *)
Fixpoint test (r : regex) (s : string) : bool :=
  match s with
  | EmptyString => nullable r
  | String c s' => test (deriv c r) s'
  end.

(** [v.toUpperCase()] and [v.toLowerCase()], [None] when the call throws
    a [TypeError]: only a string has these methods. *)
Definition call_toUpperCase (v : value) : option string :=
  match v with VString s => Some (toUpperCase s) | _ => None end.

Definition call_toLowerCase (v : value) : option string :=
  match v with VString s => Some (toLowerCase s) | _ => None end.

End JS.

Arguments JS.to_double : simpl never.

(** ** Values exchanged with the driver and with the client *)

(** A column value as [mysql2] hands it over. *)
Inductive sqlval : Type :=
| SqlNull
| SqlInt (z : Z)
| SqlText (s : string)
| SqlDate (t : Z).

(** A JSON document, as [res.json] receives it.  A [Date] is kept as its
    instant; [res.json] prints it in ISO form.  [JNumber p] is a number
    of the request, given by its print. *)
Inductive json : Type :=
| JNull
| JBool (b : bool)
| JNum (z : Z)
| JNumber (print : string)
| JStr (s : string)
| JDate (t : Z)
| JArr (items : list json)
| JObj (fields : list (string * json)).

Definition json_of_sql (v : sqlval) : json :=
  match v with
  | SqlNull => JNull
  | SqlInt z => JNum z
  | SqlText s => JStr s
  | SqlDate t => JDate t
  end.

(** A value of the request as [JSON.stringify] writes it back: an
    infinity and [NaN] become [null], as does [undefined] in an array; a
    property whose value is [undefined] is left out. *)
Fixpoint json_of_value (v : JS.value) : json :=
  match v with
  | JS.VUndefined | JS.VNull => JNull
  | JS.VBool b => JBool b
  | JS.VNumber p =>
      if String.eqb p "Infinity" || String.eqb p "-Infinity" || String.eqb p "NaN"
      then JNull else JNumber p
  | JS.VString s => JStr s
  | JS.VArray items => JArr (map json_of_value items)
  | JS.VObject fields =>
      JObj ((fix properties (l : list (string * JS.value)) : list (string * json) :=
               match l with
               | [] => []
               | (_, JS.VUndefined) :: l' => properties l'
               | (k, x) :: l' => (k, json_of_value x) :: properties l'
               end) fields)
  end.

(** One property of an object literal; a property whose value is
    [undefined] is not serialised. *)
Definition prop (k : string) (v : option json) : list (string * json) :=
  match v with
  | Some j => [(k, j)]
  | None => []
  end.

Definition jval (v : JS.value) : option json :=
  match v with
  | JS.VUndefined => None
  | _ => Some (json_of_value v)
  end.

(** [v || null] *)
Definition or_null (v : JS.value) : JS.value :=
  if JS.ToBoolean v then v else JS.VNull.

Record response : Type := { res_status : Z; res_json : json }.

(** [res.status(code).json({ message })] *)
Definition respond (code : Z) (msg : string) : response :=
  {| res_status := code; res_json := JObj [("message", JStr msg)] |}.

Definition message_of (r : response) : option string :=
  match res_json r with
  | JObj (("message", JStr m) :: _) => Some m
  | _ => None
  end.

(** A thrown [Error]: its [name], its [message], the [statusCode] the
    controllers attach and the [expiredAt] of a [TokenExpiredError], a
    [Date] given by its instant in milliseconds. *)
Record error : Type :=
  { name : string;
    message : string;
    statusCode : option Z;
    expiredAt : option Z }.

Definition new_Error (msg : string) : error :=
  {| name := "Error"; message := msg; statusCode := None; expiredAt := None |}.

Definition new_TypeError (msg : string) : error :=
  {| name := "TypeError"; message := msg; statusCode := None; expiredAt := None |}.

Definition with_statusCode (e : error) (code : Z) : error :=
  {| name := name e; message := message e;
     statusCode := Some code; expiredAt := expiredAt e |}.

(** ** The users table *)

Module User.
Record t : Type :=
  { id : Z;
    first_name : string;
    last_name : string;
    email : string;
    password_hash : string;
    job_title : option string;
    company : option string;
    last_login_date : option Z;
    registration_date : Z;
    status : string }.

Definition set_last_login_date (d : option Z) (u : t) : t :=
  {| id := id u; first_name := first_name u; last_name := last_name u;
     email := email u; password_hash := password_hash u;
     job_title := job_title u; company := company u;
     last_login_date := d;
     registration_date := registration_date u; status := status u |}.

Definition set_status (s : string) (u : t) : t :=
  {| id := id u; first_name := first_name u; last_name := last_name u;
     email := email u; password_hash := password_hash u;
     job_title := job_title u; company := company u;
     last_login_date := last_login_date u;
     registration_date := registration_date u; status := s |}.

Definition set_password_hash (h : string) (u : t) : t :=
  {| id := id u; first_name := first_name u; last_name := last_name u;
     email := email u; password_hash := h;
     job_title := job_title u; company := company u;
     last_login_date := last_login_date u;
     registration_date := registration_date u; status := status u |}.
End User.

Definition sql_of_text (v : option string) : sqlval :=
  match v with Some s => SqlText s | None => SqlNull end.

Definition sql_of_date (v : option Z) : sqlval :=
  match v with Some t => SqlDate t | None => SqlNull end.

(** The value of a named column of a row. *)
Definition column (c : string) (u : User.t) : sqlval :=
  if String.eqb c "id" then SqlInt (User.id u)
  else if String.eqb c "first_name" then SqlText (User.first_name u)
  else if String.eqb c "last_name" then SqlText (User.last_name u)
  else if String.eqb c "email" then SqlText (User.email u)
  else if String.eqb c "password_hash" then SqlText (User.password_hash u)
  else if String.eqb c "job_title" then sql_of_text (User.job_title u)
  else if String.eqb c "company" then sql_of_text (User.company u)
  else if String.eqb c "last_login_date" then sql_of_date (User.last_login_date u)
  else if String.eqb c "registration_date" then SqlDate (User.registration_date u)
  else if String.eqb c "status" then SqlText (User.status u)
  else SqlNull.

(** The object the driver builds for a row of [SELECT cols FROM users]. *)
Definition select_row (cols : list string) (u : User.t) : json :=
  JObj (map (fun c => (c, json_of_sql (column c u))) cols).

(** The rows read by the two single-row lookups. *)
Module LoginRow.
Record t : Type :=
  { id : Z;
    first_name : string;
    last_name : string;
    email : string;
    password_hash : string;
    status : string }.

Definition of_user (u : User.t) : t :=
  {| id := User.id u; first_name := User.first_name u;
     last_name := User.last_name u; email := User.email u;
     password_hash := User.password_hash u; status := User.status u |}.
End LoginRow.

Module AuthRow.
Record t : Type := { id : Z; email : string; status : string }.

Definition of_user (u : User.t) : t :=
  {| id := User.id u; email := User.email u; status := User.status u |}.
End AuthRow.

(** ** ORDER BY *)

Inductive direction : Type := ASC | DESC.

Inductive sort_expr : Type :=
| Col (c : string)
| IsNull (c : string).

Definition order_by_clause : Type := list (sort_expr * direction).

Definition is_null (v : sqlval) : bool :=
  match v with SqlNull => true | _ => false end.

Definition eval_sort_expr (e : sort_expr) (u : User.t) : sqlval :=
  match e with
  | Col c => column c u
  | IsNull c => SqlInt (if is_null (column c u) then 1 else 0)
  end.

(** Weight strings are compared position by position; a proper prefix
    comes first. *)
Fixpoint weights_compare (a b : list N) : comparison :=
  match a, b with
  | [], [] => Eq
  | [], _ :: _ => Lt
  | _ :: _, [] => Gt
  | x :: a', y :: b' =>
      match N.compare x y with
      | Eq => weights_compare a' b'
      | c => c
      end
  end.

Definition apply_direction (d : direction) (c : comparison) : comparison :=
  match d with ASC => c | DESC => CompOpp c end.

(** ** The state threaded by the handlers *)


(** What comes of binding a parameter to a statement: the statement is
    refused with a message, or the parameter is taken as [a]. *)
Inductive bound (A : Type) : Type :=
| Refused (message : string)
| Bound (a : A).
Arguments Refused {A} message.
Arguments Bound {A} a.

Inductive statement : Type :=
| SelectEmailWhereEmail (email : JS.value)
| InsertUser (first_name last_name email : JS.value) (password_hash : string)
             (job_title company : JS.value)
| SelectAllUsers (order : order_by_clause)
| DeleteWhereIdIn (ids : list JS.number)
| SelectLoginWhereEmail (email : JS.value)
| UpdateLastLoginDate (id : Z)
| UpdateStatusWhereIdIn (status : string) (ids : list JS.number)
| SelectAuthWhereId (id : Z).

(** The calls made on the pool and on the connection. *)
Inductive event : Type :=
| GetConnection
| BeginTransaction
| Run (q : statement)
| Commit
| Rollback
| Release.

Record world : Type :=
  { users : list User.t;          (* the committed table *)
    auto_increment : Z;           (* the next id the table assigns *)
    txn : option (list User.t);   (* the working copy of the open transaction *)
    connection : bool;            (* is the handler's [connection] set? *)
    log : list event;             (* the calls so far, oldest first *)
    now : Z;                      (* the clock, in seconds *)
    salt : string }.              (* the salt [bcrypt] draws *)

Inductive result (A : Type) : Type :=
| Ok (a : A)
| Throw (e : error).
Arguments Ok {A} a.
Arguments Throw {A} e.

(** A computation that reads and changes the state and returns or throws. *)
Definition M (A : Type) : Type := world -> result A * world.

Definition ret {A} (a : A) : M A := fun w => (Ok a, w).

Definition throw {A} (e : error) : M A := fun w => (Throw e, w).

Definition bind {A B} (m : M A) (k : A -> M B) : M B :=
  fun w =>
    match m w with
    | (Ok a, w') => k a w'
    | (Throw e, w') => (Throw e, w')
    end.

Notation "x <- m ;; k" := (bind m (fun x => k))
  (at level 61, m at next level, right associativity).
Notation "m ;; k" := (bind m (fun _ => k))
  (at level 61, right associativity).

(** [try { body } catch (error) { handler } finally { cleanup }] *)
Definition try_catch_finally {A} (body : M A) (handler : error -> M A)
    (cleanup : M unit) : M A :=
  fun w =>
    match body w with
    | (Ok a, w1) =>
        match cleanup w1 with
        | (Ok _, w2) => (Ok a, w2)
        | (Throw e, w2) => (Throw e, w2)
        end
    | (Throw e, w1) =>
        match handler e w1 with
        | (r, w2) =>
            match cleanup w2 with
            | (Ok _, w3) => (r, w3)
            | (Throw e', w3) => (Throw e', w3)
            end
        end
    end.

Definition get_world : M world := fun w => (Ok w, w).

Definition put_world (w : world) : M unit := fun _ => (Ok tt, w).

Definition emit (e : event) : M unit :=
  fun w =>
    (Ok tt,
     {| users := users w; auto_increment := auto_increment w; txn := txn w;
        connection := connection w; log := log w ++ [e];
        now := now w; salt := salt w |}).

(** The rows a statement sees: those of the open transaction, if any. *)
Definition view (w : world) : list User.t :=
  match txn w with
  | Some rows => rows
  | None => users w
  end.

Definition set_tables (committed : list User.t) (working : option (list User.t))
    (w : world) : world :=
  {| users := committed; auto_increment := auto_increment w; txn := working;
     connection := connection w; log := log w; now := now w; salt := salt w |}.

Definition set_connection (b : bool) (w : world) : world :=
  {| users := users w; auto_increment := auto_increment w; txn := txn w;
     connection := b; log := log w; now := now w; salt := salt w |}.

Definition set_auto_increment (n : Z) (w : world) : world :=
  {| users := users w; auto_increment := n; txn := txn w;
     connection := connection w; log := log w; now := now w; salt := salt w |}.

(** [let connection;] *)
Definition let_connection : M unit :=
  fun w => (Ok tt, set_connection false w).

(** [connection = await pool.getConnection()] *)
Definition getConnection : M unit :=
  emit GetConnection ;; fun w => (Ok tt, set_connection true w).

(** [START TRANSACTION] commits what an earlier transaction of the
    connection left open, then opens a new one. *)
Definition beginTransaction : M unit :=
  emit BeginTransaction ;;
  fun w => (Ok tt, set_tables (view w) (Some (view w)) w).

Definition commit : M unit :=
  emit Commit ;; fun w => (Ok tt, set_tables (view w) None w).

Definition rollback : M unit :=
  emit Rollback ;; fun w => (Ok tt, set_tables (users w) None w).

(** Returning the connection to the pool leaves its transaction as it is. *)
Definition release : M unit := emit Release.

(** A statement that reads. *)
Definition query {A} (q : statement) (f : list User.t -> A) : M A :=
  emit (Run q) ;; fun w => (Ok (f (view w)), w).

(** A statement that writes: inside a transaction it changes the working
    copy, outside it is committed at once. *)
Definition update (q : statement) (f : list User.t -> list User.t) : M unit :=
  emit (Run q) ;;
  fun w =>
    (Ok tt,
     match txn w with
     | Some rows => set_tables (users w) (Some (f rows)) w
     | None => set_tables (f (users w)) None w
     end).


Definition when (b : bool) (m : M unit) : M unit := if b then m else ret tt.

(** [if (connection) await connection.rollback()] and
    [if (connection) connection.release()] *)
Definition rollback_if_connection : M unit :=
  w <- get_world ;; when (connection w) rollback.

Definition release_if_connection : M unit :=
  w <- get_world ;; when (connection w) release.

(** What a call that may throw a [TypeError] gives. *)
Definition or_TypeError {A} (v : option A) (msg : string) : M A :=
  match v with
  | Some a => ret a
  | None => throw (new_TypeError msg)
  end.

(** ** Requests and tokens *)

(** [req.body]: the properties of the parsed object, whose names are
    distinct. *)
Definition body : Type := list (string * JS.value).

(** [body[field]] *)
Fixpoint get (b : body) (field : string) : JS.value :=
  match b with
  | [] => JS.VUndefined
  | (k, v) :: b' => if String.eqb k field then v else get b' field
  end.

(** The claims of a token: the payload the controllers sign, with the
    issue and expiry times [jsonwebtoken] adds, in seconds. *)
Record claims : Type :=
  { userId : Z;
    claim_email : JS.value;
    iat : Z;
    exp : Z }.

(** What [protect] does with a request: it answers, or it sets [req.user]
    and calls [next()]. *)
Inductive guarded : Type :=
| Answered (r : response)
| Next (user : AuthRow.t).


(** ** A concrete instance

    Stand-ins for the collation, for [bcrypt], for [jsonwebtoken] and
    for the driver, a small table and a few requests, on which the
    statements below are evaluated. *)

Module Fixture.

(** The binary collation: a string weighs as its code units. *)
Definition binary_weights (s : string) : list N :=
  map N_of_ascii (list_ascii_of_string s).

Definition hash (data : string) (rounds : Z) (salt : string) : string :=
  salt ++ "$" ++ data.

Definition compare (data hash : string) : bool :=
  String.eqb hash ("pepper$" ++ data).

Definition sign (c : claims) : string :=
  "jwt:" ++ JS.string_of_Z (userId c) ++ ":" ++ JS.string_of_Z (exp c).

(** Three tokens are known: one for Alice and one for Bob that live
    until 1600, and one for Alice that was issued at 1000 with a
    lifetime of zero. *)
Definition decode (token : string) : option claims :=
  if String.eqb token "alice.jwt" then
    Some {| userId := 1; claim_email := JS.VString "alice@example.com"; iat := 1000; exp := 1600 |}
  else if String.eqb token "bob.jwt" then
    Some {| userId := 2; claim_email := JS.VString "bob@example.com"; iat := 1000; exp := 1600 |}
  else if String.eqb token "stale.jwt" then
    Some {| userId := 1; claim_email := JS.VString "alice@example.com"; iat := 1000; exp := 1000 |}
  else None.

(** A number is stored as its print and a boolean as 0 or 1; an array
    or an object is refused, and no text equals a parameter that is not
    a string. *)
Definition stored (v : JS.value) : bound string :=
  match v with
  | JS.VNumber p => Bound p
  | JS.VBool true => Bound "1"
  | JS.VBool false => Bound "0"
  | _ => Refused "Incorrect parameter"
  end.

Definition equal (v : JS.value) : bound (string -> bool) :=
  Bound (fun _ => false).

(** A date prints as its instant. *)
Definition print_date (ms : Z) : string := JS.string_of_Z ms.

Definition alice : User.t :=
  {| User.id := 1; User.first_name := "Alice"; User.last_name := "Archer";
     User.email := "alice@example.com"; User.password_hash := "pepper$secret";
     User.job_title := None; User.company := None;
     User.last_login_date := None; User.registration_date := 500;
     User.status := "active" |}.

Definition bob : User.t :=
  {| User.id := 2; User.first_name := "Bob"; User.last_name := "Baker";
     User.email := "bob@example.com"; User.password_hash := "pepper$hunter2";
     User.job_title := Some "Clerk"; User.company := None;
     User.last_login_date := Some 900; User.registration_date := 600;
     User.status := "blocked" |}.

Definition w0 : world :=
  {| users := [alice; bob]; auto_increment := 3; txn := None;
     connection := false; log := []; now := 1200; salt := "pepper" |}.

(** The same table with other digests, and another salt to draw. *)
Definition w0' : world :=
  {| users := [User.set_password_hash "x" alice; User.set_password_hash "y" bob];
     auto_increment := 3; txn := None;
     connection := false; log := []; now := 1200; salt := "cumin" |}.

Definition credentials (email password : string) : body :=
  [("email", JS.VString email); ("password", JS.VString password)].

Definition email_only (email : string) : body :=
  [("email", JS.VString email)].

(** Credentials whose password is the number 123. *)
Definition numeric_password (email : string) : body :=
  [("email", JS.VString email); ("password", JS.VNumber "123")].

Definition registration (email : string) : body :=
  [("first_name", JS.VString "Carol"); ("last_name", JS.VString "Cook");
   ("email", JS.VString email); ("password", JS.VString "s3cret")].

(** The same registration with the number 123 as password. *)
Definition registration_numeric_password (email : string) : body :=
  [("first_name", JS.VString "Carol"); ("last_name", JS.VString "Cook");
   ("email", JS.VString email); ("password", JS.VNumber "123")].

Definition bulk (status : string) (ids : list JS.value) : body :=
  [("status", JS.VString status); ("userIds", JS.VArray ids)].

End Fixture.

(** A signing function and its inverse on the tokens of Alice, for the
    statements that follow a token from its issue to the guard. *)
Module Tokens.

Definition sign (c : claims) : string :=
  "jwt." ++ JS.string_of_Z (userId c) ++ "." ++ JS.string_of_Z (exp c).

(** Issued at 1200 for ten minutes, and for no time at all. *)
Definition alice_claims : claims :=
  {| userId := 1; claim_email := JS.VString "alice@example.com"; iat := 1200; exp := 1800 |}.

Definition alice_claims_0 : claims :=
  {| userId := 1; claim_email := JS.VString "alice@example.com"; iat := 1200; exp := 1200 |}.

Definition decode (token : string) : option claims :=
  if String.eqb token (sign alice_claims) then Some alice_claims
  else if String.eqb token (sign alice_claims_0) then Some alice_claims_0
  else None.

(** The state of [Fixture.w0] with the clock moved to [t]. *)
Definition at_time (t : Z) (w : world) : world :=
  {| users := users w; auto_increment := auto_increment w; txn := txn w;
     connection := connection w; log := log w; now := t; salt := salt w |}.

End Tokens.

Section Service.

(** The collation of the text columns, as the weight string the engine
    compares. *)
Variable weight_string : string -> list N.

(** [bcrypt.hash(data, rounds)] with the salt it draws, and
    [bcrypt.compare(data, hash)], on strings. *)
Variable bcrypt_hash : string -> Z -> string -> string.
Variable bcrypt_compare : string -> string -> bool.

(** Signing with [process.env.JWT_SECRET], and its inverse: [None] for a
    token that is malformed or whose signature does not match. *)
Variable jwt_sign : claims -> string.
Variable jwt_decode : string -> option claims.

(** [process.env.JWT_EXPIRES_IN] in seconds, when set. *)
Variable JWT_EXPIRES_IN : option Z.

(** How a valid [Date], given by its instant in milliseconds, prints. *)
Variable Date_toString : Z -> string.

(** A parameter of [execute] that is a number, a boolean, an array or an
    object.  What [mysql2] sends for it and what the server makes of
    that are not fixed by the sources: [stored_as] gives the text a
    character column receives from such a parameter, [equal_to] tells
    which texts of a character column [column = ?] finds equal to it,
    and either may be the refusal of the statement.  A statement that
    is refused for a parameter is not recorded among the statements
    run. *)
Variable stored_as : JS.value -> bound string.
Variable equal_to : JS.value -> bound (string -> bool).

Set Default Proof Using "Type".

(** *** The SQL engine *)

Definition sql_compare (a b : sqlval) : comparison :=
  match a, b with
  | SqlNull, SqlNull => Eq
  | SqlNull, _ => Lt
  | _, SqlNull => Gt
  | SqlInt x, SqlInt y => Z.compare x y
  | SqlInt _, _ => Lt
  | _, SqlInt _ => Gt
  | SqlDate x, SqlDate y => Z.compare x y
  | SqlDate _, _ => Lt
  | _, SqlDate _ => Gt
  | SqlText x, SqlText y => weights_compare (weight_string x) (weight_string y)
  end.

(** [a = b] on text *)
Definition text_eqb (a b : string) : bool :=
  match weights_compare (weight_string a) (weight_string b) with
  | Eq => true
  | _ => false
  end.

Fixpoint order_compare (order : order_by_clause) (u v : User.t) : comparison :=
  match order with
  | [] => Eq
  | (e, d) :: order' =>
      match apply_direction d (sql_compare (eval_sort_expr e u) (eval_sort_expr e v)) with
      | Eq => order_compare order' u v
      | c => c
      end
  end.

Fixpoint insert_row (order : order_by_clause) (u : User.t) (rows : list User.t)
  : list User.t :=
  match rows with
  | [] => [u]
  | v :: rows' =>
      match order_compare order u v with
      | Gt => v :: insert_row order u rows'
      | _ => u :: rows
      end
  end.

(** [ORDER BY]: the rows, sorted by the clause. *)
Definition order_by (order : order_by_clause) (rows : list User.t) : list User.t :=
  fold_right (insert_row order) [] rows.

(** [id IN (ids)] *)
Definition id_in (ids : list JS.number) (u : User.t) : bool :=
  existsb (fun n => match n with JS.Num z => z =? User.id u | _ => false end) ids.

(** [query] writes a number into the statement as [String] prints it.
    [NaN] and [Infinity] are no numbers of SQL: the server reads them as
    column names and refuses the statement. *)
Definition writable (n : JS.number) : bool :=
  match n with JS.Num _ => true | _ => false end.

Definition unknown_column (ids : list JS.number) : error :=
  new_Error (if existsb JS.isNaN ids
             then "Unknown column 'NaN' in 'where clause'"
             else "Unknown column 'Infinity' in 'where clause'").

Definition affected (p : User.t -> bool) (rows : list User.t) : Z :=
  Z.of_nat (List.length (filter p rows)).

(** [execute] refuses a parameter that is [undefined]; [null] is sent as
    NULL and a string as text. *)
Definition undefined_parameter : error :=
  new_TypeError "Bind parameters must not contain undefined. To pass SQL NULL specify JS null".

(** A parameter that a character column is to receive. *)
Definition text_parameter (v : JS.value) : M (option string) :=
  match v with
  | JS.VUndefined => throw undefined_parameter
  | JS.VNull => ret None
  | JS.VString s => ret (Some s)
  | _ =>
      match stored_as v with
      | Refused m => throw (new_Error m)
      | Bound t => ret (Some t)
      end
  end.

(** A parameter that a character column is compared with: the texts
    equal to it.  Nothing equals NULL. *)
Definition where_parameter (v : JS.value) : M (string -> bool) :=
  match v with
  | JS.VUndefined => throw undefined_parameter
  | JS.VNull => ret (fun _ => false)
  | JS.VString s => ret (fun t => text_eqb t s)
  | _ =>
      match equal_to v with
      | Refused m => throw (new_Error m)
      | Bound p => ret p
      end
  end.

(** *** userController.js *)

Definition saltRounds : Z := 10.

Fixpoint ensureRequiredFieldsPresent (b : body) (requiredFields : list string)
  : M unit :=
  match requiredFields with
  | [] => ret tt
  | field :: rest =>
      if negb (JS.ToBoolean (get b field)) then
        throw (with_statusCode (new_Error ("Please provide " ++ field ++ ".")) 400)
      else ensureRequiredFieldsPresent b rest
  end.

Definition not_space_or_at (c : ascii) : bool :=
  negb (JS.isWhiteSpace c) && negb (Ascii.eqb c "@").

(** [/^[^\s@]+@[^\s@]+\.[^\s@]+$/] *)
Definition emailRegex : JS.regex :=
  JS.Cat (JS.Plus (JS.Class not_space_or_at))
 (JS.Cat (JS.Class (Ascii.eqb "@"))
 (JS.Cat (JS.Plus (JS.Class not_space_or_at))
 (JS.Cat (JS.Class (Ascii.eqb "."))
         (JS.Plus (JS.Class not_space_or_at))))).

(** [test] matches the print of its argument. *)
Definition validateEmailFormat (email : JS.value) : M unit :=
  s <- or_TypeError (JS.ToString email) "Cannot convert object to primitive value" ;;
  if negb (JS.test emailRegex s) then
    throw (with_statusCode (new_Error "Invalid email format.") 400)
  else ret tt.

Definition checkEmailAvailability (email : JS.value) : M unit :=
  equal <- where_parameter email ;;
  existingUsers <- query (SelectEmailWhereEmail email)
                     (filter (fun u => equal (User.email u))) ;;
  if (0 <? Z.of_nat (List.length existingUsers)) then
    throw (with_statusCode (new_Error "Email already registered.") 409)
  else ret tt.

(** [bcrypt.hash] rejects data that is not a string. *)
Definition generateHashedPassword (password : JS.value) : M string :=
  match password with
  | JS.VString p => w <- get_world ;; ret (bcrypt_hash p saltRounds (salt w))
  | JS.VUndefined | JS.VNull => throw (new_Error "data and salt arguments required")
  | _ =>
      throw (new_Error "data must be a string or Buffer and salt must either be a salt string or a number of rounds")
  end.

(** Modelled from the spec: the definition of the [users] table is not
    part of the sources.  A row that is inserted gets the next id of the
    table, starts as [active], with the current time as registration date
    and without a last login. *)
Definition inserted_row (insertId : Z) (first_name last_name email password_hash : string)
    (job_title company : option string) (current_timestamp : Z) : User.t :=
  {| User.id := insertId; User.first_name := first_name;
     User.last_name := last_name; User.email := email;
     User.password_hash := password_hash;
     User.job_title := job_title; User.company := company;
     User.last_login_date := None; User.registration_date := current_timestamp;
     User.status := "active" |}.

(** Modelled from the spec: the table definition is not part of the
    sources.  The [email] column is unique: an insert is refused when a
    row with an equal email exists.  The names and the email are
    required: an insert of NULL is refused. *)
Definition violates_unique_email (email : string) (rows : list User.t) : bool :=
  existsb (fun u => text_eqb (User.email u) email) rows.

Definition insertNewUser (first_name last_name email : JS.value)
    (hashedPassword : string) (job_title company : JS.value) : M Z :=
  let statement :=
    InsertUser first_name last_name email hashedPassword
               (or_null job_title) (or_null company) in
  f <- text_parameter first_name ;;
  l <- text_parameter last_name ;;
  e <- text_parameter email ;;
  j <- text_parameter (or_null job_title) ;;
  c <- text_parameter (or_null company) ;;
  match f, l, e with
  | Some f, Some l, Some e =>
      w <- get_world ;;
      if violates_unique_email e (view w) then
        emit (Run statement) ;;
        throw (new_Error "Duplicate entry for key 'email'")
      else
        let insertId := auto_increment w in
        put_world (set_auto_increment (insertId + 1) w) ;;
        update statement
               (fun rows =>
                  (rows ++ [inserted_row insertId f l e hashedPassword j c (now w)])%list) ;;
        ret insertId
  | _, _, _ =>
      emit (Run statement) ;;
      throw (new_Error "Column cannot be null")
  end.

Definition columnsToSelect : list string :=
  ["id"; "first_name"; "last_name"; "email"; "job_title"; "company";
   "last_login_date"; "registration_date"; "status"].

Definition allowedSortBy : list string :=
  ["id"; "first_name"; "last_name"; "email"; "last_login_date";
   "registration_date"; "status"].

Definition includes (l : list string) (s : string) : bool :=
  existsb (String.eqb s) l.

(** [clientSortBy && allowedSortBy.includes(clientSortBy)]: [includes]
    compares without coercion, so it finds strings only. *)
Definition effectiveSortBy (clientSortBy : JS.value) : string :=
  match clientSortBy with
  | JS.VString s =>
      if JS.ToBoolean clientSortBy && includes allowedSortBy s then s
      else "last_login_date"
  | _ => "last_login_date"
  end.

(** [clientSortOrder && clientSortOrder.toUpperCase() === 'ASC' ? 'ASC' : 'DESC'],
    [None] when the call of [toUpperCase] throws. *)
Definition effectiveSortOrder (clientSortOrder : JS.value) : option direction :=
  if JS.ToBoolean clientSortOrder then
    match JS.call_toUpperCase clientSortOrder with
    | Some s => Some (if String.eqb s "ASC" then ASC else DESC)
    | None => None
    end
  else Some DESC.

Definition orderByClause (sortBy : string) (sortOrder : direction)
  : order_by_clause :=
  if String.eqb sortBy "last_login_date" then
    match sortOrder with
    | DESC => [(IsNull "last_login_date", ASC); (Col "last_login_date", DESC);
               (Col "registration_date", DESC)]
    | ASC => [(IsNull "last_login_date", ASC); (Col "last_login_date", ASC);
              (Col "registration_date", ASC)]
    end
  else [(Col sortBy, sortOrder); (Col "registration_date", DESC)].

Definition fetchAllUsersFromDB (clientSortBy clientSortOrder : JS.value)
  : M (list json) :=
  sortOrder <- or_TypeError (effectiveSortOrder clientSortOrder)
                 "clientSortOrder.toUpperCase is not a function" ;;
  let order := orderByClause (effectiveSortBy clientSortBy) sortOrder in
  query (SelectAllUsers order)
        (fun rows => map (select_row columnsToSelect) (order_by order rows)).

(** [affectedRows] of a delete is the number of rows removed. *)
Definition deleteMultipleUsersFromDB (idsToDelete : list JS.number) : M Z :=
  match idsToDelete with
  | [] => ret 0
  | _ =>
      if forallb writable idsToDelete then
        w <- get_world ;;
        update (DeleteWhereIdIn idsToDelete)
               (filter (fun u => negb (id_in idsToDelete u))) ;;
        ret (affected (id_in idsToDelete) (view w))
      else
        emit (Run (DeleteWhereIdIn idsToDelete)) ;;
        throw (unknown_column idsToDelete)
  end.

Definition findUserByEmailInDB (email : JS.value) : M (option LoginRow.t) :=
  equal <- where_parameter email ;;
  rows <- query (SelectLoginWhereEmail email)
            (fun rows => map LoginRow.of_user
                           (filter (fun u => equal (User.email u)) rows)) ;;
  ret (hd_error rows).

Definition updateUserLastLoginDate (userId : Z) : M unit :=
  w <- get_world ;;
  update (UpdateLastLoginDate userId)
         (map (fun u => if User.id u =? userId
                        then User.set_last_login_date (Some (now w)) u
                        else u)).

(** [affectedRows] of an update is the number of rows matched: the
    driver connects with the found-rows flag. *)
Definition updateStatusForMultipleUsersInDB (ids : list JS.number)
    (status : string) : M Z :=
  match ids with
  | [] => ret 0
  | _ =>
      if forallb writable ids then
        w <- get_world ;;
        update (UpdateStatusWhereIdIn status ids)
               (map (fun u => if id_in ids u then User.set_status status u else u)) ;;
        ret (affected (id_in ids) (view w))
      else
        emit (Run (UpdateStatusWhereIdIn status ids)) ;;
        throw (unknown_column ids)
  end.

(** [bcrypt.compare] rejects data that is not a string. *)
Definition bcrypt_compare_async (data : JS.value) (hash : string) : M bool :=
  match data with
  | JS.VString d => ret (bcrypt_compare d hash)
  | JS.VUndefined | JS.VNull => throw (new_Error "data and hash arguments required")
  | _ => throw (new_Error "data and hash must be strings")
  end.

(** [jwt.sign(payload, process.env.JWT_SECRET,
              { expiresIn: process.env.JWT_EXPIRES_IN || '10m' })] *)
Definition expiresIn : Z :=
  match JWT_EXPIRES_IN with
  | Some ttl => ttl
  | None => 600
  end.

Definition sign (id : Z) (email : JS.value) : M string :=
  w <- get_world ;;
  ret (jwt_sign {| userId := id; claim_email := email;
                   iat := now w; exp := now w + expiresIn |}).

Definition loginUser (b : body) : M response :=
  let_connection ;;
  try_catch_finally
    (let email := get b "email" in
     let password := get b "password" in
     ensureRequiredFieldsPresent b ["email"; "password"] ;;
     validateEmailFormat email ;;
     getConnection ;;
     beginTransaction ;;
     user <- findUserByEmailInDB email ;;
     match user with
     | None =>
         rollback ;;
         ret (respond 401 "Invalid email or password.")
     | Some user =>
         isPasswordMatch <- bcrypt_compare_async password (LoginRow.password_hash user) ;;
         if negb isPasswordMatch then
           rollback ;;
           ret (respond 401 "Invalid email or password.")
         else if String.eqb (LoginRow.status user) "blocked" then
           rollback ;;
           ret (respond 403 "Account is blocked. Please contact support.")
         else
           updateUserLastLoginDate (LoginRow.id user) ;;
           token <- sign (LoginRow.id user) (JS.VString (LoginRow.email user)) ;;
           commit ;;
           ret {| res_status := 200;
                  res_json :=
                    JObj [("message", JStr "Login successful!");
                          ("token", JStr token);
                          ("user",
                           JObj [("id", JNum (LoginRow.id user));
                                 ("first_name", JStr (LoginRow.first_name user));
                                 ("last_name", JStr (LoginRow.last_name user));
                                 ("email", JStr (LoginRow.email user))])] |}
     end)
    (fun error =>
       rollback_if_connection ;;
       ret (respond 500 "An error occurred during login."))
    release_if_connection.

Definition logoutUser : M response :=
  ret (respond 200 "Logout successful. DISCARDING PENDING IN FRONT.").

(** [userIds.map((id) => parseInt(id, 10))], [None] when a call of
    [parseInt] throws. *)
Fixpoint parsedUserIds (ids : list JS.value) : option (list JS.number) :=
  match ids with
  | [] => Some []
  | id :: ids' =>
      match JS.parseInt id, parsedUserIds ids' with
      | Some n, Some l => Some (n :: l)
      | _, _ => None
      end
  end.

(** [userIds.map((id) => parseInt(id, 10))
           .filter((id) => !isNaN(id) && id > 0)] *)
Definition validUserIds (ids : list JS.value) : option (list JS.number) :=
  option_map (filter (fun id => negb (JS.isNaN id) && JS.gt0 id)) (parsedUserIds ids).

Definition updateMultipleUsersStatus (b : body) : M response :=
  let_connection ;;
  try_catch_finally
    (let userIds := get b "userIds" in
     let status := get b "status" in
     match userIds with
     | JS.VArray (id :: ids) =>
         if negb (JS.ToBoolean status) then
           ret (respond 400 "Invalid status provided. Must be 'active' or 'blocked'.")
         else
           lowered <- or_TypeError (JS.call_toLowerCase status)
                        "status.toLowerCase is not a function" ;;
           if negb (includes ["active"; "blocked"] lowered) then
             ret (respond 400 "Invalid status provided. Must be 'active' or 'blocked'.")
           else
             valid <- or_TypeError (validUserIds (id :: ids))
                        "Cannot convert object to primitive value" ;;
             match valid with
             | [] => ret (respond 400 "No valid user IDs provided for status update.")
             | _ =>
                 getConnection ;;
                 beginTransaction ;;
                 affectedRows <- updateStatusForMultipleUsersInDB valid lowered ;;
                 commit ;;
                 if (affectedRows =? 0) && (0 <? Z.of_nat (List.length valid)) then
                   ret (respond 404 "No users found matching the provided IDs for status update.")
                 else
                   ret (respond 200
                          ("Successfully updated status to '" ++ lowered ++ "' for "
                           ++ JS.string_of_Z affectedRows ++ " user(s)."))
             end
     | _ => ret (respond 400 "Please provide a non-empty array of user IDs.")
     end)
    (fun error =>
       rollback_if_connection ;;
       ret (respond 500 "An error occurred while updating user statuses."))
    release_if_connection.

(** [error.statusCode || 500] and [error.message || '...'] *)
Definition statusCode_or_500 (e : error) : Z :=
  match statusCode e with
  | Some c => if c =? 0 then 500 else c
  | None => 500
  end.

Definition message_or (e : error) (fallback : string) : string :=
  match message e with
  | EmptyString => fallback
  | m => m
  end.

Definition registerUser (b : body) : M response :=
  let_connection ;;
  try_catch_finally
    (let first_name := get b "first_name" in
     let last_name := get b "last_name" in
     let email := get b "email" in
     let password := get b "password" in
     let job_title := get b "job_title" in
     let company := get b "company" in
     ensureRequiredFieldsPresent b ["first_name"; "last_name"; "email"; "password"] ;;
     validateEmailFormat email ;;
     getConnection ;;
     beginTransaction ;;
     checkEmailAvailability email ;;
     hashedPassword <- generateHashedPassword password ;;
     userId <- insertNewUser first_name last_name email hashedPassword job_title company ;;
     updateUserLastLoginDate userId ;;
     commit ;;
     token <- sign userId email ;;
     ret {| res_status := 201;
            res_json :=
              JObj [("message", JStr "User registered successfully!");
                    ("token", JStr token);
                    ("userId", JNum userId);
                    ("user",
                     JObj (prop "id" (Some (JNum userId))
                           ++ prop "first_name" (jval first_name)
                           ++ prop "last_name" (jval last_name)
                           ++ prop "email" (jval email)
                           ++ prop "job_title" (jval (or_null job_title))
                           ++ prop "company" (jval (or_null company)))%list)] |})
    (fun error =>
       rollback_if_connection ;;
       ret (respond (statusCode_or_500 error)
                    (message_or error "An error occurred during registration.")))
    release_if_connection.

(** [req.query.sortBy || 'last_login_date'] *)
Definition or_default (v : JS.value) (d : string) : JS.value :=
  if JS.ToBoolean v then v else JS.VString d.

Definition getAllUsers (query_sortBy query_sortOrder : JS.value) : M response :=
  let_connection ;;
  try_catch_finally
    (let sortBy := or_default query_sortBy "last_login_date" in
     let sortOrder := or_default query_sortOrder "DESC" in
     getConnection ;;
     users <- fetchAllUsersFromDB sortBy sortOrder ;;
     ret {| res_status := 200;
            res_json :=
              JObj [("message", JStr "Users retrieved successfully!");
                    ("count", JNum (Z.of_nat (List.length users)));
                    ("users", JArr users)] |})
    (fun error => ret (respond 500 "An error occurred while retrieving users."))
    release_if_connection.

Definition deleteMultipleUsers (b : body) : M response :=
  let_connection ;;
  try_catch_finally
    (let userIds := get b "userIds" in
     match userIds with
     | JS.VArray (id :: ids) =>
         valid <- or_TypeError (validUserIds (id :: ids))
                    "Cannot convert object to primitive value" ;;
         match valid with
         | [] => ret (respond 400 "No valid user IDs provided for deletion.")
         | _ =>
             getConnection ;;
             beginTransaction ;;
             affectedRows <- deleteMultipleUsersFromDB valid ;;
             if affectedRows =? 0 then
               ret (respond 404 "No users found matching the provided IDs for deletion, or no valid IDs were provided.")
             else
               commit ;;
               ret (respond 200
                      ("Successfully deleted " ++ JS.string_of_Z affectedRows
                       ++ " user(s)."))
         end
     | _ => ret (respond 400 "Please provide an array of user IDs.")
     end)
    (fun error =>
       rollback_if_connection ;;
       ret (respond 500 "An error occurred while deleting users."))
    release_if_connection.

(** *** authMiddleware.js *)

(** [jwt.verify(token, process.env.JWT_SECRET)].  A token that is missing
    or empty, malformed or wrongly signed raises a [JsonWebTokenError]; a
    token whose expiry is not after the clock raises a
    [TokenExpiredError] whose [expiredAt] is the [Date] of the expiry,
    [new Date(payload.exp * 1000)]. *)
Definition verify (token : option string) : M claims :=
  match token with
  | None | Some EmptyString =>
      throw {| name := "JsonWebTokenError"; message := "jwt must be provided";
               statusCode := None; expiredAt := None |}
  | Some t =>
      match jwt_decode t with
      | None =>
          throw {| name := "JsonWebTokenError"; message := "invalid token";
                   statusCode := None; expiredAt := None |}
      | Some payload =>
          w <- get_world ;;
          if exp payload <=? now w then
            throw {| name := "TokenExpiredError"; message := "jwt expired";
                     statusCode := None;
                     expiredAt := Some (exp payload * 1000) |}
          else ret payload
      end
  end.

Definition getUserForAuth (id : Z) : M (option AuthRow.t) :=
  rows <- query (SelectAuthWhereId id)
            (fun rows => map AuthRow.of_user
                           (filter (fun u => User.id u =? id) rows)) ;;
  ret (hd_error rows).

(** [`${new Date(v)}`]: an instant out of range prints as
    [Invalid Date]. *)
Definition new_Date_toString (v : Z) : string :=
  if Z.abs v <=? 8640000000000000 then Date_toString v else "Invalid Date".

Definition protect (authorization : option string) : M guarded :=
  let_connection ;;
  if JS.truthy authorization && JS.startsWith (JS.str authorization) "Bearer" then
    try_catch_finally
      (let token := nth_error (JS.split (JS.str authorization) " ") 1 in
       decoded <- verify token ;;
       getConnection ;;
       currentUser <- getUserForAuth (userId decoded) ;;
       match currentUser with
       | None =>
           ret (Answered (respond 401 "Not authorized, user associated with token not found"))
       | Some currentUser =>
           if String.eqb (AuthRow.status currentUser) "blocked" then
             ret (Answered (respond 403 "Forbidden: Your account is blocked."))
           else ret (Next currentUser)
       end)
      (fun error =>
         if String.eqb (name error) "JsonWebTokenError" then
           ret (Answered (respond 401 "Not authorized, invalid token (e.g., signature mismatch or malformed)"))
         else if String.eqb (name error) "TokenExpiredError" then
           let expiryDate :=
             match expiredAt error with
             | Some d => new_Date_toString (d * 1000)
             | None => "N/A"
             end in
           ret (Answered (respond 401 ("Not authorized, token expired at " ++ expiryDate)))
         else
           ret (Answered (respond 401 "Not authorized, token verification process failed")))
      release_if_connection
  else ret (Answered (respond 401 "Not authorized, no Bearer token provided")).

(** *** Notions used by the statements *)

(** Both fields are present and the email has the expected shape: the
    two checks that [loginUser] makes before it asks for a connection. *)
Definition email_passes (email : JS.value) : bool :=
  match JS.ToString email with
  | Some s => JS.test emailRegex s
  | None => false
  end.

Definition login_validates (b : body) : bool :=
  JS.ToBoolean (get b "email") && JS.ToBoolean (get b "password")
  && email_passes (get b "email").

Definition register_validates (b : body) : bool :=
  JS.ToBoolean (get b "first_name") && JS.ToBoolean (get b "last_name")
  && JS.ToBoolean (get b "email") && JS.ToBoolean (get b "password")
  && email_passes (get b "email").

(** A value that is a string, or that [v || null] sends as NULL. *)
Definition text_or_absent (v : JS.value) : Prop :=
  JS.is_string v = true \/ JS.ToBoolean v = false.

(** The string that a value is; the text of an optional field. *)
Definition text (v : JS.value) : string :=
  match v with JS.VString s => s | _ => "" end.

Definition optional_text (v : JS.value) : option string :=
  match or_null v with JS.VString s => Some s | _ => None end.

(** The stored users an email matches, in table order. *)
Definition matching (email : string) (rows : list User.t) : list User.t :=
  filter (fun u => text_eqb (User.email u) email) rows.

(** The row that the registration of a body with string fields adds. *)
Definition registered (b : body) (w : world) : User.t :=
  {| User.id := auto_increment w;
     User.first_name := text (get b "first_name");
     User.last_name := text (get b "last_name");
     User.email := text (get b "email");
     User.password_hash := bcrypt_hash (text (get b "password")) saltRounds (salt w);
     User.job_title := optional_text (get b "job_title");
     User.company := optional_text (get b "company");
     User.last_login_date := Some (now w);
     User.registration_date := now w;
     User.status := "active" |}.

(** [a] comes no later than [b] in direction [d]. *)
Definition in_direction (d : direction) (a b : Z) : Prop :=
  match d with ASC => a <= b | DESC => b <= a end.

(** The order of two rows [u], [v] listed in this order when the key is
    [last_login_date]: a row without a login is followed only by such
    rows; two rows with a login follow the direction, and at equal
    login times so do their registration dates. *)
Definition last_login_policy (d : direction) (u v : User.t) : Prop :=
  (User.last_login_date u = None -> User.last_login_date v = None)
  /\ (forall a b, User.last_login_date u = Some a ->
                  User.last_login_date v = Some b ->
                  in_direction d a b
                  /\ (a = b -> in_direction d (User.registration_date u)
                                             (User.registration_date v))).

(** The order of two rows [u], [v] listed in this order for another key:
    the key follows the direction, and at equal keys the later
    registration comes first. *)
Definition tie_break_policy (key : string) (d : direction) (u v : User.t) : Prop :=
  apply_direction d (sql_compare (column key u) (column key v)) <> Gt
  /\ (sql_compare (column key u) (column key v) = Eq ->
      User.registration_date v <= User.registration_date u).

(** The spec's words for the sort order: [ASC] and [DESC] are kept,
    anything else becomes [DESC]. *)
Definition sortOrder_as_specified (sortOrder : JS.value) : direction :=
  match sortOrder with
  | JS.VString s => if String.eqb s "ASC" then ASC else DESC
  | _ => DESC
  end.

(** A row with its digest blanked. *)
Definition redact (u : User.t) : User.t := User.set_password_hash "" u.

(** Two rows that differ in their digest only and, when a password is
    given, on whose digests it verifies alike. *)
Definition row_alike (password : option string) (u1 u2 : User.t) : Prop :=
  redact u1 = redact u2
  /\ match password with
     | Some p => bcrypt_compare p (User.password_hash u1)
                 = bcrypt_compare p (User.password_hash u2)
     | None => True
     end.

Definition table_alike (password : option string) : list User.t -> list User.t -> Prop :=
  Forall2 (row_alike password).

(** A statement, and a call made on the connection, without the digest
    it carries. *)
Definition redact_statement (q : statement) : statement :=
  match q with
  | InsertUser first_name last_name email _ job_title company =>
      InsertUser first_name last_name email "" job_title company
  | _ => q
  end.

Definition redact_event (e : event) : event :=
  match e with
  | Run q => Run (redact_statement q)
  | _ => e
  end.

Definition log_alike (l1 l2 : list event) : Prop :=
  map redact_event l1 = map redact_event l2.

(** Two states whose tables are alike row by row, whose logs differ in
    the digests they carry only, and that agree on everything else but
    the salt that [bcrypt] draws next: the digest that a registration
    computes in the one and in the other may differ. *)
Record alike (password : option string) (w1 w2 : world) : Prop :=
  { alike_users : table_alike password (users w1) (users w2);
    alike_txn : match txn w1, txn w2 with
                | Some t1, Some t2 => table_alike password t1 t2
                | None, None => True
                | _, _ => False
                end;
    alike_auto_increment : auto_increment w1 = auto_increment w2;
    alike_connection : connection w1 = connection w2;
    alike_log : log_alike (log w1) (log w2);
    alike_now : now w1 = now w2 }.

(** Two states that differ in the digests, stored or to be computed,
    only. *)
Definition same_but_digests (w1 w2 : world) : Prop := alike None w1 w2.

(** The password of a request, when it is a string. *)
Definition password_of (b : body) : option string :=
  match get b "password" with
  | JS.VString p => Some p
  | _ => None
  end.

(** Two runs end in states that are alike, both with a result, the two
    related by [R], or both with the same error. *)
Definition outcome_alike {A : Type} (password : option string)
    (R : A -> A -> Prop) (o1 o2 : result A * world) : Prop :=
  alike password (snd o1) (snd o2)
  /\ match fst o1, fst o2 with
     | Ok a1, Ok a2 => R a1 a2
     | Throw e1, Throw e2 => e1 = e2
     | _, _ => False
     end.

(** Two computations that, started in states that are alike, have
    outcomes that are alike. *)
Definition sim {A : Type} (password : option string) (R : A -> A -> Prop)
    (m1 m2 : M A) : Prop :=
  forall w1 w2, alike password w1 w2 -> outcome_alike password R (m1 w1) (m2 w2).

(** A function of a row that does not look at the digest. *)
Definition public {A : Type} (f : User.t -> A) : Prop :=
  forall u1 u2, redact u1 = redact u2 -> f u1 = f u2.

Definition login_row_alike (password : option string) (r1 r2 : LoginRow.t) : Prop :=
  LoginRow.id r1 = LoginRow.id r2
  /\ LoginRow.first_name r1 = LoginRow.first_name r2
  /\ LoginRow.last_name r1 = LoginRow.last_name r2
  /\ LoginRow.email r1 = LoginRow.email r2
  /\ LoginRow.status r1 = LoginRow.status r2
  /\ match password with
     | Some p => bcrypt_compare p (LoginRow.password_hash r1)
                 = bcrypt_compare p (LoginRow.password_hash r2)
     | None => True
     end.

Definition option_alike {A : Type} (R : A -> A -> Prop) (o1 o2 : option A) : Prop :=
  match o1, o2 with
  | Some a1, Some a2 => R a1 a2
  | None, None => True
  | _, _ => False
  end.

Definition no_space (s : string) : bool :=
  forallb (fun c => negb (Ascii.eqb c " ")) (list_ascii_of_string s).

Definition starts_with_digit (s : string) : bool :=
  match s with
  | String c _ => JS.isDigit c
  | EmptyString => false
  end.

Definition all_chars (p : ascii -> bool) (s : string) : bool :=
  forallb p (list_ascii_of_string s).

(** The integer that a string of decimal digits denotes, read after
    digits worth [acc]. *)
Fixpoint decimal (acc : Z) (ds : string) : Z :=
  match ds with
  | EmptyString => acc
  | String c ds' => decimal (10 * acc + JS.digitValue c) ds'
  end.

(** A string has the leading integer [z]: it is made of white space, of
    an optional sign, of the decimal digits of [z], at least one, and of
    a rest that does not go on with a digit. *)
Inductive leading_integer : string -> Z -> Prop :=
| leading_integer_intro (ws sign ds rest : string) :
    all_chars JS.isWhiteSpace ws = true ->
    sign = "" \/ sign = "+" \/ sign = "-" ->
    ds <> "" -> all_chars JS.isDigit ds = true ->
    starts_with_digit rest = false ->
    leading_integer (ws ++ sign ++ ds ++ rest)
                    (if String.eqb sign "-" then - decimal 0 ds else decimal 0 ds).

(** The fields of a registration that go to the table are strings: the
    names and the password are, and the job title and the company are
    strings or falsy, which [|| null] sends as NULL. *)
Definition text_fields (b : body) : Prop :=
  JS.is_string (get b "first_name") = true
  /\ JS.is_string (get b "last_name") = true
  /\ JS.is_string (get b "password") = true
  /\ text_or_absent (get b "job_title")
  /\ text_or_absent (get b "company").

(** The state in which a handler that opened a transaction on an idle
    connection, ran the statements [qs] without changing a row and rolled
    back leaves the service. *)
Definition rolled_back (qs : list statement) (w : world) : world :=
  {| users := users w; auto_increment := auto_increment w; txn := None;
     connection := true;
     log := (log w ++ [GetConnection; BeginTransaction] ++ map Run qs
                   ++ [Rollback; Release])%list;
     now := now w; salt := salt w |}.

Definition bearer_token (authorization : string) : option string :=
  nth_error (JS.split authorization " ") 1.

Definition invalid_token : response :=
  respond 401 "Not authorized, invalid token (e.g., signature mismatch or malformed)".

Definition no_bearer_token : response :=
  respond 401 "Not authorized, no Bearer token provided".

(** What the guard decides once the token is verified. *)
Definition admit_user (id : Z) (rows : list User.t) : guarded :=
  match hd_error (filter (fun u => User.id u =? id) rows) with
  | None => Answered (respond 401 "Not authorized, user associated with token not found")
  | Some u =>
      if String.eqb (User.status u) "blocked"
      then Answered (respond 403 "Forbidden: Your account is blocked.")
      else Next (AuthRow.of_user u)
  end.

(** No change is pending on the connection: what its statements see is
    the committed table. *)
Definition settled (w : world) : Prop := view w = users w.

(** Every id of the table is below the next id it assigns. *)
Definition fresh_ids (w : world) : Prop :=
  Forall (fun u => User.id u < auto_increment w) (users w).

(** The integer a decimal numeral denotes, read after digits worth
    [acc]. *)
Fixpoint uint_value (acc : Z) (d : Decimal.uint) : Z :=
  match d with
  | Decimal.Nil => acc
  | Decimal.D0 d => uint_value (10 * acc + 0) d
  | Decimal.D1 d => uint_value (10 * acc + 1) d
  | Decimal.D2 d => uint_value (10 * acc + 2) d
  | Decimal.D3 d => uint_value (10 * acc + 3) d
  | Decimal.D4 d => uint_value (10 * acc + 4) d
  | Decimal.D5 d => uint_value (10 * acc + 5) d
  | Decimal.D6 d => uint_value (10 * acc + 6) d
  | Decimal.D7 d => uint_value (10 * acc + 7) d
  | Decimal.D8 d => uint_value (10 * acc + 8) d
  | Decimal.D9 d => uint_value (10 * acc + 9) d
  end.

(** The columns an [ORDER BY] clause looks at. *)
Definition clause_columns (order : order_by_clause) : list string :=
  map (fun t => match fst t with Col c => c | IsNull c => c end) order.

(** [u] may be listed before [v]. *)
Definition before (order : order_by_clause) (u v : User.t) : Prop :=
  order_compare order u v <> Gt.

(** A comparison that is a total preorder. *)
Record preorder_cmp {A : Type} (cmp : A -> A -> comparison) : Prop :=
  { cmp_antisym : forall a b, cmp b a = CompOpp (cmp a b);
    cmp_eq_compat : forall a b c, cmp a b = Eq -> cmp a c = cmp b c;
    cmp_lt_trans : forall a b c, cmp a b = Lt -> cmp b c = Lt -> cmp a c = Lt }.

(** *** Notions used by the further statements *)

(** The strings a regular expression denotes. *)
Inductive matches : JS.regex -> string -> Prop :=
| matches_Eps : matches JS.Eps ""
| matches_Class (p : ascii -> bool) (c : ascii) :
    p c = true -> matches (JS.Class p) (String c "")
| matches_Cat (r1 r2 : JS.regex) (s1 s2 : string) :
    matches r1 s1 -> matches r2 s2 -> matches (JS.Cat r1 r2) (s1 ++ s2)
| matches_Alt_l (r1 r2 : JS.regex) (s : string) :
    matches r1 s -> matches (JS.Alt r1 r2) s
| matches_Alt_r (r1 r2 : JS.regex) (s : string) :
    matches r2 s -> matches (JS.Alt r1 r2) s
| matches_Star_nil (r : JS.regex) : matches (JS.Star r) ""
| matches_Star_app (r : JS.regex) (s1 s2 : string) :
    matches r s1 -> matches (JS.Star r) s2 -> matches (JS.Star r) (s1 ++ s2).

(** A non-empty string without white space and without [@]. *)
Definition plain (s : string) : Prop :=
  s <> "" /\ all_chars not_space_or_at s = true.

(** local@domain.tld, the three parts plain. *)
Definition email_shape (s : string) : Prop :=
  exists local domain tld,
    s = local ++ "@" ++ domain ++ "." ++ tld
    /\ plain local /\ plain domain /\ plain tld.

(** A property of a JSON object, and the token of a response. *)
Fixpoint assoc (k : string) (fields : list (string * json)) : option json :=
  match fields with
  | [] => None
  | (k', v) :: fields' => if String.eqb k' k then Some v else assoc k fields'
  end.

Definition json_field (k : string) (j : json) : option json :=
  match j with
  | JObj fields => assoc k fields
  | _ => None
  end.

Definition token_of (r : response) : option string :=
  match json_field "token" (res_json r) with
  | Some (JStr t) => Some t
  | _ => None
  end.

(** The claims [sign] puts in a token for a user, at the clock of [w]. *)
Definition issued_claims (id : Z) (email : string) (w : world) : claims :=
  {| userId := id; claim_email := JS.VString email;
     iat := now w; exp := now w + expiresIn |}.

(** The row of a user after a login at time [t]. *)
Definition stamp (id t : Z) (u : User.t) : User.t :=
  if User.id u =? id then User.set_last_login_date (Some t) u else u.

(** What the table part of a state is, and a computation that keeps a
    part of the state. *)
Definition tables (w : world) : list User.t * option (list User.t) * Z :=
  (users w, txn w, auto_increment w).

Definition keeps {A X : Type} (f : world -> X) (m : M A) : Prop :=
  forall w, f (snd (m w)) = f w.

(** A call that neither takes nor gives back a connection. *)
Definition inner (e : event) : Prop := e <> GetConnection /\ e <> Release.

(** The calls [l1] that follow the calls [l0] are none at all, or start
    with the one that takes the connection, end with the one that gives
    it back, and neither take nor give back a connection in between. *)
Definition released (l0 l1 : list event) : Prop :=
  l1 = l0
  \/ exists l, l1 = (l0 ++ GetConnection :: l ++ [Release])%list /\ Forall inner l.

(** A computation that leaves the state alone, and one that keeps the
    connection variable and makes inner calls only. *)
Definition pure {A : Type} (m : M A) : Prop := forall w, snd (m w) = w.

Definition quiet {A : Type} (m : M A) : Prop :=
  forall w, connection (snd (m w)) = connection w
            /\ exists l, log (snd (m w)) = (log w ++ l)%list /\ Forall inner l.

(** The connection is not taken yet, is held, or either. *)
Definition idle (l0 : list event) (w : world) : Prop :=
  connection w = false /\ log w = l0.

Definition held (l0 : list event) (w : world) : Prop :=
  connection w = true
  /\ exists l, log w = (l0 ++ GetConnection :: l)%list /\ Forall inner l.

Definition idle_or_held (l0 : list event) (w : world) : Prop :=
  idle l0 w \/ held l0 w.

Definition leads {A : Type} (P Q : world -> Prop) (m : M A) : Prop :=
  forall w, P w -> Q (snd (m w)).

(** The ids and the emails of a table are pairwise distinct, the emails
    as the collation tells them apart. *)
Definition unique_ids (rows : list User.t) : Prop := NoDup (map User.id rows).

Definition unique_emails (rows : list User.t) : Prop :=
  NoDup (map (fun u => weight_string (User.email u)) rows).

Definition consistent (w : world) : Prop :=
  settled w /\ fresh_ids w /\ unique_ids (users w) /\ unique_emails (users w).

(** *** The router *)

(** What the guard and the handlers read of a request. *)
Record request : Type :=
  { headers_authorization : option string;   (* req.headers.authorization *)
    req_body : body;                         (* req.body *)
    req_query_sortBy : JS.value;             (* req.query.sortBy *)
    req_query_sortOrder : JS.value }.        (* req.query.sortOrder *)

(** The routes that [userRoutes] declares, in the order of the file. *)
Inductive route : Type :=
| Register | Login | Logout | Dashboard | BulkDelete | BulkStatus.

(** [protect] in front of the rest of a chain: what follows runs when the
    guard calls [next()], and not when the guard has answered.  The guard
    calls [next()] inside its [try], so the program gives the guard's
    connection back once what follows has reached its first [await]; here
    the release is recorded before what follows.  The place of that one
    event in the log is all that differs: the guard only reads, and what
    follows starts with a [connection] variable of its own. *)
Definition protect_next (req : request) (next : M response) : M response :=
  g <- protect (headers_authorization req) ;;
  match g with
  | Answered r => ret r
  | Next _ => next
  end.

(** The handler a route ends in. *)
Definition controller (r : route) (req : request) : M response :=
  match r with
  | Register => registerUser (req_body req)
  | Login => loginUser (req_body req)
  | Logout => logoutUser
  | Dashboard => getAllUsers (req_query_sortBy req) (req_query_sortOrder req)
  | BulkDelete => deleteMultipleUsers (req_body req)
  | BulkStatus => updateMultipleUsersStatus (req_body req)
  end.

(** [userRoutes]: the two open routes, then [router.use(protect)], then
    the four routes that name [protect] once more. *)
Definition userRoutes (r : route) (req : request) : M response :=
  match r with
  | Register => registerUser (req_body req)
  | Login => loginUser (req_body req)
  | Logout => protect_next req (protect_next req logoutUser)
  | Dashboard =>
      protect_next req
        (protect_next req
           (getAllUsers (req_query_sortBy req) (req_query_sortOrder req)))
  | BulkDelete => protect_next req (protect_next req (deleteMultipleUsers (req_body req)))
  | BulkStatus =>
      protect_next req (protect_next req (updateMultipleUsersStatus (req_body req)))
  end.

(** What a handler reads of the state besides its own connection and the
    log: the tables, the clock and the salt. *)
Definition data (w : world) : list User.t * option (list User.t) * Z * Z * string :=
  (tables w, now w, salt w).

(** One of the alternatives of a disjunction holds by computation. *)
Ltac pick := solve [reflexivity | left; pick | right; pick].

(** *** Comparisons and sorting *)

Lemma Z_compare_preorder : preorder_cmp Z.compare.
Proof.
  split.
  - intros a b. apply Z.compare_antisym.
  - intros a b c H. apply Z.compare_eq in H. now subst.
  - intros a b c H1 H2. rewrite Z.compare_lt_iff in *. lia.
Qed.

Lemma weights_compare_antisym :
  forall a b, weights_compare b a = CompOpp (weights_compare a b).
Proof.
  induction a as [|x a IH]; destruct b as [|y b]; simpl; auto.
  rewrite (N.compare_antisym x y).
  destruct (N.compare x y); simpl; auto.
Qed.

Lemma weights_compare_eq :
  forall a b, weights_compare a b = Eq -> a = b.
Proof.
  induction a as [|x a IH]; destruct b as [|y b]; simpl; try discriminate; auto.
  destruct (N.compare x y) eqn:E; try discriminate.
  intros H. apply N.compare_eq in E. f_equal; auto.
Qed.

Lemma weights_compare_lt_trans :
  forall a b c, weights_compare a b = Lt -> weights_compare b c = Lt ->
                weights_compare a c = Lt.
Proof.
  induction a as [|x a IH]; destruct b as [|y b]; destruct c as [|z c];
    simpl; try discriminate; auto.
  destruct (N.compare x y) eqn:Exy; try discriminate;
    destruct (N.compare y z) eqn:Eyz; try discriminate; intros H1 H2.
  - apply N.compare_eq in Exy, Eyz. subst. rewrite N.compare_refl. eauto.
  - apply N.compare_eq in Exy. subst. now rewrite Eyz.
  - apply N.compare_eq in Eyz. subst. now rewrite Exy.
  - rewrite N.compare_lt_iff in Exy, Eyz.
    assert (E : N.compare x z = Lt) by (rewrite N.compare_lt_iff; lia).
    now rewrite E.
Qed.

Lemma weights_compare_preorder : preorder_cmp weights_compare.
Proof.
  split.
  - intros a b. apply weights_compare_antisym.
  - intros a b c H. apply weights_compare_eq in H. now subst.
  - apply weights_compare_lt_trans.
Qed.

Lemma preorder_on {A B : Type} (f : A -> B) (cmp : B -> B -> comparison) :
  preorder_cmp cmp -> preorder_cmp (fun a b => cmp (f a) (f b)).
Proof.
  intros [H1 H2 H3]. split; intros; eauto.
Qed.

Lemma preorder_direction {A : Type} (d : direction) (cmp : A -> A -> comparison) :
  preorder_cmp cmp -> preorder_cmp (fun a b => apply_direction d (cmp a b)).
Proof.
  intros [H1 H2 H3]. destruct d; simpl.
  - split; auto.
  - split.
    + intros a b. now rewrite (H1 a b).
    + intros a b c H. f_equal. apply H2.
      destruct (cmp a b); simpl in H; congruence.
    + intros a b c Hab Hbc.
      assert (Hba : cmp b a = Lt)
        by (rewrite H1; destruct (cmp a b); simpl in *; congruence).
      assert (Hcb : cmp c b = Lt)
        by (rewrite H1; destruct (cmp b c); simpl in *; congruence).
      rewrite (H1 c a), (H3 c b a Hcb Hba). reflexivity.
Qed.

Lemma preorder_lex {A : Type} (c1 c2 : A -> A -> comparison) :
  preorder_cmp c1 -> preorder_cmp c2 ->
  preorder_cmp (fun a b => match c1 a b with Eq => c2 a b | c => c end).
Proof.
  intros [A1 E1 T1] [A2 E2 T2]. split.
  - intros a b. rewrite (A1 a b), (A2 a b).
    destruct (c1 a b); reflexivity.
  - intros a b c H.
    destruct (c1 a b) eqn:Hab; try discriminate.
    rewrite (E1 a b c Hab).
    destruct (c1 b c); auto.
  - intros a b c Hab Hbc.
    destruct (c1 a b) eqn:H1; try discriminate.
    + rewrite (E1 a b c H1).
      destruct (c1 b c) eqn:H2; try discriminate; eauto.
    + destruct (c1 b c) eqn:H2; try discriminate.
      * assert (Hcb : c1 c b = Eq) by (rewrite A1, H2; reflexivity).
        assert (Hac : c1 a c = c1 a b).
        { rewrite (A1 c a), (A1 b a). f_equal. apply E1. exact Hcb. }
        now rewrite Hac, H1.
      * now rewrite (T1 a b c H1 H2).
Qed.

Lemma sql_compare_preorder : preorder_cmp sql_compare.
Proof.
  destruct Z_compare_preorder as [ZA ZE ZT].
  destruct weights_compare_preorder as [WA WE WT].
  split.
  - intros [|x|x|x] [|y|y|y]; simpl; auto.
  - intros [|x|x|x] [|y|y|y] c; simpl; try discriminate; auto; intros H.
    + apply Z.compare_eq in H. now subst.
    + destruct c; auto.
    + apply Z.compare_eq in H. now subst.
  - intros [|x|x|x] [|y|y|y] [|z|z|z]; simpl; try discriminate; eauto.
Qed.

Lemma order_compare_preorder (order : order_by_clause) :
  preorder_cmp (order_compare order).
Proof.
  induction order as [|[e d] order IH]; simpl.
  - split; intros; auto; discriminate.
  - apply (preorder_lex
             (fun u v => apply_direction d
                           (sql_compare (eval_sort_expr e u) (eval_sort_expr e v)))
             (order_compare order)); auto.
    apply preorder_direction.
    apply (preorder_on (eval_sort_expr e)), sql_compare_preorder.
Qed.

Lemma before_trans (order : order_by_clause) (u v x : User.t) :
  before order u v -> before order v x -> before order u x.
Proof.
  destruct (order_compare_preorder order) as [A E T].
  unfold before. intros Huv Hvx.
  destruct (order_compare order u v) eqn:H1; try congruence.
  - now rewrite (E u v x H1).
  - destruct (order_compare order v x) eqn:H2; try congruence.
    + assert (Hxv : order_compare order x v = Eq) by (rewrite A, H2; reflexivity).
      assert (Hux : order_compare order u x = order_compare order u v).
      { rewrite (A x u), (A v u). f_equal. now apply E. }
      rewrite Hux, H1. discriminate.
    + rewrite (T u v x H1 H2). discriminate.
Qed.

Lemma insert_row_perm (order : order_by_clause) (u : User.t) (rows : list User.t) :
  Permutation (u :: rows) (insert_row order u rows).
Proof.
  induction rows as [|v rows IH]; simpl; auto.
  destruct (order_compare order u v); auto.
  apply perm_trans with (v :: u :: rows); [apply perm_swap | auto].
Qed.

Lemma order_by_perm (order : order_by_clause) (rows : list User.t) :
  Permutation rows (order_by order rows).
Proof.
  induction rows as [|u rows IH]; simpl; auto.
  apply perm_trans with (u :: order_by order rows); auto.
  apply insert_row_perm.
Qed.

Lemma insert_row_sorted (order : order_by_clause) (u : User.t) (rows : list User.t) :
  StronglySorted (before order) rows ->
  StronglySorted (before order) (insert_row order u rows).
Proof.
  induction rows as [|v rows IH]; simpl; intros Hs.
  - constructor; auto.
  - apply StronglySorted_inv in Hs. destruct Hs as [Hs Hv].
    assert (Hle : order_compare order u v <> Gt ->
                  StronglySorted (before order) (u :: v :: rows)).
    { intros Huv. constructor.
      - constructor; auto.
      - constructor; auto.
        eapply Forall_impl; [|exact Hv].
        intros x Hvx. now apply before_trans with v. }
    destruct (order_compare order u v) eqn:Huv;
      try (apply Hle; discriminate).
    constructor; auto.
    apply (Permutation_Forall (insert_row_perm order u rows)).
    constructor; auto.
    unfold before. destruct (order_compare_preorder order) as [A _ _].
    rewrite A, Huv. discriminate.
Qed.

Lemma order_by_sorted (order : order_by_clause) (rows : list User.t) :
  StronglySorted (before order) (order_by order rows).
Proof.
  induction rows as [|u rows IH]; simpl.
  - constructor.
  - now apply insert_row_sorted.
Qed.

Lemma StronglySorted_impl {A : Type} (R S : A -> A -> Prop) (l : list A) :
  (forall a b, R a b -> S a b) -> StronglySorted R l -> StronglySorted S l.
Proof.
  intros HRS. induction 1; constructor; auto.
  eapply Forall_impl; [|eassumption]. auto.
Qed.

Lemma includes_In (l : list string) (s : string) :
  includes l s = true <-> In s l.
Proof.
  unfold includes. rewrite existsb_exists. split.
  - intros [x [Hin Heq]]. apply String.eqb_eq in Heq. now subst.
  - intros Hin. exists s. split; auto. apply String.eqb_refl.
Qed.

Lemma effectiveSortBy_allowed (sortBy : JS.value) :
  In (effectiveSortBy sortBy) allowedSortBy.
Proof.
  unfold effectiveSortBy.
  destruct sortBy as [| |b|p|s|l|l]; try (simpl; pick).
  destruct (JS.ToBoolean (JS.VString s) && includes allowedSortBy s) eqn:H.
  - apply andb_true_iff in H. now apply includes_In.
  - simpl. pick.
Qed.

Lemma column_last_login_date (u : User.t) :
  column "last_login_date" u = sql_of_date (User.last_login_date u).
Proof. reflexivity. Qed.

Lemma column_registration_date (u : User.t) :
  column "registration_date" u = SqlDate (User.registration_date u).
Proof. reflexivity. Qed.

Lemma before_last_login (d : direction) (u v : User.t) :
  before (orderByClause "last_login_date" d) u v -> last_login_policy d u v.
Proof.
  unfold before, last_login_policy, orderByClause.
  destruct d; simpl;
    rewrite ?column_last_login_date, ?column_registration_date;
    destruct (User.last_login_date u) as [a|], (User.last_login_date v) as [b|];
    simpl; intros H;
    (split; [intros E; congruence || (exfalso; apply H; reflexivity)
            | intros a' b' Ha Hb; try discriminate]);
    injection Ha as <-; injection Hb as <-; simpl;
    destruct (Z.compare_spec a b) as [E|E|E]; simpl in H;
    try (split; lia); try congruence;
    subst; (split; [lia|]); intros _;
    destruct (Z.compare_spec (User.registration_date u) (User.registration_date v));
    simpl in H; try lia; congruence.
Qed.

Lemma before_other_key (key : string) (d : direction) (u v : User.t) :
  key <> "last_login_date" ->
  before (orderByClause key d) u v -> tie_break_policy key d u v.
Proof.
  intros Hkey. unfold before, tie_break_policy, orderByClause.
  destruct (String.eqb_spec key "last_login_date") as [E|_]; [congruence|].
  simpl.
  destruct (sql_compare (column key u) (column key v)) eqn:Hc;
    destruct d; simpl; intros H; split; try congruence; intros _.
  - rewrite ?column_registration_date in H. simpl in H.
    destruct (Z.compare_spec (User.registration_date u) (User.registration_date v));
      simpl in H; try lia. congruence.
  - rewrite ?column_registration_date in H. simpl in H.
    destruct (Z.compare_spec (User.registration_date u) (User.registration_date v));
      simpl in H; try lia. congruence.
Qed.

(** *** Running the handlers *)

Ltac unfold_monad :=
  unfold try_catch_finally, rollback_if_connection, release_if_connection,
    when, getConnection, beginTransaction, commit, rollback, release, query,
    update, or_TypeError, let_connection, get_world, put_world, emit,
    bind, ret, throw in *.

Lemma ensureRequiredFieldsPresent_ok (b : body) (fields : list string) (w : world) :
  forallb (fun f => JS.ToBoolean (get b f)) fields = true ->
  ensureRequiredFieldsPresent b fields w = (Ok tt, w).
Proof.
  induction fields as [|f fields IH]; simpl; intros H; auto.
  apply andb_true_iff in H. destruct H as [Hf H].
  rewrite Hf. simpl. auto.
Qed.

Lemma login_validation_fails (b : body) (w : world) :
  login_validates b = false ->
  loginUser b w
  = (Ok (respond 500 "An error occurred during login."), set_connection false w).
Proof.
  unfold login_validates, email_passes, loginUser. intros H.
  unfold_monad. simpl.
  destruct (JS.ToBoolean (get b "email")) eqn:He; simpl in *; auto.
  destruct (JS.ToBoolean (get b "password")) eqn:Hp; simpl in *; auto.
  unfold validateEmailFormat. unfold_monad.
  destruct (JS.ToString (get b "email")) as [s|]; [|reflexivity].
  rewrite H. simpl. reflexivity.
Qed.

Lemma login_validates_inv (b : body) :
  login_validates b = true ->
  JS.ToBoolean (get b "password") = true
  /\ exists s, JS.ToString (get b "email") = Some s
               /\ JS.test emailRegex s = true
               /\ forall w, ensureRequiredFieldsPresent b ["email"; "password"] w = (Ok tt, w).
Proof.
  unfold login_validates, email_passes. intros H.
  apply andb_true_iff in H. destruct H as [H Ht].
  apply andb_true_iff in H. destruct H as [He Hp].
  split; [exact Hp|].
  destruct (JS.ToString (get b "email")) as [s|]; [|discriminate].
  exists s. split; [reflexivity|]. split; [exact Ht|].
  intros w. apply ensureRequiredFieldsPresent_ok. simpl. now rewrite He, Hp.
Qed.


Lemma loginUser_known_email (b : body) (w : world) (e : string)
    (u : User.t) (rest : list User.t) :
  login_validates b = true -> settled w ->
  get b "email" = JS.VString e ->
  matching e (users w) = u :: rest ->
  loginUser b w
  = match get b "password" with
    | JS.VString p =>
        if negb (bcrypt_compare p (User.password_hash u)) then
          (Ok (respond 401 "Invalid email or password."),
           rolled_back [SelectLoginWhereEmail (JS.VString e)] w)
        else if String.eqb (User.status u) "blocked" then
          (Ok (respond 403 "Account is blocked. Please contact support."),
           rolled_back [SelectLoginWhereEmail (JS.VString e)] w)
        else
          (Ok {| res_status := 200;
                 res_json :=
                   JObj [("message", JStr "Login successful!");
                         ("token",
                          JStr (jwt_sign {| userId := User.id u;
                                            claim_email := JS.VString (User.email u);
                                            iat := now w;
                                            exp := now w + expiresIn |}));
                         ("user",
                          JObj [("id", JNum (User.id u));
                                ("first_name", JStr (User.first_name u));
                                ("last_name", JStr (User.last_name u));
                                ("email", JStr (User.email u))])] |},
           {| users := map (fun x => if User.id x =? User.id u
                                     then User.set_last_login_date (Some (now w)) x
                                     else x) (users w);
              auto_increment := auto_increment w; txn := None; connection := true;
              log := log w ++ [GetConnection; BeginTransaction;
                               Run (SelectLoginWhereEmail (JS.VString e));
                               Run (UpdateLastLoginDate (User.id u)); Commit; Release];
              now := now w; salt := salt w |})
    | _ =>
        (Ok (respond 500 "An error occurred during login."),
         rolled_back [SelectLoginWhereEmail (JS.VString e)] w)
    end.
Proof.
  intros Hv Ht He Hm.
  destruct (login_validates_inv b Hv) as [Hp [s [Hs [Hre Hreq]]]].
  rewrite He in Hs. injection Hs as <-.
  unfold loginUser, findUserByEmailInDB, validateEmailFormat, where_parameter,
    bcrypt_compare_async, updateUserLastLoginDate, sign.
  unfold_monad. rewrite Hreq, He. simpl. rewrite Hre. simpl.
  unfold view. simpl. unfold settled, view in Ht. rewrite ?Ht. simpl.
  unfold matching in Hm. rewrite Hm. simpl.
  destruct (get b "password") as [| |x|x|p|x|x]; simpl;
    try (unfold rolled_back; rewrite <- !app_assoc; reflexivity).
  destruct (bcrypt_compare p (User.password_hash u)); simpl.
  - destruct (String.eqb (User.status u) "blocked"); simpl.
    + unfold rolled_back. rewrite <- !app_assoc. reflexivity.
    + rewrite <- !app_assoc. reflexivity.
  - unfold rolled_back. rewrite <- !app_assoc. reflexivity.
Qed.

(** *** Running the guard *)

Lemma startsWith_Bearer_truthy (h : string) :
  JS.startsWith h "Bearer" = true -> JS.truthy (Some h) = true.
Proof. destruct h; simpl; auto. Qed.

Lemma protect_missing_token (h : string) (w : world) :
  JS.startsWith h "Bearer" = true ->
  bearer_token h = None \/ bearer_token h = Some "" ->
  protect (Some h) w = (Ok (Answered invalid_token), set_connection false w).
Proof.
  intros Hs Ht. unfold protect.
  rewrite (startsWith_Bearer_truthy h Hs). simpl JS.str. rewrite Hs. simpl andb.
  unfold bearer_token in Ht. unfold verify. unfold_monad.
  destruct Ht as [Ht|Ht]; rewrite Ht; reflexivity.
Qed.

Lemma protect_undecodable (h t : string) (w : world) :
  JS.startsWith h "Bearer" = true ->
  bearer_token h = Some t -> jwt_decode t = None ->
  protect (Some h) w = (Ok (Answered invalid_token), set_connection false w).
Proof.
  intros Hs Ht Hd. unfold protect.
  rewrite (startsWith_Bearer_truthy h Hs). simpl JS.str. rewrite Hs. simpl andb.
  unfold bearer_token in Ht. unfold verify. unfold_monad. rewrite Ht.
  destruct t; [reflexivity|]. rewrite Hd. reflexivity.
Qed.

Lemma protect_expired (h t : string) (c : claims) (w : world) :
  JS.startsWith h "Bearer" = true ->
  bearer_token h = Some t -> t <> "" -> jwt_decode t = Some c ->
  exp c <= now w ->
  protect (Some h) w
  = (Ok (Answered (respond 401 ("Not authorized, token expired at "
                                ++ new_Date_toString (exp c * 1000 * 1000)))),
     set_connection false w).
Proof.
  intros Hs Ht Hne Hd He. unfold protect.
  rewrite (startsWith_Bearer_truthy h Hs). simpl JS.str. rewrite Hs. simpl andb.
  unfold bearer_token in Ht. unfold verify. unfold_monad. rewrite Ht.
  destruct t; [congruence|]. rewrite Hd. simpl.
  apply Z.leb_le in He. rewrite He. reflexivity.
Qed.

Lemma protect_verified (h t : string) (c : claims) (w : world) :
  JS.startsWith h "Bearer" = true ->
  bearer_token h = Some t -> t <> "" -> jwt_decode t = Some c ->
  now w < exp c ->
  protect (Some h) w
  = (Ok (admit_user (userId c) (view w)),
     {| users := users w; auto_increment := auto_increment w; txn := txn w;
        connection := true;
        log := log w ++ [GetConnection; Run (SelectAuthWhereId (userId c)); Release];
        now := now w; salt := salt w |}).
Proof.
  intros Hs Ht Hne Hd He. unfold protect.
  rewrite (startsWith_Bearer_truthy h Hs). simpl JS.str. rewrite Hs. simpl andb.
  unfold bearer_token in Ht. unfold verify, getUserForAuth. unfold_monad. rewrite Ht.
  destruct t; [congruence|]. rewrite Hd. simpl.
  apply Z.leb_gt in He. rewrite He. simpl.
  unfold admit_user, view. simpl.
  destruct (txn w) as [rows|]; simpl.
  - destruct (filter _ rows) as [|u l]; simpl.
    + rewrite <- !app_assoc. reflexivity.
    + destruct (String.eqb (User.status u) "blocked"); simpl;
        rewrite <- !app_assoc; reflexivity.
  - destruct (filter _ (users w)) as [|u l]; simpl.
    + rewrite <- !app_assoc. reflexivity.
    + destruct (String.eqb (User.status u) "blocked"); simpl;
        rewrite <- !app_assoc; reflexivity.
Qed.

(** *** Running registration *)

Lemma register_validates_inv (b : body) :
  register_validates b = true ->
  JS.ToBoolean (get b "first_name") = true
  /\ JS.ToBoolean (get b "last_name") = true
  /\ JS.ToBoolean (get b "password") = true
  /\ exists s, JS.ToString (get b "email") = Some s
               /\ JS.test emailRegex s = true
               /\ forall w, ensureRequiredFieldsPresent b
                              ["first_name"; "last_name"; "email"; "password"] w
                            = (Ok tt, w).
Proof.
  unfold register_validates, email_passes. intros H.
  apply andb_true_iff in H. destruct H as [H Ht].
  apply andb_true_iff in H. destruct H as [H Hp].
  apply andb_true_iff in H. destruct H as [H He].
  apply andb_true_iff in H. destruct H as [Hf Hl].
  split; [exact Hf|]. split; [exact Hl|]. split; [exact Hp|].
  destruct (JS.ToString (get b "email")) as [s|]; [|discriminate].
  exists s. split; [reflexivity|]. split; [exact Ht|].
  intros w. apply ensureRequiredFieldsPresent_ok. simpl.
  now rewrite Hf, Hl, He, Hp.
Qed.

Lemma filter_nil_existsb {A : Type} (p : A -> bool) (l : list A) :
  filter p l = [] -> existsb p l = false.
Proof.
  induction l as [|a l IH]; simpl; auto.
  destruct (p a); simpl; [discriminate | auto].
Qed.

Lemma registerUser_taken (b : body) (w : world) (e : string) :
  register_validates b = true -> settled w ->
  get b "email" = JS.VString e ->
  matching e (users w) <> [] ->
  registerUser b w
  = (Ok (respond 409 "Email already registered."),
     rolled_back [SelectEmailWhereEmail (JS.VString e)] w).
Proof.
  intros Hv Ht He Hm.
  destruct (register_validates_inv b Hv) as [Hf [Hl [Hp [s [Hs [Hre Hreq]]]]]].
  rewrite He in Hs. injection Hs as <-.
  unfold registerUser, checkEmailAvailability, validateEmailFormat, where_parameter.
  unfold_monad. rewrite Hreq, He. simpl. rewrite Hre. simpl.
  unfold view. simpl. unfold settled, view in Ht. rewrite ?Ht. simpl. unfold matching in Hm.
  destruct (filter _ (users w)) as [|u rest]; [congruence|].
  simpl. unfold rolled_back. rewrite <- !app_assoc. reflexivity.
Qed.

(** A password that is not a string stops the registration of a fresh
    email at [bcrypt.hash]: the answer is 500 with the message of the
    package, after a rollback. *)
Lemma registerUser_password_not_string (b : body) (w : world) (e : string) :
  register_validates b = true -> settled w ->
  get b "email" = JS.VString e ->
  matching e (users w) = [] ->
  JS.is_string (get b "password") = false ->
  registerUser b w
  = (Ok (respond 500 "data must be a string or Buffer and salt must either be a salt string or a number of rounds"),
     rolled_back [SelectEmailWhereEmail (JS.VString e)] w).
Proof.
  intros Hv Ht He Hm Hn.
  destruct (register_validates_inv b Hv) as [Hf [Hl [Hp [s [Hs [Hre Hreq]]]]]].
  rewrite He in Hs. injection Hs as <-.
  unfold registerUser, checkEmailAvailability, validateEmailFormat, where_parameter,
    generateHashedPassword.
  unfold_monad. rewrite Hreq, He. simpl. rewrite Hre. simpl.
  unfold view. simpl. unfold settled, view in Ht. rewrite ?Ht. simpl.
  unfold matching in Hm. rewrite Hm. simpl.
  destruct (get b "password") as [| |x|x|p|x|x]; try discriminate; simpl;
    unfold rolled_back; rewrite <- !app_assoc; reflexivity.
Qed.

Lemma stamp_fresh_rows (n t : Z) (rows : list User.t) :
  Forall (fun u => User.id u < n) rows ->
  map (fun u => if User.id u =? n then User.set_last_login_date (Some t) u else u) rows
  = rows.
Proof.
  induction 1 as [|u rows Hu _ IH]; simpl; auto.
  rewrite IH. destruct (Z.eqb_spec (User.id u) n); [lia | reflexivity].
Qed.

Lemma text_parameter_or_null (v : JS.value) (w : world) :
  text_or_absent v ->
  text_parameter (or_null v) w = (Ok (optional_text v), w).
Proof.
  unfold text_or_absent, optional_text, or_null.
  intros [H|H].
  - destruct v; try discriminate. destruct (JS.ToBoolean _); reflexivity.
  - rewrite H. reflexivity.
Qed.

Lemma is_string_text (v : JS.value) :
  JS.is_string v = true -> v = JS.VString (text v).
Proof. destruct v; try discriminate. reflexivity. Qed.

Lemma registerUser_fresh (b : body) (w : world) (e : string) :
  register_validates b = true -> text_fields b -> settled w ->
  fresh_ids w ->
  get b "email" = JS.VString e ->
  matching e (users w) = [] ->
  registerUser b w
  = (Ok {| res_status := 201;
           res_json :=
             JObj [("message", JStr "User registered successfully!");
                   ("token",
                    JStr (jwt_sign {| userId := auto_increment w;
                                      claim_email := JS.VString e;
                                      iat := now w; exp := now w + expiresIn |}));
                   ("userId", JNum (auto_increment w));
                   ("user",
                    JObj (prop "id" (Some (JNum (auto_increment w)))
                          ++ prop "first_name" (jval (get b "first_name"))
                          ++ prop "last_name" (jval (get b "last_name"))
                          ++ prop "email" (jval (get b "email"))
                          ++ prop "job_title" (jval (or_null (get b "job_title")))
                          ++ prop "company" (jval (or_null (get b "company"))))%list)] |},
     {| users := users w ++ [registered b w];
        auto_increment := auto_increment w + 1; txn := None; connection := true;
        log := log w ++ [GetConnection; BeginTransaction;
                         Run (SelectEmailWhereEmail (JS.VString e));
                         Run (InsertUser (get b "first_name") (get b "last_name")
                                         (JS.VString e)
                                         (bcrypt_hash (text (get b "password"))
                                                      saltRounds (salt w))
                                         (or_null (get b "job_title"))
                                         (or_null (get b "company")));
                         Run (UpdateLastLoginDate (auto_increment w));
                         Commit; Release];
        now := now w; salt := salt w |}).
Proof.
  intros Hv (Hf & Hl & Hp & Hj & Hc) Ht Hfresh He Hm.
  destruct (register_validates_inv b Hv) as [_ [_ [_ [s [Hs [Hre Hreq]]]]]].
  rewrite He in Hs. injection Hs as <-.
  apply is_string_text in Hf, Hl, Hp.
  unfold registerUser, checkEmailAvailability, validateEmailFormat,
    generateHashedPassword, insertNewUser, where_parameter.
  unfold_monad. rewrite Hreq, He. simpl. rewrite Hre. simpl.
  unfold view. simpl. unfold settled, view in Ht. rewrite ?Ht. simpl.
  unfold matching in Hm. rewrite Hm. simpl.
  rewrite Hp, Hf, Hl. simpl.
  unfold bind. rewrite !text_parameter_or_null by assumption.
  unfold violates_unique_email, inserted_row, updateUserLastLoginDate, sign,
    registered.
  unfold_monad. simpl. unfold view. simpl. rewrite ?Ht. simpl.
  rewrite (filter_nil_existsb _ _ Hm). simpl.
  rewrite map_app. simpl. rewrite Z.eqb_refl.
  rewrite (stamp_fresh_rows _ _ _ Hfresh).
  rewrite He. simpl.
  rewrite <- !app_assoc. reflexivity.
Qed.

Lemma text_eqb_refl (s : string) : text_eqb s s = true.
Proof.
  unfold text_eqb.
  destruct weights_compare_preorder as [A _ _].
  specialize (A (weight_string s) (weight_string s)).
  destruct (weights_compare (weight_string s) (weight_string s)); simpl in A;
    congruence.
Qed.

Lemma matching_after_registration (b : body) (w : world) (e : string) :
  get b "email" = JS.VString e ->
  matching e (users w ++ [registered b w]) <> [].
Proof.
  intros He. unfold matching. rewrite filter_app. simpl.
  rewrite He. simpl. rewrite text_eqb_refl.
  intros H. apply app_eq_nil in H. destruct H. discriminate.
Qed.

(** *** Running the bulk operations *)

Lemma bind_ret {A B : Type} (a : A) (k : A -> M B) : bind (ret a) k = k a.
Proof. reflexivity. Qed.

Lemma validUserIds_nonempty (ids : list JS.value) (valid : list JS.number) :
  validUserIds ids = Some valid -> valid <> [] -> ids <> [].
Proof. intros H Hv E. subst. injection H as <-. apply Hv. reflexivity. Qed.

Lemma affected_zero_keeps (p : User.t -> bool) (rows : list User.t) :
  affected p rows = 0 -> filter (fun u => negb (p u)) rows = rows.
Proof.
  unfold affected. induction rows as [|u rows IH]; simpl; auto.
  destruct (p u); simpl; intros H; [lia|]. f_equal. auto.
Qed.

Lemma affected_zero_maps (p : User.t -> bool) (f : User.t -> User.t)
    (rows : list User.t) :
  affected p rows = 0 -> map (fun u => if p u then f u else u) rows = rows.
Proof.
  unfold affected. induction rows as [|u rows IH]; simpl; auto.
  destruct (p u); simpl; intros H; [lia|]. f_equal. auto.
Qed.

Lemma deleteMultipleUsers_run (b : body) (w : world) (ids : list JS.value)
    (valid : list JS.number) :
  get b "userIds" = JS.VArray ids -> validUserIds ids = Some valid ->
  valid <> [] -> forallb writable valid = true -> settled w ->
  deleteMultipleUsers b w
  = if affected (id_in valid) (users w) =? 0 then
      (Ok (respond 404 "No users found matching the provided IDs for deletion, or no valid IDs were provided."),
       {| users := users w; auto_increment := auto_increment w;
          txn := Some (users w); connection := true;
          log := log w ++ [GetConnection; BeginTransaction;
                           Run (DeleteWhereIdIn valid); Release];
          now := now w; salt := salt w |})
    else
      (Ok (respond 200
             ("Successfully deleted "
              ++ JS.string_of_Z (affected (id_in valid) (users w))
              ++ " user(s).")),
       {| users := filter (fun u => negb (id_in valid u)) (users w);
          auto_increment := auto_increment w; txn := None; connection := true;
          log := log w ++ [GetConnection; BeginTransaction;
                           Run (DeleteWhereIdIn valid); Commit; Release];
          now := now w; salt := salt w |}).
Proof.
  intros Hb Hv Hne Hw Ht.
  pose proof (validUserIds_nonempty ids valid Hv Hne) as Hids.
  unfold deleteMultipleUsers, deleteMultipleUsersFromDB. rewrite Hb.
  destruct ids as [|i ids]; [congruence|]. rewrite Hv.
  cbn [or_TypeError]. rewrite bind_ret.
  destruct valid as [|n valid]; [congruence|].
  cbv beta iota. rewrite Hw. remember (n :: valid) as v eqn:Ev.
  unfold_monad. simpl.
  unfold view. simpl. unfold settled, view in Ht. rewrite ?Ht. simpl.
  destruct (affected (id_in v) (users w) =? 0) eqn:Ha; simpl.
  - apply Z.eqb_eq in Ha. rewrite (affected_zero_keeps _ _ Ha).
    rewrite <- !app_assoc. reflexivity.
  - rewrite <- !app_assoc. reflexivity.
Qed.

(** An id that is not a number of SQL makes the server refuse the
    statement: the handler rolls back and answers 500. *)
Lemma deleteMultipleUsers_refused (b : body) (w : world) (ids : list JS.value)
    (valid : list JS.number) :
  get b "userIds" = JS.VArray ids -> validUserIds ids = Some valid ->
  forallb writable valid = false -> settled w ->
  deleteMultipleUsers b w
  = (Ok (respond 500 "An error occurred while deleting users."),
     rolled_back [DeleteWhereIdIn valid] w).
Proof.
  intros Hb Hv Hw Ht.
  assert (Hne : valid <> []) by (intros E; subst; discriminate).
  pose proof (validUserIds_nonempty ids valid Hv Hne) as Hids.
  unfold deleteMultipleUsers, deleteMultipleUsersFromDB. rewrite Hb.
  destruct ids as [|i ids]; [congruence|]. rewrite Hv.
  cbn [or_TypeError]. rewrite bind_ret.
  destruct valid as [|n valid]; [congruence|].
  cbv beta iota. rewrite Hw. remember (n :: valid) as v eqn:Ev.
  unfold_monad. simpl.
  unfold view. simpl. unfold settled, view in Ht. rewrite ?Ht. simpl.
  unfold rolled_back. rewrite <- !app_assoc. reflexivity.
Qed.

Lemma status_accepted_truthy (s : string) :
  includes ["active"; "blocked"] (JS.toLowerCase s) = true ->
  JS.ToBoolean (JS.VString s) = true.
Proof. destruct s; simpl; auto. Qed.

Lemma updateMultipleUsersStatus_run (b : body) (w : world)
    (ids : list JS.value) (valid : list JS.number) (s : string) :
  get b "userIds" = JS.VArray ids -> get b "status" = JS.VString s ->
  includes ["active"; "blocked"] (JS.toLowerCase s) = true ->
  validUserIds ids = Some valid -> valid <> [] ->
  forallb writable valid = true -> settled w ->
  updateMultipleUsersStatus b w
  = (Ok (if affected (id_in valid) (users w) =? 0 then
           respond 404 "No users found matching the provided IDs for status update."
         else
           respond 200
             ("Successfully updated status to '" ++ JS.toLowerCase s ++ "' for "
              ++ JS.string_of_Z (affected (id_in valid) (users w))
              ++ " user(s).")),
     {| users := map (fun u => if id_in valid u
                               then User.set_status (JS.toLowerCase s) u else u)
                     (users w);
        auto_increment := auto_increment w; txn := None; connection := true;
        log := log w ++ [GetConnection; BeginTransaction;
                         Run (UpdateStatusWhereIdIn (JS.toLowerCase s) valid);
                         Commit; Release];
        now := now w; salt := salt w |}).
Proof.
  intros Hb Hs Hok Hv Hne Hw Ht.
  pose proof (validUserIds_nonempty ids valid Hv Hne) as Hids.
  unfold updateMultipleUsersStatus, updateStatusForMultipleUsersInDB. rewrite Hb, Hs.
  destruct ids as [|i ids]; [congruence|].
  rewrite (status_accepted_truthy s Hok). cbn [negb JS.call_toLowerCase or_TypeError].
  rewrite bind_ret, Hok. cbn [negb].
  rewrite Hv. cbn [or_TypeError]. rewrite bind_ret.
  destruct valid as [|n valid]; [congruence|].
  cbv beta iota. rewrite Hw.
  change (0 <? Z.of_nat (List.length (n :: valid))) with true.
  remember (n :: valid) as v eqn:Ev.
  unfold_monad. simpl.
  unfold view. simpl. unfold settled, view in Ht. rewrite ?Ht. simpl. rewrite andb_true_r.
  destruct (affected (id_in v) (users w) =? 0) eqn:Ha; simpl;
    rewrite <- !app_assoc; reflexivity.
Qed.

Lemma updateMultipleUsersStatus_refused (b : body) (w : world)
    (ids : list JS.value) (valid : list JS.number) (s : string) :
  get b "userIds" = JS.VArray ids -> get b "status" = JS.VString s ->
  includes ["active"; "blocked"] (JS.toLowerCase s) = true ->
  validUserIds ids = Some valid ->
  forallb writable valid = false -> settled w ->
  updateMultipleUsersStatus b w
  = (Ok (respond 500 "An error occurred while updating user statuses."),
     rolled_back [UpdateStatusWhereIdIn (JS.toLowerCase s) valid] w).
Proof.
  intros Hb Hs Hok Hv Hw Ht.
  assert (Hne : valid <> []) by (intros E; subst; discriminate).
  pose proof (validUserIds_nonempty ids valid Hv Hne) as Hids.
  unfold updateMultipleUsersStatus, updateStatusForMultipleUsersInDB. rewrite Hb, Hs.
  destruct ids as [|i ids]; [congruence|].
  rewrite (status_accepted_truthy s Hok). cbn [negb JS.call_toLowerCase or_TypeError].
  rewrite bind_ret, Hok. cbn [negb].
  rewrite Hv. cbn [or_TypeError]. rewrite bind_ret.
  destruct valid as [|n valid]; [congruence|].
  cbv beta iota. rewrite Hw.
  remember (n :: valid) as v eqn:Ev.
  unfold_monad. simpl.
  unfold view. simpl. unfold settled, view in Ht. rewrite ?Ht. simpl.
  unfold rolled_back. rewrite <- !app_assoc. reflexivity.
Qed.

(** *** Reading integers *)

Lemma digit_not_space (c : ascii) :
  JS.isDigit c = true -> JS.isWhiteSpace c = false.
Proof.
  destruct c as [[] [] [] [] [] [] [] []]; intros H;
    try reflexivity; vm_compute in H; discriminate.
Qed.

Lemma sign_dispatch (c : ascii) (r : string) :
  match String c r with
  | String "-" t => (-1, t)
  | String "+" t => (1, t)
  | _ => (1, String c r)
  end
  = if Ascii.eqb c "-" then (-1, r)
    else if Ascii.eqb c "+" then (1, r) else (1, String c r).
Proof. destruct c as [[] [] [] [] [] [] [] []]; reflexivity. Qed.

Lemma mathInt_trimmed (s : string) :
  JS.mathInt s
  = match JS.trimStart s with
    | EmptyString => None
    | String c r =>
        if Ascii.eqb c "-" then option_map (Z.mul (-1)) (JS.digits 0 false r)
        else if Ascii.eqb c "+" then option_map (Z.mul 1) (JS.digits 0 false r)
        else option_map (Z.mul 1) (JS.digits 0 false (String c r))
    end.
Proof.
  unfold JS.mathInt. destruct (JS.trimStart s) as [|c r]; [reflexivity|].
  rewrite sign_dispatch.
  destruct (Ascii.eqb c "-"); [reflexivity|].
  destruct (Ascii.eqb c "+"); reflexivity.
Qed.

Lemma trimStart_app (ws x : string) :
  all_chars JS.isWhiteSpace ws = true ->
  JS.trimStart (ws ++ x) = JS.trimStart x.
Proof.
  unfold all_chars. induction ws as [|c ws IH]; simpl; intros H; auto.
  apply andb_true_iff in H. destruct H as [Hc H]. rewrite Hc. auto.
Qed.

Lemma trimStart_split (s : string) :
  exists ws, s = ws ++ JS.trimStart s /\ all_chars JS.isWhiteSpace ws = true.
Proof.
  unfold all_chars. induction s as [|c s IH]; simpl.
  - exists "". auto.
  - destruct (JS.isWhiteSpace c) eqn:Hc.
    + destruct IH as [ws [E H]]. exists (String c ws). simpl.
      rewrite Hc, H. split; [now rewrite <- E | reflexivity].
    + exists "". auto.
Qed.

Lemma digits_app (ds rest : string) :
  all_chars JS.isDigit ds = true -> starts_with_digit rest = false ->
  forall acc seen,
    JS.digits acc seen (ds ++ rest)
    = match ds with
      | EmptyString => if seen then Some acc else None
      | _ => Some (decimal acc ds)
      end.
Proof.
  unfold all_chars. intros Hd Hr.
  induction ds as [|c ds IH]; intros acc seen.
  - simpl. destruct rest as [|x rest]; simpl in *; [reflexivity|].
    now rewrite Hr.
  - simpl in Hd. apply andb_true_iff in Hd. destruct Hd as [Hc Hd].
    simpl. rewrite Hc, (IH Hd). destruct ds; reflexivity.
Qed.

Lemma digits_split (t : string) :
  forall acc seen z,
    JS.digits acc seen t = Some z ->
    exists ds rest,
      t = ds ++ rest /\ all_chars JS.isDigit ds = true
      /\ starts_with_digit rest = false /\ z = decimal acc ds
      /\ (seen = false -> ds <> "").
Proof.
  unfold all_chars. induction t as [|c t IH]; intros acc seen z; simpl.
  - destruct seen; [|discriminate]. intros E. injection E as <-.
    exists "", "". repeat split; auto. discriminate.
  - destruct (JS.isDigit c) eqn:Hc.
    + intros H. destruct (IH _ _ _ H) as [ds [rest [E [Hd [Hr [Hz _]]]]]].
      exists (String c ds), rest. simpl. rewrite Hc, Hd, <- E.
      repeat split; auto. discriminate.
    + destruct seen; [|discriminate]. intros E. injection E as <-.
      exists "", (String c t). simpl. rewrite Hc.
      repeat split; auto. discriminate.
Qed.

Lemma leading_integer_mathInt (s : string) (z : Z) :
  leading_integer s z -> JS.mathInt s = Some z.
Proof.
  intros [ws sign ds rest Hws Hsign Hne Hds Hrest].
  rewrite mathInt_trimmed, (trimStart_app ws _ Hws).
  destruct ds as [|d ds]; [congruence|].
  assert (Hd : JS.isDigit d = true).
  { unfold all_chars in Hds. simpl in Hds. now apply andb_true_iff in Hds. }
  pose proof (digits_app (String d ds) rest Hds Hrest 0 false) as Hread.
  destruct Hsign as [E | [E | E]]; subst sign.
  - change ("" ++ String d ds ++ rest) with (String d (ds ++ rest)).
    cbn [JS.trimStart]. rewrite (digit_not_space d Hd).
    assert (E1 : Ascii.eqb d "-" = false)
      by (destruct d as [[] [] [] [] [] [] [] []]; try reflexivity;
          vm_compute in Hd; discriminate).
    assert (E2 : Ascii.eqb d "+" = false)
      by (destruct d as [[] [] [] [] [] [] [] []]; try reflexivity;
          vm_compute in Hd; discriminate).
    rewrite E1, E2.
    change (String d (ds ++ rest)) with (String d ds ++ rest).
    rewrite Hread. cbn [option_map String.eqb]. f_equal; lia.
  - change ("+" ++ String d ds ++ rest) with (String "+" (String d ds ++ rest)).
    cbn [JS.trimStart]. change (JS.isWhiteSpace "+") with false. cbv iota.
    change (Ascii.eqb "+" "-") with false. change (Ascii.eqb "+" "+") with true.
    cbv iota. rewrite Hread.
    change (String.eqb "+" "-") with false. cbn [option_map]. f_equal; lia.
  - change ("-" ++ String d ds ++ rest) with (String "-" (String d ds ++ rest)).
    cbn [JS.trimStart]. change (JS.isWhiteSpace "-") with false. cbv iota.
    change (Ascii.eqb "-" "-") with true. cbv iota. rewrite Hread.
    change (String.eqb "-" "-") with true. cbn [option_map]. f_equal; lia.
Qed.

Lemma mathInt_leading_integer (s : string) (z : Z) :
  JS.mathInt s = Some z -> leading_integer s z.
Proof.
  rewrite mathInt_trimmed.
  destruct (trimStart_split s) as [ws [Es Hws]].
  destruct (JS.trimStart s) as [|c r] eqn:Et; [discriminate|].
  destruct (Ascii.eqb c "-") eqn:E1; [|destruct (Ascii.eqb c "+") eqn:E2].
  - apply Ascii.eqb_eq in E1. subst c.
    destruct (JS.digits 0 false r) as [n|] eqn:Hd; [|discriminate].
    cbn [option_map]. intros E.
    assert (Hz : z = - n) by (assert (z = -1 * n) by congruence; lia).
    destruct (digits_split r 0 false n Hd) as [ds [rest [Er [Hds [Hrest [Hn Hne]]]]]].
    rewrite Es, Er, Hz, Hn.
    exact (leading_integer_intro ws "-" ds rest Hws
             (or_intror (or_intror eq_refl)) (Hne eq_refl) Hds Hrest).
  - apply Ascii.eqb_eq in E2. subst c.
    destruct (JS.digits 0 false r) as [n|] eqn:Hd; [|discriminate].
    cbn [option_map]. intros E.
    assert (Hz : z = n) by (assert (z = 1 * n) by congruence; lia).
    destruct (digits_split r 0 false n Hd) as [ds [rest [Er [Hds [Hrest [Hn Hne]]]]]].
    rewrite Es, Er, Hz, Hn.
    exact (leading_integer_intro ws "+" ds rest Hws
             (or_intror (or_introl eq_refl)) (Hne eq_refl) Hds Hrest).
  - destruct (JS.digits 0 false (String c r)) as [n|] eqn:Hd; [|discriminate].
    cbn [option_map]. intros E.
    assert (Hz : z = n) by (assert (z = 1 * n) by congruence; lia).
    destruct (digits_split _ 0 false n Hd) as [ds [rest [Er [Hds [Hrest [Hn Hne]]]]]].
    rewrite Es, Er, Hz, Hn.
    exact (leading_integer_intro ws "" ds rest Hws
             (or_introl eq_refl) (Hne eq_refl) Hds Hrest).
Qed.

(** The leading integer of a string is what [parseInt] reads in it. *)
Lemma leading_integer_iff (s : string) (z : Z) :
  leading_integer s z <-> JS.mathInt s = Some z.
Proof.
  split; [apply leading_integer_mathInt | apply mathInt_leading_integer].
Qed.

Lemma parseInt10_leading_integer (s : string) (z : Z) :
  leading_integer s z -> JS.parseInt10 s = JS.to_double z.
Proof.
  intros H. unfold JS.parseInt10. now rewrite (leading_integer_mathInt s z H).
Qed.

Lemma parseInt10_NaN (s : string) :
  (forall z, ~ leading_integer s z) -> JS.parseInt10 s = JS.NaN.
Proof.
  intros H. unfold JS.parseInt10.
  destruct (JS.mathInt s) as [z|] eqn:E; [|reflexivity].
  exfalso. exact (H z (mathInt_leading_integer s z E)).
Qed.

(** *** Rounding to a double *)

Lemma to_double_exact (z : Z) :
  Z.abs z <= 2 ^ 53 -> JS.to_double z = JS.Num z.
Proof.
  intros H. unfold JS.to_double.
  destruct (Z.ltb_spec (Z.abs z) (2 ^ 53)) as [_|Hge]; [reflexivity|].
  assert (E : Z.abs z = 2 ^ 53) by lia.
  destruct (Z.abs_eq_or_opp z) as [Ez|Ez]; rewrite Ez in E.
  - subst z. reflexivity.
  - assert (Ez' : z = - 2 ^ 53) by lia. subst z. reflexivity.
Qed.

Lemma to_double_sign (z : Z) :
  (0 < z -> JS.isNaN (JS.to_double z) = false /\ JS.gt0 (JS.to_double z) = true)
  /\ (z <= 0 -> JS.gt0 (JS.to_double z) = false).
Proof.
  unfold JS.to_double.
  destruct (Z.ltb_spec (Z.abs z) (2 ^ 53)) as [Hlt|Hge].
  - simpl. split; intros H.
    + split; [reflexivity | now apply Z.ltb_lt].
    + apply Z.ltb_ge. exact H.
  - set (n := Z.abs z) in *.
    set (e := Z.log2 n - 52).
    set (q := n / 2 ^ e).
    set (r := n mod 2 ^ e).
    set (q' := if (2 ^ (e - 1) <? r) || ((r =? 2 ^ (e - 1)) && Z.odd q)
               then q + 1 else q).
    assert (Hn : 0 < n) by (assert (0 < 2 ^ 53) by (apply Z.pow_pos_nonneg; lia); lia).
    assert (He : 0 <= e).
    { subst e. assert (53 <= Z.log2 n); [|lia].
      apply Z.log2_le_pow2; [lia | exact Hge]. }
    assert (Hp : 0 < 2 ^ e) by (apply Z.pow_pos_nonneg; lia).
    assert (Hq : 0 < q).
    { subst q. apply Z.div_str_pos. split; [exact Hp|].
      apply Z.le_trans with (2 ^ Z.log2 n).
      - apply Z.pow_le_mono_r; [lia | subst e; lia].
      - apply Z.log2_spec. exact Hn. }
    assert (Hq' : 0 < q') by (subst q'; destruct (_ || _); lia).
    assert (Hm : 0 < q' * 2 ^ e) by (apply Z.mul_pos_pos; assumption).
    split; intros H.
    + destruct (2 ^ 1024 <=? q' * 2 ^ e).
      * destruct (Z.ltb_spec z 0); [lia|]. split; reflexivity.
      * simpl. split; [reflexivity|]. apply Z.ltb_lt.
        rewrite (Z.sgn_pos z H). lia.
    + assert (Hz : z < 0) by (subst n; lia).
      destruct (2 ^ 1024 <=? q' * 2 ^ e).
      * destruct (Z.ltb_spec z 0); [reflexivity | lia].
      * simpl. apply Z.ltb_ge. rewrite (Z.sgn_neg z Hz). lia.
Qed.

(** *** The ids kept *)

Lemma parsedUserIds_app (l1 l2 : list JS.value) :
  parsedUserIds (l1 ++ l2)
  = match parsedUserIds l1, parsedUserIds l2 with
    | Some a, Some b => Some (a ++ b)%list
    | _, _ => None
    end.
Proof.
  induction l1 as [|v l1 IH]; simpl.
  - destruct (parsedUserIds l2); reflexivity.
  - rewrite IH. destruct (JS.parseInt v); [|reflexivity].
    destruct (parsedUserIds l1); [|reflexivity].
    destruct (parsedUserIds l2); reflexivity.
Qed.

Lemma validUserIds_app (l1 l2 : list JS.value) :
  validUserIds (l1 ++ l2)
  = match validUserIds l1, validUserIds l2 with
    | Some a, Some b => Some (a ++ b)%list
    | _, _ => None
    end.
Proof.
  unfold validUserIds. rewrite parsedUserIds_app.
  destruct (parsedUserIds l1); [|reflexivity].
  destruct (parsedUserIds l2); [|reflexivity].
  simpl. now rewrite filter_app.
Qed.

Lemma validUserIds_one (v : JS.value) :
  validUserIds [v]
  = match JS.parseInt v with
    | Some n => Some (if negb (JS.isNaN n) && JS.gt0 n then [n] else [])
    | None => None
    end.
Proof.
  unfold validUserIds. simpl.
  destruct (JS.parseInt v) as [n|]; [|reflexivity]. simpl.
  destruct (negb (JS.isNaN n) && JS.gt0 n); reflexivity.
Qed.

(** *** Decimal numerals *)

Lemma uint_value_pos (d : Decimal.uint) (a : positive) :
  uint_value (Zpos a) d = Zpos (Pos.of_uint_acc d a).
Proof.
  revert a.
  induction d as [|d IH|d IH|d IH|d IH|d IH|d IH|d IH|d IH|d IH|d IH];
    intros a; cbn [uint_value Pos.of_uint_acc]; auto;
    match goal with
    | |- uint_value ?x d = Zpos (Pos.of_uint_acc d ?y) =>
        replace x with (Zpos y) by lia
    end; apply IH.
Qed.

Lemma uint_value_0 (d : Decimal.uint) :
  uint_value 0 d = Z.of_N (Pos.of_uint d).
Proof.
  induction d as [|d IH|d IH|d IH|d IH|d IH|d IH|d IH|d IH|d IH|d IH];
    simpl; auto; apply uint_value_pos.
Qed.

Lemma to_uint_value (p : positive) :
  Pos.to_uint p <> Decimal.Nil /\ uint_value 0 (Pos.to_uint p) = Zpos p.
Proof.
  pose proof (DecimalPos.Unsigned.of_to p) as H. split.
  - intros E. rewrite E in H. discriminate.
  - rewrite uint_value_0, H. reflexivity.
Qed.

Lemma string_of_uint_decimal (d : Decimal.uint) :
  all_chars JS.isDigit (NilEmpty.string_of_uint d) = true
  /\ forall acc, decimal acc (NilEmpty.string_of_uint d) = uint_value acc d.
Proof.
  unfold all_chars.
  induction d as [|d [IH1 IH2]|d [IH1 IH2]|d [IH1 IH2]|d [IH1 IH2]|d [IH1 IH2]
                  |d [IH1 IH2]|d [IH1 IH2]|d [IH1 IH2]|d [IH1 IH2]|d [IH1 IH2]];
    simpl; (split; [auto | intros acc; auto]).
Qed.

(** The digits that print a positive integer, followed by anything that
    does not go on with a digit, have that integer as leading integer. *)
Lemma string_of_Z_leading_integer (n : Z) (rest : string) :
  0 < n -> starts_with_digit rest = false ->
  leading_integer (JS.string_of_Z n ++ rest) n.
Proof.
  intros Hn Hrest. destruct n as [|p|p]; try lia.
  destruct (to_uint_value p) as [Hnil Hval].
  destruct (string_of_uint_decimal (Pos.to_uint p)) as [Hd Hv].
  assert (E : JS.string_of_Z (Zpos p) = NilEmpty.string_of_uint (Pos.to_uint p)).
  { unfold JS.string_of_Z. simpl.
    revert Hnil; destruct (Pos.to_uint p); intros Hnil;
      [congruence | reflexivity ..]. }
  assert (Hne : NilEmpty.string_of_uint (Pos.to_uint p) <> "").
  { revert Hnil. destruct (Pos.to_uint p); intros Hnil; [congruence | discriminate ..]. }
  rewrite E. rewrite <- Hval, <- (Hv 0).
  exact (leading_integer_intro "" "" _ rest eq_refl (or_introl eq_refl) Hne Hd Hrest).
Qed.

Lemma deleteMultipleUsers_statement (b : body) (w : world) (ids : list JS.value)
    (valid : list JS.number) :
  get b "userIds" = JS.VArray ids -> validUserIds ids = Some valid -> valid <> [] ->
  In (Run (DeleteWhereIdIn valid)) (log (snd (deleteMultipleUsers b w))).
Proof.
  intros Hb Hv Hne.
  pose proof (validUserIds_nonempty ids valid Hv Hne) as Hids.
  unfold deleteMultipleUsers, deleteMultipleUsersFromDB. rewrite Hb.
  destruct ids as [|i ids]; [congruence|]. rewrite Hv.
  cbn [or_TypeError]. rewrite bind_ret.
  destruct valid as [|n valid]; [congruence|].
  cbv beta iota. remember (n :: valid) as v eqn:Ev.
  destruct (forallb writable v); unfold_monad; simpl.
  - match goal with
    | |- context [if ?c then _ else _] => destruct c
    end; simpl; rewrite !in_app_iff; simpl; pick.
  - rewrite !in_app_iff; simpl; pick.
Qed.

Lemma updateMultipleUsersStatus_statement (b : body) (w : world)
    (ids : list JS.value) (valid : list JS.number) (s : string) :
  get b "userIds" = JS.VArray ids -> get b "status" = JS.VString s ->
  includes ["active"; "blocked"] (JS.toLowerCase s) = true ->
  validUserIds ids = Some valid -> valid <> [] ->
  In (Run (UpdateStatusWhereIdIn (JS.toLowerCase s) valid))
     (log (snd (updateMultipleUsersStatus b w))).
Proof.
  intros Hb Hs Hok Hv Hne.
  pose proof (validUserIds_nonempty ids valid Hv Hne) as Hids.
  unfold updateMultipleUsersStatus, updateStatusForMultipleUsersInDB. rewrite Hb, Hs.
  destruct ids as [|i ids]; [congruence|].
  rewrite (status_accepted_truthy s Hok). cbn [negb JS.call_toLowerCase or_TypeError].
  rewrite bind_ret, Hok. cbn [negb].
  rewrite Hv. cbn [or_TypeError]. rewrite bind_ret.
  destruct valid as [|n valid]; [congruence|].
  cbv beta iota. change (0 <? Z.of_nat (List.length (n :: valid))) with true.
  remember (n :: valid) as v eqn:Ev.
  destruct (forallb writable v); unfold_monad; simpl.
  - match goal with
    | |- context [if ?c then _ else _] => destruct c
    end; simpl; rewrite !in_app_iff; simpl; pick.
  - rewrite !in_app_iff; simpl; pick.
Qed.

(** *** Splitting the header *)

Lemma append_step (cur : string) (c : ascii) (a : string) :
  (cur ++ String c EmptyString) ++ a = cur ++ String c a.
Proof. induction cur as [|x cur IH]; simpl; [reflexivity | now rewrite IH]. Qed.

Lemma append_empty (s : string) : s ++ "" = s.
Proof. induction s as [|x s IH]; simpl; [reflexivity | now rewrite IH]. Qed.

Lemma split_aux_no_space (a cur : string) :
  no_space a = true -> JS.split_aux " " cur a = [cur ++ a].
Proof.
  revert cur. induction a as [|c a IH]; intros cur H.
  - simpl. now rewrite append_empty.
  - unfold no_space in H. simpl in H. apply andb_true_iff in H.
    destruct H as [Hc Ha]. simpl.
    destruct (Ascii.eqb c " "); [discriminate|].
    rewrite (IH _ Ha). now rewrite append_step.
Qed.

Lemma split_aux_first (a cur t : string) :
  no_space a = true ->
  JS.split_aux " " cur (a ++ String " " t)
  = (cur ++ a) :: JS.split_aux " " EmptyString t.
Proof.
  revert cur. induction a as [|c a IH]; intros cur H.
  - simpl. now rewrite append_empty.
  - unfold no_space in H. simpl in H. apply andb_true_iff in H.
    destruct H as [Hc Ha]. simpl.
    destruct (Ascii.eqb c " "); [discriminate|].
    rewrite (IH _ Ha). now rewrite append_step.
Qed.

Lemma bearer_token_no_space (h : string) :
  no_space h = true -> bearer_token h = None.
Proof.
  intros H. unfold bearer_token, JS.split.
  now rewrite (split_aux_no_space h "" H).
Qed.

Lemma bearer_token_second (a t : string) :
  no_space a = true ->
  bearer_token (a ++ String " " t) = hd_error (JS.split t " ").
Proof.
  intros H. unfold bearer_token, JS.split.
  rewrite (split_aux_first a "" t H). simpl.
  destruct (JS.split_aux " " "" t); reflexivity.
Qed.

Lemma protect_reads_header (h1 h2 : string) (w : world) :
  JS.startsWith h1 "Bearer" = true -> JS.startsWith h2 "Bearer" = true ->
  bearer_token h1 = bearer_token h2 ->
  protect (Some h1) w = protect (Some h2) w.
Proof.
  intros H1 H2 Ht. unfold protect.
  rewrite (startsWith_Bearer_truthy h1 H1), (startsWith_Bearer_truthy h2 H2).
  simpl JS.str. rewrite H1, H2. simpl andb.
  unfold bearer_token in Ht. rewrite Ht. reflexivity.
Qed.

Lemma admit_user_not_no_bearer (id : Z) (rows : list User.t) :
  admit_user id rows <> Answered no_bearer_token.
Proof.
  unfold admit_user.
  destruct (hd_error _) as [u|]; [|discriminate].
  destruct (String.eqb _ _); discriminate.
Qed.

Lemma protect_passes_scheme_check (h : string) (w : world) :
  JS.startsWith h "Bearer" = true ->
  fst (protect (Some h) w) <> Ok (Answered no_bearer_token).
Proof.
  intros Hs.
  destruct (bearer_token h) as [t|] eqn:Ht.
  - destruct (String.eqb_spec t "") as [->|Hne].
    + rewrite (protect_missing_token h w Hs) by auto. discriminate.
    + destruct (jwt_decode t) as [c|] eqn:Hd.
      * destruct (Z_le_gt_dec (exp c) (now w)) as [He|He].
        -- rewrite (protect_expired h t c w Hs Ht Hne Hd He). discriminate.
        -- rewrite (protect_verified h t c w Hs Ht Hne Hd) by lia. simpl.
           intros E. injection E as E. exact (admit_user_not_no_bearer _ _ E).
      * rewrite (protect_undecodable h t w Hs Ht Hd). discriminate.
  - rewrite (protect_missing_token h w Hs) by auto. discriminate.
Qed.

(** C9. The scheme check of the guard looks at the first six characters
    only: a header that starts with [Bearer] is never answered with the
    no-bearer-token message, and one whose first word merely starts
    with [Bearer], such as [BearerX <token>], is treated as
    [Bearer <token>] is.  A header that starts with [Bearer] and has no
    second word, such as [Bearer] itself, leaves the token undefined and
    is answered 401 through the invalid-token path, whose message is not
    the no-bearer-token one; no connection is taken. *)
Theorem bearer_scheme_edge_cases :
  (forall (h : string) (w : world),
      JS.startsWith h "Bearer" = true ->
      fst (protect (Some h) w) <> Ok (Answered no_bearer_token))
  /\ (forall (x t : string) (w : world),
         no_space x = true ->
         protect (Some ("Bearer" ++ x ++ String " " t)) w
         = protect (Some ("Bearer " ++ t)) w)
  /\ (forall (h : string) (w : world),
         JS.startsWith h "Bearer" = true -> no_space h = true ->
         bearer_token h = None
         /\ protect (Some h) w = (Ok (Answered invalid_token), set_connection false w)
         /\ res_status invalid_token = 401
         /\ message_of invalid_token <> message_of no_bearer_token)
  /\ protect (Some "Bearer") Fixture.w0
     = (Ok (Answered invalid_token), Fixture.w0).
Proof.
  split; [exact protect_passes_scheme_check|].
  split.
  - intros x t w Hx. apply protect_reads_header; try reflexivity.
    assert (E1 : bearer_token (("Bearer" ++ x) ++ String " " t)
                 = hd_error (JS.split t " "))
      by (apply bearer_token_second; exact Hx).
    assert (E2 : bearer_token ("Bearer" ++ String " " t)
                 = hd_error (JS.split t " "))
      by (apply bearer_token_second; reflexivity).
    exact (eq_trans E1 (eq_sym E2)).
  - split.
    + intros h w Hs Hn. split; [now apply bearer_token_no_space|].
      split; [|split; [reflexivity | discriminate]].
      apply protect_missing_token; auto.
      left. now apply bearer_token_no_space.
    + reflexivity.
Qed.

(** *** What the handlers do *)

(** C10, as amended.  Both bulk handlers coerce each entry of [userIds]
    with [parseInt(id, 10)], which reads the print of the entry: blanks,
    an optional sign and the longest run of decimal digits, whatever
    follows.  An entry whose print has the leading integer [z] is kept
    when [z] is positive, as the double nearest to [z], and dropped
    otherwise; an entry whose print has no leading integer is dropped; an
    entry that has no print makes the coercion throw.  The double is [z]
    itself up to [2^53], so the digits of such a positive integer
    followed by anything that does not go on with a digit, as in
    ['12abc'], are kept as that integer.  The ids kept come in the order
    of the entries, an entry given twice is kept twice, and the statement
    either handler runs carries exactly the ids kept. *)
Theorem bulk_ids_coercion :
  (forall (v : JS.value) (s : string) (z : Z),
      JS.ToString v = Some s -> leading_integer s z ->
      validUserIds [v] = Some (if 0 <? z then [JS.to_double z] else []))
  /\ (forall (v : JS.value) (s : string),
         JS.ToString v = Some s -> (forall z, ~ leading_integer s z) ->
         validUserIds [v] = Some [])
  /\ (forall (v : JS.value) (l1 l2 : list JS.value),
         JS.ToString v = None -> validUserIds (l1 ++ v :: l2) = None)
  /\ (forall z : Z, Z.abs z <= 2 ^ 53 -> JS.to_double z = JS.Num z)
  /\ (forall (n : Z) (rest : string) (l1 l2 : list JS.value)
             (k1 k2 : list JS.number),
         0 < n <= 2 ^ 53 -> starts_with_digit rest = false ->
         validUserIds l1 = Some k1 -> validUserIds l2 = Some k2 ->
         validUserIds (l1 ++ JS.VString (JS.string_of_Z n ++ rest) :: l2)
         = Some (k1 ++ JS.Num n :: k2)%list)
  /\ (forall (l1 l2 : list JS.value) (k1 k2 : list JS.number),
         validUserIds l1 = Some k1 -> validUserIds l2 = Some k2 ->
         validUserIds (l1 ++ l2) = Some (k1 ++ k2)%list)
  /\ (forall (v : JS.value) (n : JS.number),
         validUserIds [v] = Some [n] -> validUserIds [v; v] = Some [n; n])
  /\ (forall (b : body) (w : world) (ids : list JS.value) (valid : list JS.number),
         get b "userIds" = JS.VArray ids -> validUserIds ids = Some valid ->
         valid <> [] ->
         In (Run (DeleteWhereIdIn valid)) (log (snd (deleteMultipleUsers b w))))
  /\ (forall (b : body) (w : world) (ids : list JS.value) (valid : list JS.number)
             (s : string),
         get b "userIds" = JS.VArray ids -> get b "status" = JS.VString s ->
         includes ["active"; "blocked"] (JS.toLowerCase s) = true ->
         validUserIds ids = Some valid -> valid <> [] ->
         In (Run (UpdateStatusWhereIdIn (JS.toLowerCase s) valid))
            (log (snd (updateMultipleUsersStatus b w)))).
Proof.
  assert (Hone : forall (v : JS.value) (s : string) (z : Z),
             JS.ToString v = Some s -> leading_integer s z ->
             validUserIds [v] = Some (if 0 <? z then [JS.to_double z] else [])).
  { intros v s z Hs Hz. rewrite validUserIds_one. unfold JS.parseInt.
    rewrite Hs. cbn [option_map].
    rewrite (parseInt10_leading_integer s z Hz).
    destruct (to_double_sign z) as [Hpos Hneg].
    destruct (Z.ltb_spec 0 z) as [H|H].
    - destruct (Hpos H) as [-> ->]. reflexivity.
    - rewrite (Hneg H), andb_false_r. reflexivity. }
  split; [exact Hone|].
  split; [|split; [|split; [|split; [|split; [|split; [|split]]]]]].
  - intros v s Hs Hno. rewrite validUserIds_one. unfold JS.parseInt.
    rewrite Hs. cbn [option_map].
    assert (E : JS.parseInt10 s = JS.NaN).
    { apply parseInt10_NaN. intros z Hz. exact (Hno z Hz). }
    rewrite E. reflexivity.
  - intros v l1 l2 Hs.
    change (v :: l2) with ([v] ++ l2)%list.
    rewrite !validUserIds_app, validUserIds_one. unfold JS.parseInt.
    rewrite Hs. cbn [option_map].
    destruct (validUserIds l1); reflexivity.
  - exact to_double_exact.
  - intros n rest l1 l2 k1 k2 [Hn Hle] Hrest H1 H2.
    change (JS.VString (JS.string_of_Z n ++ rest) :: l2)
      with ([JS.VString (JS.string_of_Z n ++ rest)] ++ l2)%list.
    rewrite !validUserIds_app, H1, H2.
    rewrite (Hone (JS.VString (JS.string_of_Z n ++ rest)) (JS.string_of_Z n ++ rest) n
               eq_refl (string_of_Z_leading_integer n rest Hn Hrest)).
    rewrite (to_double_exact n) by (rewrite Z.abs_eq; lia).
    apply Z.ltb_lt in Hn. rewrite Hn. reflexivity.
  - intros l1 l2 k1 k2 H1 H2. now rewrite validUserIds_app, H1, H2.
  - intros v n H.
    change [v; v] with ([v] ++ [v])%list.
    now rewrite validUserIds_app, H.
  - exact deleteMultipleUsers_statement.
  - exact updateMultipleUsersStatus_statement.
Qed.

(** C5. What the code does with a login request that lacks the email or
    the password, or whose email has not the shape local@domain.tld: it
    answers 500 with the generic message, not 400, although the error
    thrown carries the status code 400; no connection is taken and the
    state is as before. *)
Theorem login_validation_error_answers_500 (b : body) (w : world) :
  login_validates b = false ->
  loginUser b w
  = (Ok (respond 500 "An error occurred during login."), set_connection false w)
  /\ log (snd (loginUser b w)) = log w
  /\ users (snd (loginUser b w)) = users w.
Proof.
  intros H. rewrite (login_validation_fails b w H). auto.
Qed.

(** C6. What the code does with a token whose expiry is not after the
    clock, as is a token issued with a lifetime of zero: the guard
    answers 401 with the expired-token message, which is not the
    invalid-token one, but the date in the message is that of the
    instant [exp * 1000 * 1000]: [expiredAt] is already a date in
    milliseconds and is multiplied by 1000 once more.  It is the date of
    the expiry for no token but one that expires at the epoch, and from
    the year 2243 on it prints as [Invalid Date]. *)
Theorem guard_expired_token_message (h t : string) (c : claims) (w : world) :
  JS.startsWith h "Bearer" = true ->
  bearer_token h = Some t -> t <> "" -> jwt_decode t = Some c ->
  exp c <= now w ->
  protect (Some h) w
  = (Ok (Answered (respond 401 ("Not authorized, token expired at "
                                ++ new_Date_toString (exp c * 1000 * 1000)))),
     set_connection false w)
  /\ respond 401 ("Not authorized, token expired at "
                  ++ new_Date_toString (exp c * 1000 * 1000)) <> invalid_token
  /\ (exp c <> 0 -> exp c * 1000 * 1000 <> exp c * 1000)
  /\ (8640000000 < exp c ->
      new_Date_toString (exp c * 1000 * 1000) = "Invalid Date").
Proof.
  intros Hs Ht Hne Hd He.
  split; [now apply (protect_expired h t c w)|].
  split; [discriminate|].
  split; [lia|].
  intros Hbig. unfold new_Date_toString.
  destruct (Z.leb_spec (Z.abs (exp c * 1000 * 1000)) 8640000000000000);
    [lia | reflexivity].
Qed.

(** C1. What the code does in the bulk operations, for a request whose
    entries leave some id.  When the ids kept are numbers that the
    statement can carry and no stored user has one of them, bulk-delete
    answers 404 and the table is as before, but the transaction is
    neither rolled back nor committed: the connection goes back to the
    pool with the transaction open.  Bulk-status-update commits and then
    answers 404.  When a row matches, both commit and answer 200 with the
    number of rows.  When an id kept is [Infinity], which the server
    refuses in the statement, both roll back and answer 500. *)
Theorem bulk_zero_match (b : body) (w : world) (ids : list JS.value)
    (valid : list JS.number) (s : string) :
  get b "userIds" = JS.VArray ids -> validUserIds ids = Some valid ->
  valid <> [] -> settled w ->
  get b "status" = JS.VString s ->
  includes ["active"; "blocked"] (JS.toLowerCase s) = true ->
  let matched := affected (id_in valid) (users w) in
  let deleted := deleteMultipleUsers b w in
  let updated := updateMultipleUsersStatus b w in
  (forallb writable valid = true -> matched = 0 ->
   fst deleted = Ok (respond 404 "No users found matching the provided IDs for deletion, or no valid IDs were provided.")
   /\ users (snd deleted) = users w
   /\ txn (snd deleted) = Some (users w)
   /\ log (snd deleted)
      = (log w ++ [GetConnection; BeginTransaction; Run (DeleteWhereIdIn valid); Release])%list
   /\ fst updated = Ok (respond 404 "No users found matching the provided IDs for status update.")
   /\ users (snd updated) = users w
   /\ txn (snd updated) = None
   /\ log (snd updated)
      = (log w ++ [GetConnection; BeginTransaction;
                  Run (UpdateStatusWhereIdIn (JS.toLowerCase s) valid);
                  Commit; Release])%list)
  /\ (forallb writable valid = true -> matched <> 0 ->
      fst deleted = Ok (respond 200 ("Successfully deleted "
                                     ++ JS.string_of_Z matched ++ " user(s)."))
      /\ users (snd deleted) = filter (fun u => negb (id_in valid u)) (users w)
      /\ txn (snd deleted) = None
      /\ log (snd deleted)
         = (log w ++ [GetConnection; BeginTransaction; Run (DeleteWhereIdIn valid);
                     Commit; Release])%list
      /\ fst updated = Ok (respond 200 ("Successfully updated status to '"
                                        ++ JS.toLowerCase s ++ "' for "
                                        ++ JS.string_of_Z matched ++ " user(s)."))
      /\ users (snd updated)
         = map (fun u => if id_in valid u
                         then User.set_status (JS.toLowerCase s) u else u) (users w)
      /\ txn (snd updated) = None
      /\ log (snd updated)
         = (log w ++ [GetConnection; BeginTransaction;
                     Run (UpdateStatusWhereIdIn (JS.toLowerCase s) valid);
                     Commit; Release])%list)
  /\ (forallb writable valid = false ->
      deleted = (Ok (respond 500 "An error occurred while deleting users."),
                 rolled_back [DeleteWhereIdIn valid] w)
      /\ updated = (Ok (respond 500 "An error occurred while updating user statuses."),
                    rolled_back [UpdateStatusWhereIdIn (JS.toLowerCase s) valid] w)
      /\ users (snd deleted) = users w /\ users (snd updated) = users w).
Proof.
  intros Hb Hv Hne Ht Hs Hok matched deleted updated.
  subst deleted updated.
  split; [|split].
  - intros Hw Hm.
    rewrite (deleteMultipleUsers_run b w ids valid Hb Hv Hne Hw Ht).
    rewrite (updateMultipleUsersStatus_run b w ids valid s Hb Hs Hok Hv Hne Hw Ht).
    fold matched. rewrite Hm. simpl. repeat split; auto.
    apply affected_zero_maps. exact Hm.
  - intros Hw Hm.
    rewrite (deleteMultipleUsers_run b w ids valid Hb Hv Hne Hw Ht).
    rewrite (updateMultipleUsersStatus_run b w ids valid s Hb Hs Hok Hv Hne Hw Ht).
    fold matched. apply Z.eqb_neq in Hm. rewrite Hm. simpl. repeat split; auto.
  - intros Hw.
    rewrite (deleteMultipleUsers_refused b w ids valid Hb Hv Hw Ht).
    rewrite (updateMultipleUsersStatus_refused b w ids valid s Hb Hs Hok Hv Hw Ht).
    repeat split; auto.
Qed.


(** C4, as amended.  A registration that passes the checks on its fields,
    whose email is a string and is already stored, is answered 409 with
    the message that the email is already registered, after a rollback:
    the table is as before, nothing was inserted and no login time
    stamped.  When the fields are strings and the email is not stored,
    the registration is answered 201, the user is added with the login
    time stamped, and the same registration made again is answered 409
    and leaves the table as the first one left it. *)
Theorem register_uniqueness_atomicity (b : body) (w : world) (e : string) :
  register_validates b = true -> settled w -> fresh_ids w ->
  get b "email" = JS.VString e ->
  (matching e (users w) <> [] ->
   fst (registerUser b w) = Ok (respond 409 "Email already registered.")
   /\ users (snd (registerUser b w)) = users w
   /\ txn (snd (registerUser b w)) = None
   /\ log (snd (registerUser b w))
      = (log w ++ [GetConnection; BeginTransaction;
                   Run (SelectEmailWhereEmail (JS.VString e)); Rollback; Release])%list)
  /\ (text_fields b -> matching e (users w) = [] ->
      exists r w1,
        registerUser b w = (Ok r, w1)
        /\ res_status r = 201
        /\ users w1 = (users w ++ [registered b w])%list
        /\ User.last_login_date (registered b w) = Some (now w)
        /\ txn w1 = None
        /\ fst (registerUser b w1) = Ok (respond 409 "Email already registered.")
        /\ users (snd (registerUser b w1)) = users w1).
Proof.
  intros Hv Ht Hfresh He. split.
  - intros Hm. rewrite (registerUser_taken b w e Hv Ht He Hm). auto.
  - intros Htext Hm. rewrite (registerUser_fresh b w e Hv Htext Ht Hfresh He Hm).
    eexists. eexists. split; [reflexivity|].
    split; [reflexivity|]. split; [reflexivity|]. split; [reflexivity|].
    split; [reflexivity|].
    rewrite (registerUser_taken b _ e Hv);
      [auto | reflexivity | exact He
      | exact (matching_after_registration b w e He)].
Qed.

(** C7. A user whose status is [blocked] and who logs in with the
    password that verifies is answered 403, after a rollback: no login
    time is stamped and no token issued.  The guard reads the user of a
    verified token from the table on each request, and answers 403 when
    the status it finds is [blocked]; with another status it lets the
    request through. *)
Theorem blocked_account_gating :
  (forall (b : body) (w : world) (e p : string) (u : User.t) (rest : list User.t),
      login_validates b = true -> settled w ->
      get b "email" = JS.VString e -> get b "password" = JS.VString p ->
      matching e (users w) = u :: rest ->
      bcrypt_compare p (User.password_hash u) = true ->
      User.status u = "blocked" ->
      loginUser b w
      = (Ok (respond 403 "Account is blocked. Please contact support."),
         rolled_back [SelectLoginWhereEmail (JS.VString e)] w)
      /\ users (snd (loginUser b w)) = users w)
  /\ (forall (h t : string) (c : claims) (w : world) (u : User.t) (rest : list User.t),
         JS.startsWith h "Bearer" = true ->
         bearer_token h = Some t -> t <> "" -> jwt_decode t = Some c ->
         now w < exp c ->
         filter (fun x => User.id x =? userId c) (view w) = u :: rest ->
         In (Run (SelectAuthWhereId (userId c))) (log (snd (protect (Some h) w)))
         /\ (User.status u = "blocked" ->
             fst (protect (Some h) w)
             = Ok (Answered (respond 403 "Forbidden: Your account is blocked.")))
         /\ (User.status u <> "blocked" ->
             fst (protect (Some h) w) = Ok (Next (AuthRow.of_user u)))).
Proof.
  split.
  - intros b w e p u rest Hv Ht He Hp Hm Hc Hb.
    rewrite (loginUser_known_email b w e u rest Hv Ht He Hm), Hp, Hc, Hb.
    simpl. auto.
  - intros h t c w u rest Hs Ht Hne Hd He Hf.
    rewrite (protect_verified h t c w Hs Ht Hne Hd He).
    unfold admit_user. rewrite Hf. simpl. split.
    + rewrite in_app_iff. simpl. pick.
    + split; intros Hb.
      * now rewrite Hb.
      * apply String.eqb_neq in Hb. now rewrite Hb.
Qed.

Lemma allowed_truthy (s : string) :
  In s allowedSortBy -> JS.ToBoolean (JS.VString s) = true.
Proof.
  unfold allowedSortBy. simpl.
  intros [H|[H|[H|[H|[H|[H|[H|[]]]]]]]]; subst; reflexivity.
Qed.

Lemma effectiveSortOrder_throws (sortOrder : JS.value) :
  effectiveSortOrder sortOrder = None
  <-> JS.ToBoolean sortOrder = true /\ JS.is_string sortOrder = false.
Proof.
  unfold effectiveSortOrder.
  destruct (JS.ToBoolean sortOrder) eqn:Et.
  - destruct sortOrder; cbn [JS.call_toUpperCase JS.is_string]; split; intros H;
      try discriminate; try (destruct H; discriminate); auto.
  - split; intros H; [discriminate | destruct H; discriminate].
Qed.

Lemma getAllUsers_sortOrder_throws (sortBy sortOrder : JS.value) (w : world) :
  effectiveSortOrder sortOrder = None ->
  getAllUsers sortBy sortOrder w
  = (Ok (respond 500 "An error occurred while retrieving users."),
     {| users := users w; auto_increment := auto_increment w; txn := txn w;
        connection := true; log := log w ++ [GetConnection; Release];
        now := now w; salt := salt w |}).
Proof.
  intros H. apply effectiveSortOrder_throws in H. destruct H as [Ht Hs].
  unfold getAllUsers, fetchAllUsersFromDB, or_default. rewrite Ht.
  assert (E : effectiveSortOrder sortOrder = None)
    by (apply effectiveSortOrder_throws; auto).
  rewrite E. unfold_monad. simpl. rewrite <- app_assoc. reflexivity.
Qed.

(** C3, as amended.  [listAll] keeps a sort key of the allow-list and
    falls back to the last login otherwise; it sorts ascending exactly
    when the requested order is a string that, put in upper case, is
    [ASC] (so for [asc] too), and descending for any other string and
    for an order that is missing or empty.  An order that is an array or
    an object has no [toUpperCase]: the call throws and the listing is
    answered 500.  The rows returned are the rows of the table,
    reordered.  Under the key of the last login a row without a login is
    followed only by such rows, and rows with a login follow the
    direction, their registration dates breaking ties in the same
    direction; under another key the rows follow the direction on the
    key, and of two rows with equal keys the one registered later comes
    first. *)
Theorem list_sort_policy (sortBy sortOrder : JS.value) (w : world) :
  let key := effectiveSortBy sortBy in
  (forall s, sortBy = JS.VString s -> In s allowedSortBy -> key = s)
  /\ ((forall s, sortBy = JS.VString s -> ~ In s allowedSortBy) ->
      key = "last_login_date")
  /\ (effectiveSortOrder sortOrder = Some ASC
      <-> exists s, sortOrder = JS.VString s /\ JS.toUpperCase s = "ASC")
  /\ (effectiveSortOrder sortOrder = Some DESC
      <-> JS.ToBoolean sortOrder = false
          \/ exists s, sortOrder = JS.VString s /\ JS.toUpperCase s <> "ASC")
  /\ (effectiveSortOrder sortOrder = None
      <-> JS.ToBoolean sortOrder = true /\ JS.is_string sortOrder = false)
  /\ (effectiveSortOrder sortOrder = None ->
      fst (fetchAllUsersFromDB sortBy sortOrder w)
      = Throw (new_TypeError "clientSortOrder.toUpperCase is not a function")
      /\ fst (getAllUsers sortBy sortOrder w)
         = Ok (respond 500 "An error occurred while retrieving users."))
  /\ (forall dir, effectiveSortOrder sortOrder = Some dir ->
      exists rows,
        fst (fetchAllUsersFromDB sortBy sortOrder w)
        = Ok (map (select_row columnsToSelect) rows)
        /\ Permutation (view w) rows
        /\ (key = "last_login_date" -> StronglySorted (last_login_policy dir) rows)
        /\ (key <> "last_login_date" -> StronglySorted (tie_break_policy key dir) rows)).
Proof.
  intros key. split; [|split; [|split; [|split; [|split; [|split]]]]].
  - intros s -> Hin. subst key. unfold effectiveSortBy.
    rewrite (allowed_truthy s Hin). cbn [andb].
    apply includes_In in Hin. now rewrite Hin.
  - intros Hnot. subst key. unfold effectiveSortBy.
    destruct sortBy as [| | | |s| |]; try reflexivity.
    destruct (JS.ToBoolean (JS.VString s) && includes allowedSortBy s) eqn:E; auto.
    apply andb_true_iff in E. destruct E as [_ E].
    apply includes_In in E. exfalso. exact (Hnot s eq_refl E).
  - unfold effectiveSortOrder. split.
    + destruct (JS.ToBoolean sortOrder); [|discriminate].
      destruct sortOrder as [| | | |s| |]; cbn [JS.call_toUpperCase]; try discriminate.
      destruct (String.eqb_spec (JS.toUpperCase s) "ASC") as [E|E];
        [eauto | discriminate].
    + intros [s [-> Hs]]. cbn [JS.call_toUpperCase]. rewrite Hs.
      destruct s; [discriminate Hs | reflexivity].
  - unfold effectiveSortOrder. split.
    + destruct (JS.ToBoolean sortOrder); [|auto].
      destruct sortOrder as [| | | |s| |]; cbn [JS.call_toUpperCase]; try discriminate.
      destruct (String.eqb_spec (JS.toUpperCase s) "ASC") as [E|E];
        [discriminate | eauto].
    + intros [H | [s [-> Hs]]]; [now rewrite H|].
      cbn [JS.call_toUpperCase]. apply String.eqb_neq in Hs. rewrite Hs.
      destruct (JS.ToBoolean (JS.VString s)); reflexivity.
  - apply effectiveSortOrder_throws.
  - intros H. split.
    + unfold fetchAllUsersFromDB. rewrite H. reflexivity.
    + now rewrite (getAllUsers_sortOrder_throws sortBy sortOrder w H).
  - intros dir H.
    exists (order_by (orderByClause key dir) (view w)).
    split; [unfold fetchAllUsersFromDB; rewrite H; reflexivity|].
    split; [apply order_by_perm|].
    pose proof (order_by_sorted (orderByClause key dir) (view w)) as Hs.
    split; intros Hk.
    + rewrite Hk in Hs |- *.
      eapply StronglySorted_impl; [|exact Hs]. apply before_last_login.
    + eapply StronglySorted_impl; [|exact Hs].
      intros u v. now apply before_other_key.
Qed.

(** C3, as stated, fails for the order [asc]: the spec's words make it
    descending, the code sorts ascending. *)
Lemma lowercase_asc_sorts_ascending :
  effectiveSortOrder (JS.VString "asc") = Some ASC
  /\ sortOrder_as_specified (JS.VString "asc") = DESC
  /\ effectiveSortOrder (JS.VString "asc") <> Some (sortOrder_as_specified (JS.VString "asc")).
Proof. repeat split. discriminate. Qed.

(** *** Runs that differ in the digests only *)

Section Alike.

Variable password : option string.

Lemma alike_view (w1 w2 : world) :
  alike password w1 w2 -> table_alike password (view w1) (view w2).
Proof.
  intros [Hu Ht _ _ _ _]. unfold view.
  destruct (txn w1), (txn w2); auto; contradiction.
Qed.

Lemma sim_ret {A : Type} (R : A -> A -> Prop) (a1 a2 : A) :
  R a1 a2 -> sim password R (ret a1) (ret a2).
Proof. intros H w1 w2 Hw. split; auto. Qed.

Lemma sim_throw {A : Type} (R : A -> A -> Prop) (e : error) :
  sim password R (throw e) (throw e).
Proof. intros w1 w2 Hw. split; simpl; auto. Qed.

Lemma sim_bind {A B : Type} (R : A -> A -> Prop) (S : B -> B -> Prop)
    (m1 m2 : M A) (k1 k2 : A -> M B) :
  sim password R m1 m2 ->
  (forall a1 a2, R a1 a2 -> sim password S (k1 a1) (k2 a2)) ->
  sim password S (bind m1 k1) (bind m2 k2).
Proof.
  intros Hm Hk w1 w2 Hw. unfold bind.
  specialize (Hm w1 w2 Hw). unfold outcome_alike in Hm.
  destruct (m1 w1) as [[a1|e1] v1], (m2 w2) as [[a2|e2] v2];
    simpl in Hm; destruct Hm as [Hv Hr]; try contradiction.
  - now apply Hk.
  - split; auto.
Qed.

Lemma sim_try {A : Type} (R : A -> A -> Prop) (b1 b2 : M A)
    (h1 h2 : error -> M A) (c1 c2 : M unit) :
  sim password R b1 b2 ->
  (forall e, sim password R (h1 e) (h2 e)) ->
  sim password eq c1 c2 ->
  sim password R (try_catch_finally b1 h1 c1) (try_catch_finally b2 h2 c2).
Proof.
  intros Hb Hh Hc w1 w2 Hw. unfold try_catch_finally.
  specialize (Hb w1 w2 Hw). unfold outcome_alike in Hb.
  destruct (b1 w1) as [[a1|e1] v1], (b2 w2) as [[a2|e2] v2];
    simpl in Hb; destruct Hb as [Hv Hr]; try contradiction.
  - specialize (Hc v1 v2 Hv). unfold outcome_alike in Hc.
    destruct (c1 v1) as [[x1|x1] u1], (c2 v2) as [[x2|x2] u2];
      simpl in Hc; destruct Hc as [Hu Hx]; try contradiction;
      split; auto.
  - subst e2. specialize (Hh e1 v1 v2 Hv). unfold outcome_alike in Hh.
    destruct (h1 e1 v1) as [r1 u1], (h2 e1 v2) as [r2 u2].
    simpl in Hh. destruct Hh as [Hu Hr].
    specialize (Hc u1 u2 Hu). unfold outcome_alike in Hc.
    destruct (c1 u1) as [[x1|x1] t1], (c2 u2) as [[x2|x2] t2];
      simpl in Hc; destruct Hc as [Ht Hx]; try contradiction;
      split; auto.
Qed.

Lemma sim_get_world : sim password (alike password) get_world get_world.
Proof. intros w1 w2 Hw. split; auto. Qed.

Lemma sim_put_world (v1 v2 : world) :
  alike password v1 v2 -> sim password eq (put_world v1) (put_world v2).
Proof. intros Hv w1 w2 Hw. split; simpl; auto. Qed.

(** A step that changes the state only. *)
Lemma sim_step (f1 f2 : world -> world) :
  (forall w1 w2, alike password w1 w2 -> alike password (f1 w1) (f2 w2)) ->
  sim password eq (fun w => (Ok tt, f1 w)) (fun w => (Ok tt, f2 w)).
Proof. intros Hf w1 w2 Hw. split; simpl; auto. Qed.

Lemma sim_emit_alike (e1 e2 : event) :
  redact_event e1 = redact_event e2 -> sim password eq (emit e1) (emit e2).
Proof.
  intros He. unfold emit. apply sim_step. intros w1 w2 [Hu Ht Ha Hc Hl Hn].
  split; simpl; auto. unfold log_alike in *.
  rewrite !map_app, Hl. simpl. now rewrite He.
Qed.

Lemma sim_emit (e : event) : sim password eq (emit e) (emit e).
Proof. now apply sim_emit_alike. Qed.

Lemma alike_set_connection (b : bool) (w1 w2 : world) :
  alike password w1 w2 ->
  alike password (set_connection b w1) (set_connection b w2).
Proof. intros [Hu Ht Ha Hc Hl Hn]. split; simpl; auto. Qed.

Lemma alike_set_auto_increment (n : Z) (w1 w2 : world) :
  alike password w1 w2 ->
  alike password (set_auto_increment n w1) (set_auto_increment n w2).
Proof. intros [Hu Ht Ha Hc Hl Hn]. split; simpl; auto. Qed.

Lemma alike_set_tables (c1 c2 : list User.t) (t1 t2 : option (list User.t))
    (w1 w2 : world) :
  table_alike password c1 c2 ->
  option_alike (table_alike password) t1 t2 ->
  alike password w1 w2 ->
  alike password (set_tables c1 t1 w1) (set_tables c2 t2 w2).
Proof. intros Hc' Ht' [Hu Ht Ha Hc Hl Hn]. split; simpl; auto. Qed.

Lemma sim_let_connection : sim password eq let_connection let_connection.
Proof. apply sim_step. apply alike_set_connection. Qed.

Lemma sim_getConnection : sim password eq getConnection getConnection.
Proof.
  unfold getConnection. eapply sim_bind; [apply sim_emit|].
  intros _ _ _. apply sim_step. apply alike_set_connection.
Qed.

Lemma sim_beginTransaction : sim password eq beginTransaction beginTransaction.
Proof.
  unfold beginTransaction. eapply sim_bind; [apply sim_emit|].
  intros _ _ _. apply sim_step. intros w1 w2 Hw.
  apply alike_set_tables; auto; simpl; now apply alike_view.
Qed.

Lemma sim_commit : sim password eq commit commit.
Proof.
  unfold commit. eapply sim_bind; [apply sim_emit|].
  intros _ _ _. apply sim_step. intros w1 w2 Hw.
  apply alike_set_tables; auto; simpl; auto. now apply alike_view.
Qed.

Lemma sim_rollback : sim password eq rollback rollback.
Proof.
  unfold rollback. eapply sim_bind; [apply sim_emit|].
  intros _ _ _. apply sim_step. intros w1 w2 Hw.
  apply alike_set_tables; auto; simpl; auto. now destruct Hw.
Qed.

Lemma sim_release : sim password eq release release.
Proof. apply sim_emit. Qed.

Lemma sim_rollback_if_connection :
  sim password eq rollback_if_connection rollback_if_connection.
Proof.
  unfold rollback_if_connection. eapply sim_bind; [apply sim_get_world|].
  intros w1 w2 Hw. destruct Hw as [_ _ _ Hc _ _]. rewrite Hc.
  destruct (connection w2); simpl; [apply sim_rollback | now apply sim_ret].
Qed.

Lemma sim_release_if_connection :
  sim password eq release_if_connection release_if_connection.
Proof.
  unfold release_if_connection. eapply sim_bind; [apply sim_get_world|].
  intros w1 w2 Hw. destruct Hw as [_ _ _ Hc _ _]. rewrite Hc.
  destruct (connection w2); simpl; [apply sim_release | now apply sim_ret].
Qed.

Lemma sim_query {A : Type} (R : A -> A -> Prop) (q : statement)
    (f : list User.t -> A) :
  (forall t1 t2, table_alike password t1 t2 -> R (f t1) (f t2)) ->
  sim password R (query q f) (query q f).
Proof.
  intros Hf. unfold query. eapply sim_bind; [apply sim_emit|].
  intros _ _ _ w1 w2 Hw. split; simpl; auto.
  apply Hf. now apply alike_view.
Qed.

Lemma sim_update_alike (q1 q2 : statement) (f1 f2 : list User.t -> list User.t) :
  redact_statement q1 = redact_statement q2 ->
  (forall t1 t2, table_alike password t1 t2 -> table_alike password (f1 t1) (f2 t2)) ->
  sim password eq (update q1 f1) (update q2 f2).
Proof.
  intros Hq Hf. unfold update. eapply sim_bind.
  - apply sim_emit_alike. simpl. now rewrite Hq.
  - intros _ _ _. apply sim_step. intros w1 w2 Hw.
    pose proof Hw as [Hu Ht _ _ _ _].
    destruct (txn w1), (txn w2); try contradiction;
      apply alike_set_tables; simpl; auto.
Qed.

Lemma sim_update (q : statement) (f : list User.t -> list User.t) :
  (forall t1 t2, table_alike password t1 t2 -> table_alike password (f t1) (f t2)) ->
  sim password eq (update q f) (update q f).
Proof. now apply sim_update_alike. Qed.

Lemma sim_or_TypeError {A : Type} (v : option A) (msg : string) :
  sim password eq (or_TypeError v msg) (or_TypeError v msg).
Proof.
  destruct v; simpl; [now apply sim_ret | apply sim_throw].
Qed.

Lemma sim_text_parameter (v : JS.value) :
  sim password eq (text_parameter v) (text_parameter v).
Proof.
  unfold text_parameter.
  destruct v; try (now apply sim_ret); try apply sim_throw;
    destruct (stored_as _); try (now apply sim_ret); apply sim_throw.
Qed.

Lemma sim_where_parameter (v : JS.value) :
  sim password eq (where_parameter v) (where_parameter v).
Proof.
  unfold where_parameter.
  destruct v; try (now apply sim_ret); try apply sim_throw;
    destruct (equal_to _); try (now apply sim_ret); apply sim_throw.
Qed.

(** Tables that are alike. *)

Lemma row_alike_public {A : Type} (f : User.t -> A) (u1 u2 : User.t) :
  public f -> row_alike password u1 u2 -> f u1 = f u2.
Proof. intros Hf [Hr _]. now apply Hf. Qed.

Lemma row_alike_refl (u : User.t) : row_alike password u u.
Proof. split; auto. destruct password; auto. Qed.

Lemma filter_alike (f : User.t -> bool) (t1 t2 : list User.t) :
  public f -> table_alike password t1 t2 ->
  table_alike password (filter f t1) (filter f t2).
Proof.
  intros Hf. induction 1 as [|u1 u2 t1 t2 Hu Ht IH]; simpl.
  - constructor.
  - rewrite (row_alike_public f u1 u2 Hf Hu).
    destruct (f u2); auto. constructor; auto.
Qed.

Lemma map_alike (g : User.t -> User.t) (t1 t2 : list User.t) :
  (forall u1 u2, row_alike password u1 u2 -> row_alike password (g u1) (g u2)) ->
  table_alike password t1 t2 ->
  table_alike password (map g t1) (map g t2).
Proof.
  intros Hg. induction 1; simpl; constructor; auto.
Qed.

Lemma map_public {A : Type} (f : User.t -> A) (t1 t2 : list User.t) :
  public f -> table_alike password t1 t2 -> map f t1 = map f t2.
Proof.
  intros Hf. induction 1 as [|u1 u2 t1 t2 Hu Ht IH]; simpl; auto.
  now rewrite (row_alike_public f u1 u2 Hf Hu), IH.
Qed.

Lemma existsb_public (f : User.t -> bool) (t1 t2 : list User.t) :
  public f -> table_alike password t1 t2 -> existsb f t1 = existsb f t2.
Proof.
  intros Hf. induction 1 as [|u1 u2 t1 t2 Hu Ht IH]; simpl; auto.
  now rewrite (row_alike_public f u1 u2 Hf Hu), IH.
Qed.

Lemma affected_public (f : User.t -> bool) (t1 t2 : list User.t) :
  public f -> table_alike password t1 t2 -> affected f t1 = affected f t2.
Proof.
  intros Hf Ht. unfold affected.
  pose proof (filter_alike f t1 t2 Hf Ht) as H.
  apply Forall2_length in H. now rewrite H.
Qed.

End Alike.

Lemma redact_fields (u1 u2 : User.t) :
  redact u1 = redact u2 ->
  User.id u1 = User.id u2
  /\ User.first_name u1 = User.first_name u2
  /\ User.last_name u1 = User.last_name u2
  /\ User.email u1 = User.email u2
  /\ User.job_title u1 = User.job_title u2
  /\ User.company u1 = User.company u2
  /\ User.last_login_date u1 = User.last_login_date u2
  /\ User.registration_date u1 = User.registration_date u2
  /\ User.status u1 = User.status u2.
Proof.
  unfold redact, User.set_password_hash. intros H.
  injection H. intros. repeat split; assumption.
Qed.

Ltac public_fields :=
  let u1 := fresh "u1" in
  let u2 := fresh "u2" in
  let H := fresh "H" in
  intros u1 u2 H;
  destruct (redact_fields u1 u2 H) as (Hid & Hfn & Hln & Hem & Hjt & Hco & Hll & Hrd & Hst).

Lemma public_email {A : Type} (f : string -> A) :
  public (fun u => f (User.email u)).
Proof. public_fields. now rewrite Hem. Qed.

Lemma public_id_is (id : Z) : public (fun u => User.id u =? id).
Proof. public_fields. now rewrite Hid. Qed.

Lemma public_id_in (ids : list JS.number) : public (id_in ids).
Proof. public_fields. unfold id_in. now rewrite Hid. Qed.

Lemma public_not_id_in (ids : list JS.number) :
  public (fun u => negb (id_in ids u)).
Proof. intros u1 u2 H. now rewrite (public_id_in ids u1 u2 H). Qed.

Lemma public_auth_row : public AuthRow.of_user.
Proof. public_fields. unfold AuthRow.of_user. now rewrite Hid, Hem, Hst. Qed.

Lemma public_column (c : string) :
  c <> "password_hash" -> public (column c).
Proof.
  intros Hc. public_fields. unfold column.
  rewrite Hid, Hfn, Hln, Hem, Hjt, Hco, Hll, Hrd, Hst.
  destruct (String.eqb_spec c "password_hash"); [contradiction|].
  reflexivity.
Qed.

Lemma columnsToSelect_no_digest : ~ In "password_hash" columnsToSelect.
Proof.
  unfold columnsToSelect. simpl.
  intros H. repeat (destruct H as [H|H]; [discriminate|]). exact H.
Qed.

Lemma public_select_row : public (select_row columnsToSelect).
Proof.
  intros u1 u2 H. unfold select_row. f_equal.
  apply map_ext_in. intros c Hc.
  rewrite (public_column c) with (u2 := u2); auto.
  intros E. subst c. exact (columnsToSelect_no_digest Hc).
Qed.

Lemma public_order_compare (order : order_by_clause) (u1 u2 v1 v2 : User.t) :
  ~ In "password_hash" (clause_columns order) ->
  redact u1 = redact u2 -> redact v1 = redact v2 ->
  order_compare order u1 v1 = order_compare order u2 v2.
Proof.
  intros Hc Hu Hv. induction order as [|[e d] order IH]; simpl; auto.
  simpl in Hc.
  assert (He : forall x y, redact x = redact y ->
                           eval_sort_expr e x = eval_sort_expr e y).
  { intros x y Hxy. destruct e as [c|c]; simpl;
      rewrite (public_column c (ltac:(intros E; apply Hc; left; simpl; auto)) x y Hxy);
      reflexivity. }
  rewrite (He u1 u2 Hu), (He v1 v2 Hv), IH; auto.
Qed.

Lemma order_by_clause_columns (sortBy : JS.value) (d : direction) :
  ~ In "password_hash" (clause_columns (orderByClause (effectiveSortBy sortBy) d)).
Proof.
  pose proof (effectiveSortBy_allowed sortBy) as Hin.
  unfold orderByClause.
  destruct (String.eqb (effectiveSortBy sortBy) "last_login_date").
  - destruct d; simpl; intros [H|[H|[H|[]]]]; discriminate.
  - simpl. intros [H|[H|[]]]; [|discriminate].
    rewrite H in Hin. unfold allowedSortBy in Hin. simpl in Hin.
    repeat (destruct Hin as [Hin|Hin]; [discriminate|]). exact Hin.
Qed.

Section AlikeRuns.

Variable password : option string.

Lemma insert_row_alike (order : order_by_clause) (u1 u2 : User.t)
    (t1 t2 : list User.t) :
  ~ In "password_hash" (clause_columns order) ->
  row_alike password u1 u2 -> table_alike password t1 t2 ->
  table_alike password (insert_row order u1 t1) (insert_row order u2 t2).
Proof.
  intros Hc Hu. induction 1 as [|v1 v2 t1 t2 Hv Ht IH]; simpl.
  - constructor; [exact Hu | constructor].
  - rewrite (public_order_compare order u1 u2 v1 v2 Hc (proj1 Hu) (proj1 Hv)).
    destruct (order_compare order u2 v2); constructor; auto;
      constructor; auto.
Qed.

Lemma order_by_alike (order : order_by_clause) (t1 t2 : list User.t) :
  ~ In "password_hash" (clause_columns order) ->
  table_alike password t1 t2 ->
  table_alike password (order_by order t1) (order_by order t2).
Proof.
  intros Hc. induction 1; simpl; [constructor|].
  now apply insert_row_alike.
Qed.

Lemma sim_ensureRequiredFieldsPresent (b : body) (fields : list string) :
  sim password eq (ensureRequiredFieldsPresent b fields)
                  (ensureRequiredFieldsPresent b fields).
Proof.
  induction fields as [|f fields IH]; simpl.
  - now apply sim_ret.
  - destruct (negb (JS.ToBoolean (get b f))); [apply sim_throw | exact IH].
Qed.

Lemma sim_validateEmailFormat (email : JS.value) :
  sim password eq (validateEmailFormat email) (validateEmailFormat email).
Proof.
  unfold validateEmailFormat.
  eapply sim_bind; [apply sim_or_TypeError|]. intros s _ <-.
  destruct (negb _); [apply sim_throw | now apply sim_ret].
Qed.

Lemma sim_checkEmailAvailability (email : JS.value) :
  sim password eq (checkEmailAvailability email) (checkEmailAvailability email).
Proof.
  unfold checkEmailAvailability.
  eapply sim_bind; [apply sim_where_parameter|]. intros equal _ <-.
  eapply sim_bind.
  - apply (sim_query password
             (fun l1 l2 : list User.t => List.length l1 = List.length l2)).
    intros t1 t2 Ht.
    apply (Forall2_length (filter_alike password _ t1 t2 (public_email equal) Ht)).
  - intros l1 l2 Hl. rewrite Hl.
    destruct (0 <? _); [apply sim_throw | now apply sim_ret].
Qed.

(** The digest computed in the one state and in the other need not be
    the same. *)
Lemma sim_generateHashedPassword (p : JS.value) :
  sim password (fun _ _ => True) (generateHashedPassword p) (generateHashedPassword p).
Proof.
  unfold generateHashedPassword. destruct p; try apply sim_throw.
  eapply sim_bind; [apply sim_get_world|].
  intros w1 w2 Hw. now apply sim_ret.
Qed.

Lemma sim_updateUserLastLoginDate (id : Z) :
  sim password eq (updateUserLastLoginDate id) (updateUserLastLoginDate id).
Proof.
  unfold updateUserLastLoginDate.
  eapply sim_bind; [apply sim_get_world|]. intros w1 w2 Hw.
  pose proof Hw as [_ _ _ _ _ Hn]. rewrite Hn.
  apply sim_update. intros t1 t2 Ht. apply map_alike; auto.
  intros u1 u2 Hu.
  rewrite (row_alike_public password (fun u => User.id u =? id) u1 u2
             (public_id_is id) Hu).
  destruct (User.id u2 =? id); auto.
  destruct Hu as [Hr Hp]. split; auto.
  unfold redact, User.set_password_hash, User.set_last_login_date in *. simpl.
  injection Hr. intros. congruence.
Qed.

Lemma sim_fetchAllUsersFromDB (sortBy sortOrder : JS.value) :
  sim password eq (fetchAllUsersFromDB sortBy sortOrder)
                  (fetchAllUsersFromDB sortBy sortOrder).
Proof.
  unfold fetchAllUsersFromDB.
  eapply sim_bind; [apply sim_or_TypeError|]. intros d _ <-.
  apply sim_query. intros t1 t2 Ht.
  apply (map_public password _ _ _ public_select_row).
  apply order_by_alike; auto. apply order_by_clause_columns.
Qed.

Lemma sim_deleteMultipleUsersFromDB (ids : list JS.number) :
  sim password eq (deleteMultipleUsersFromDB ids) (deleteMultipleUsersFromDB ids).
Proof.
  unfold deleteMultipleUsersFromDB. destruct ids as [|n ids]; [now apply sim_ret|].
  destruct (forallb writable (n :: ids));
    [|eapply sim_bind; [apply sim_emit | intros _ _ _; apply sim_throw]].
  eapply sim_bind; [apply sim_get_world|]. intros w1 w2 Hw.
  eapply sim_bind.
  - apply sim_update. intros t1 t2 Ht.
    apply filter_alike; auto. apply public_not_id_in.
  - intros _ _ _. apply sim_ret.
    apply (affected_public password _ _ _ (public_id_in _)).
    now apply alike_view.
Qed.

Lemma sim_updateStatusForMultipleUsersInDB (ids : list JS.number) (s : string) :
  sim password eq (updateStatusForMultipleUsersInDB ids s)
                  (updateStatusForMultipleUsersInDB ids s).
Proof.
  unfold updateStatusForMultipleUsersInDB.
  destruct ids as [|n ids]; [now apply sim_ret|].
  destruct (forallb writable (n :: ids));
    [|eapply sim_bind; [apply sim_emit | intros _ _ _; apply sim_throw]].
  eapply sim_bind; [apply sim_get_world|]. intros w1 w2 Hw.
  eapply sim_bind.
  - apply sim_update. intros t1 t2 Ht. apply map_alike; auto.
    intros u1 u2 Hu.
    rewrite (row_alike_public password _ u1 u2 (public_id_in (n :: ids)) Hu).
    destruct (id_in (n :: ids) u2); auto.
    destruct Hu as [Hr Hp]. split; auto.
    unfold redact, User.set_password_hash, User.set_status in *. simpl.
    injection Hr. intros. congruence.
  - intros _ _ _. apply sim_ret.
    apply (affected_public password _ _ _ (public_id_in _)).
    now apply alike_view.
Qed.

Lemma sim_sign (id : Z) (email : JS.value) :
  sim password eq (sign id email) (sign id email).
Proof.
  unfold sign. eapply sim_bind; [apply sim_get_world|].
  intros w1 w2 Hw. apply sim_ret. destruct Hw. congruence.
Qed.

Lemma sim_verify (token : option string) :
  sim password eq (verify token) (verify token).
Proof.
  unfold verify. destruct token as [[|c t]|]; try apply sim_throw.
  destruct (jwt_decode _) as [payload|]; [|apply sim_throw].
  eapply sim_bind; [apply sim_get_world|]. intros w1 w2 Hw.
  pose proof Hw as [_ _ _ _ _ Hn]. rewrite Hn.
  destruct (exp payload <=? now w2); [apply sim_throw | now apply sim_ret].
Qed.

Lemma sim_getUserForAuth (id : Z) :
  sim password eq (getUserForAuth id) (getUserForAuth id).
Proof.
  unfold getUserForAuth. eapply sim_bind.
  - apply (sim_query password eq). intros t1 t2 Ht.
    apply (map_public password _ _ _ public_auth_row).
    apply filter_alike; auto. apply public_id_is.
  - intros r _ <-. now apply sim_ret.
Qed.

Lemma sim_findUserByEmailInDB (email : JS.value) :
  sim password (option_alike (login_row_alike password))
      (findUserByEmailInDB email) (findUserByEmailInDB email).
Proof.
  unfold findUserByEmailInDB.
  eapply sim_bind; [apply sim_where_parameter|]. intros equal _ <-.
  eapply sim_bind.
  - apply (sim_query password (Forall2 (login_row_alike password))).
    intros t1 t2 Ht.
    pose proof (filter_alike password _ t1 t2 (public_email equal) Ht) as Hf.
    induction Hf as [|u1 u2 l1 l2 Hu Hl IH]; simpl; constructor; auto.
    destruct Hu as [Hr Hp].
    destruct (redact_fields u1 u2 Hr) as (Hid & Hfn & Hln & Hem & _ & _ & _ & _ & Hst).
    unfold login_row_alike. simpl. auto 10.
  - intros l1 l2 Hl. apply sim_ret. destruct Hl; simpl; auto.
Qed.

End AlikeRuns.

(** The row that is added carries the digest computed: the tables stay
    alike whatever the two digests are. *)
Lemma sim_insertNewUser (f l e : JS.value) (h1 h2 : string) (j c : JS.value) :
  sim None eq (insertNewUser f l e h1 j c) (insertNewUser f l e h2 j c).
Proof.
  unfold insertNewUser.
  eapply sim_bind; [apply sim_text_parameter|]. intros f' _ <-.
  eapply sim_bind; [apply sim_text_parameter|]. intros l' _ <-.
  eapply sim_bind; [apply sim_text_parameter|]. intros e' _ <-.
  eapply sim_bind; [apply sim_text_parameter|]. intros j' _ <-.
  eapply sim_bind; [apply sim_text_parameter|]. intros c' _ <-.
  destruct f' as [f'|], l' as [l'|], e' as [e'|];
    try (eapply sim_bind; [now apply sim_emit_alike | intros _ _ _; apply sim_throw]).
  eapply sim_bind; [apply sim_get_world|]. intros w1 w2 Hw.
  unfold violates_unique_email.
  rewrite (existsb_public None _ _ _ (public_email (fun t => text_eqb t e'))
             (alike_view None w1 w2 Hw)).
  pose proof Hw as [_ _ Ha _ _ Hn]. rewrite Ha, Hn.
  destruct (existsb _ (view w2)).
  - eapply sim_bind; [now apply sim_emit_alike|]. intros _ _ _. apply sim_throw.
  - eapply sim_bind.
    + apply sim_put_world. now apply alike_set_auto_increment.
    + intros _ _ _. eapply sim_bind.
      * apply sim_update_alike; [reflexivity|]. intros t1 t2 Ht.
        apply Forall2_app; auto. constructor; [|constructor].
        split; [reflexivity | exact I].
      * intros _ _ _. now apply sim_ret.
Qed.

Create HintDb sim.

#[local] Hint Resolve sim_throw sim_emit sim_let_connection sim_getConnection
  sim_beginTransaction sim_commit sim_rollback sim_release
  sim_rollback_if_connection sim_release_if_connection sim_or_TypeError
  sim_text_parameter sim_where_parameter
  sim_ensureRequiredFieldsPresent sim_validateEmailFormat
  sim_checkEmailAvailability sim_generateHashedPassword sim_insertNewUser
  sim_updateUserLastLoginDate sim_fetchAllUsersFromDB
  sim_deleteMultipleUsersFromDB sim_updateStatusForMultipleUsersInDB
  sim_sign sim_verify sim_getUserForAuth sim_findUserByEmailInDB : sim.

Ltac sim_then :=
  eapply sim_bind; [solve [eauto with sim] | intros ? ? ?; try subst].

Ltac sim_done := apply sim_ret; reflexivity.

Lemma sim_fst {A : Type} (password : option string) (m : M A) (w1 w2 : world) :
  sim password eq m m -> alike password w1 w2 -> fst (m w1) = fst (m w2).
Proof.
  intros Hm Hw. destruct (Hm w1 w2 Hw) as [_ H].
  destruct (fst (m w1)), (fst (m w2)); try contradiction; congruence.
Qed.

Lemma sim_both {A : Type} (password : option string) (m : M A) (w1 w2 : world) :
  sim password eq m m -> alike password w1 w2 ->
  fst (m w1) = fst (m w2) /\ alike password (snd (m w1)) (snd (m w2)).
Proof.
  intros Hm Hw. split; [now apply (sim_fst password) | apply (Hm w1 w2 Hw)].
Qed.

Lemma sim_registerUser (b : body) :
  sim None eq (registerUser b) (registerUser b).
Proof.
  unfold registerUser. sim_then. apply sim_try; auto with sim.
  - repeat sim_then. sim_done.
  - intros e. sim_then. sim_done.
Qed.

Lemma sim_getAllUsers (password : option string) (sortBy sortOrder : JS.value) :
  sim password eq (getAllUsers sortBy sortOrder) (getAllUsers sortBy sortOrder).
Proof.
  unfold getAllUsers. sim_then. apply sim_try; auto with sim.
  - repeat sim_then. sim_done.
  - intros e. sim_done.
Qed.

Lemma sim_deleteMultipleUsers (password : option string) (b : body) :
  sim password eq (deleteMultipleUsers b) (deleteMultipleUsers b).
Proof.
  unfold deleteMultipleUsers. sim_then. apply sim_try; auto with sim.
  - destruct (get b "userIds") as [| | | | |[|i ids]|]; try sim_done.
    sim_then.
    match goal with |- context [match ?v with [] => _ | _ :: _ => _ end] =>
                      destruct v as [|n valid] end; [sim_done|].
    repeat sim_then.
    match goal with |- context [if ?c then _ else _] => destruct c end;
      [sim_done|]. sim_then. sim_done.
  - intros e. sim_then. sim_done.
Qed.

Lemma sim_updateMultipleUsersStatus (password : option string) (b : body) :
  sim password eq (updateMultipleUsersStatus b) (updateMultipleUsersStatus b).
Proof.
  unfold updateMultipleUsersStatus. sim_then. apply sim_try; auto with sim.
  - destruct (get b "userIds") as [| | | | |[|i ids]|]; try sim_done.
    match goal with |- context [if ?c then _ else _] => destruct c end;
      [sim_done|].
    sim_then.
    match goal with |- context [if ?c then _ else _] => destruct c end;
      [sim_done|].
    sim_then.
    match goal with |- context [match ?v with [] => _ | _ :: _ => _ end] =>
                      destruct v as [|n valid] end; [sim_done|].
    repeat sim_then.
    match goal with |- context [if ?c then _ else _] => destruct c end;
      sim_done.
  - intros e. sim_then. sim_done.
Qed.

Lemma sim_protect (password : option string) (authorization : option string) :
  sim password eq (protect authorization) (protect authorization).
Proof.
  unfold protect. sim_then.
  match goal with |- context [if ?c then _ else _] => destruct c end;
    [|sim_done].
  apply sim_try; auto with sim.
  - repeat sim_then.
    match goal with |- context [match ?r with Some _ => _ | None => _ end] =>
                      destruct r as [currentUser|] end; [|sim_done].
    destruct (String.eqb _ _); sim_done.
  - intros e.
    destruct (String.eqb (name e) "JsonWebTokenError"); [sim_done|].
    destruct (String.eqb (name e) "TokenExpiredError"); sim_done.
Qed.

Lemma sim_bcrypt_compare_async (b : body) (r1 r2 : LoginRow.t) :
  login_row_alike (password_of b) r1 r2 ->
  sim (password_of b) eq
      (bcrypt_compare_async (get b "password") (LoginRow.password_hash r1))
      (bcrypt_compare_async (get b "password") (LoginRow.password_hash r2)).
Proof.
  intros (_ & _ & _ & _ & _ & Hp). unfold bcrypt_compare_async, password_of in *.
  destruct (get b "password"); try apply sim_throw.
  rewrite Hp. sim_done.
Qed.

Lemma sim_loginUser (b : body) :
  sim (password_of b) eq (loginUser b) (loginUser b).
Proof.
  unfold loginUser. sim_then. apply sim_try; auto with sim.
  - do 5 sim_then.
    match goal with
    | H : option_alike _ ?x ?y |- _ =>
        destruct x as [r1|], y as [r2|]; simpl in H; try contradiction
    end.
    + eapply sim_bind; [now apply sim_bcrypt_compare_async|].
      intros c _ <-.
      match goal with
      | H : login_row_alike _ _ _ |- _ =>
          destruct H as (Hid & Hfn & Hln & Hem & Hst & _)
      end.
      rewrite Hid, Hfn, Hln, Hem, Hst.
      destruct (negb c); [sim_then; sim_done|].
      destruct (String.eqb _ _); [sim_then; sim_done|].
      repeat sim_then. sim_done.
    + sim_then. sim_done.
  - intros e. sim_then. sim_done.
Qed.

Lemma select_row_keys (cols : list string) (u : User.t) :
  exists fields, select_row cols u = JObj fields /\ map fst fields = cols.
Proof.
  unfold select_row. eexists. split; [reflexivity|].
  rewrite map_map. simpl. apply map_id.
Qed.

(** C8. The answer of every operation but login, and what the guard
    answers or attaches to the request, are the same in two states that
    differ in the digests only: those stored and, as the salt drawn may
    differ, the one a registration computes.  The two states reached
    differ in the digests only, so the same holds of every request that
    follows.  The answer of login is the same in two such states
    whenever the password of the request verifies alike against their
    digests.  The rows that list returns have the columns selected and
    no other, the digest is not among them, and the row the guard loads
    is made of the id, the email and the status. *)
Theorem digest_confidentiality (w1 w2 : world) :
  same_but_digests w1 w2 ->
  (forall b, fst (registerUser b w1) = fst (registerUser b w2)
             /\ same_but_digests (snd (registerUser b w1)) (snd (registerUser b w2)))
  /\ (forall sortBy sortOrder,
         fst (getAllUsers sortBy sortOrder w1) = fst (getAllUsers sortBy sortOrder w2)
         /\ same_but_digests (snd (getAllUsers sortBy sortOrder w1))
                             (snd (getAllUsers sortBy sortOrder w2)))
  /\ (forall b, fst (updateMultipleUsersStatus b w1)
                = fst (updateMultipleUsersStatus b w2)
                /\ same_but_digests (snd (updateMultipleUsersStatus b w1))
                                    (snd (updateMultipleUsersStatus b w2)))
  /\ (forall b, fst (deleteMultipleUsers b w1) = fst (deleteMultipleUsers b w2)
                /\ same_but_digests (snd (deleteMultipleUsers b w1))
                                    (snd (deleteMultipleUsers b w2)))
  /\ (forall authorization,
         fst (protect authorization w1) = fst (protect authorization w2)
         /\ same_but_digests (snd (protect authorization w1))
                             (snd (protect authorization w2)))
  /\ (fst (logoutUser w1) = fst (logoutUser w2)
      /\ same_but_digests (snd (logoutUser w1)) (snd (logoutUser w2)))
  /\ (forall b, alike (password_of b) w1 w2 ->
                fst (loginUser b w1) = fst (loginUser b w2)
                /\ alike (password_of b) (snd (loginUser b w1)) (snd (loginUser b w2)))
  /\ ~ In "password_hash" columnsToSelect
  /\ (forall u, exists fields,
         select_row columnsToSelect u = JObj fields
         /\ map fst fields = columnsToSelect)
  /\ (forall u, AuthRow.of_user u = AuthRow.of_user (redact u)).
Proof.
  intros Hw. unfold same_but_digests in *.
  split; [intros b; apply sim_both; [apply sim_registerUser | assumption]|].
  split; [intros sb so; apply sim_both; [apply sim_getAllUsers | assumption]|].
  split; [intros b; apply sim_both; [apply sim_updateMultipleUsersStatus | assumption]|].
  split; [intros b; apply sim_both; [apply sim_deleteMultipleUsers | assumption]|].
  split; [intros h; apply sim_both; [apply sim_protect | assumption]|].
  split; [split; [reflexivity | exact Hw]|].
  split; [intros b Hb; apply sim_both; [apply sim_loginUser | assumption]|].
  split; [exact columnsToSelect_no_digest|].
  split; [intros u; apply select_row_keys|].
  intros u. reflexivity.
Qed.

(** *** Regular expressions: the matcher and what it denotes *)

Lemma append_assoc (a b c : string) : (a ++ b) ++ c = a ++ b ++ c.
Proof. induction a as [|x a IH]; simpl; [reflexivity | now rewrite IH]. Qed.

Lemma append_nil_inv (a b : string) : a ++ b = "" -> a = "" /\ b = "".
Proof. destruct a; simpl; [auto | discriminate]. Qed.

Lemma append_cons_inv (a b : string) (c : ascii) (s : string) :
  a ++ b = String c s ->
  (a = "" /\ b = String c s) \/ (exists a', a = String c a' /\ s = a' ++ b).
Proof.
  destruct a as [|x a]; simpl; intros H; [left; auto|].
  injection H as -> <-. right. eauto.
Qed.

Lemma nullable_matches (r : JS.regex) :
  JS.nullable r = true <-> matches r "".
Proof.
  induction r as [| |p|r1 IH1 r2 IH2|r1 IH1 r2 IH2|r IH]; simpl.
  - split; [discriminate | intros H; inversion H].
  - split; [constructor | reflexivity].
  - split; [discriminate | intros H; inversion H].
  - rewrite andb_true_iff, IH1, IH2. split.
    + intros [H1 H2]. exact (matches_Cat r1 r2 "" "" H1 H2).
    + intros H. inversion H as [| |? ? s1 s2 H1 H2 [E1 E2] E| | | |]. subst.
      apply append_nil_inv in E. destruct E; subst. auto.
  - rewrite orb_true_iff, IH1, IH2. split.
    + intros [H|H]; [now apply matches_Alt_l | now apply matches_Alt_r].
    + intros H. inversion H; subst; auto.
  - split; [constructor | reflexivity].
Qed.

Lemma matches_Star_cons (r : JS.regex) (t : string) :
  matches (JS.Star r) t ->
  forall c s, t = String c s ->
  exists s1 s2, s = s1 ++ s2 /\ matches r (String c s1) /\ matches (JS.Star r) s2.
Proof.
  intros H. remember (JS.Star r) as q eqn:Eq.
  induction H as [| | | | | |r' s1 s2 H1 _ H2 IH2]; try discriminate.
  injection Eq as ->. intros c s E.
  apply append_cons_inv in E. destruct E as [[-> E]|[a' [-> ->]]].
  - apply IH2; auto.
  - eauto.
Qed.

Lemma deriv_matches (r : JS.regex) (c : ascii) (s : string) :
  matches (JS.deriv c r) s <-> matches r (String c s).
Proof.
  revert s.
  induction r as [| |p|r1 IH1 r2 IH2|r1 IH1 r2 IH2|r IH]; intros s; simpl.
  - split; intros H; inversion H.
  - split; intros H; inversion H.
  - destruct (p c) eqn:Hp; split; intros H; inversion H; subst.
    + now constructor.
    + constructor.
    + congruence.
  - assert (Hcat : matches (JS.Cat (JS.deriv c r1) r2) s ->
                   matches (JS.Cat r1 r2) (String c s)).
    { intros H. inversion H as [| |? ? s1 s2 H1 H2| | | |]; subst.
      apply IH1 in H1.
      exact (matches_Cat r1 r2 (String c s1) s2 H1 H2). }
    assert (Hinv : matches (JS.Cat r1 r2) (String c s) ->
                   (matches r1 "" /\ matches (JS.deriv c r2) s)
                   \/ matches (JS.Cat (JS.deriv c r1) r2) s).
    { intros H. inversion H as [| |? ? s1 s2 H1 H2 [E1 E2] E| | | |]; subst.
      apply append_cons_inv in E. destruct E as [[-> ->]|[a' [-> ->]]].
      - left. split; auto. now apply IH2.
      - right. constructor; auto. now apply IH1. }
    destruct (JS.nullable r1) eqn:Hn.
    + split.
      * intros H. inversion H; subst; auto.
        apply nullable_matches in Hn.
        match goal with Hd : matches (JS.deriv c r2) s |- _ => apply IH2 in Hd;
          exact (matches_Cat r1 r2 "" (String c s) Hn Hd) end.
      * intros H. destruct (Hinv H) as [[_ H2]|H1];
          [now apply matches_Alt_r | now apply matches_Alt_l].
    + split; auto.
      intros H. destruct (Hinv H) as [[H1 _]|H1]; auto.
      apply nullable_matches in H1. congruence.
  - split; intros H; inversion H; subst.
    + apply matches_Alt_l. now apply IH1.
    + apply matches_Alt_r. now apply IH2.
    + apply matches_Alt_l. now apply IH1.
    + apply matches_Alt_r. now apply IH2.
  - split.
    + intros H. inversion H as [| |? ? s1 s2 H1 H2| | | |]; subst.
      apply IH in H1.
      exact (matches_Star_app r (String c s1) s2 H1 H2).
    + intros H.
      destruct (matches_Star_cons r _ H c s eq_refl) as [s1 [s2 [-> [H1 H2]]]].
      constructor; auto. now apply IH.
Qed.

Lemma test_matches (r : JS.regex) (s : string) :
  JS.test r s = true <-> matches r s.
Proof.
  revert r. induction s as [|c s IH]; intros r; simpl.
  - apply nullable_matches.
  - rewrite IH. apply deriv_matches.
Qed.

Lemma matches_Cat_inv (r1 r2 : JS.regex) (s : string) :
  matches (JS.Cat r1 r2) s <->
  exists s1 s2, s = s1 ++ s2 /\ matches r1 s1 /\ matches r2 s2.
Proof.
  split.
  - intros H. inversion H; subst. eauto.
  - intros [s1 [s2 [-> [H1 H2]]]]. now constructor.
Qed.

Lemma matches_Class_inv (p : ascii -> bool) (s : string) :
  matches (JS.Class p) s <-> exists c, s = String c "" /\ p c = true.
Proof.
  split.
  - intros H. inversion H; subst. eauto.
  - intros [c [-> H]]. now constructor.
Qed.

Lemma matches_Star_Class (p : ascii -> bool) (s : string) :
  matches (JS.Star (JS.Class p)) s <-> all_chars p s = true.
Proof.
  split.
  - intros H. remember (JS.Star (JS.Class p)) as q eqn:Eq.
    induction H as [| | | | | |r' s1 s2 H1 _ H2 IH2]; try discriminate.
    + reflexivity.
    + injection Eq as ->. apply matches_Class_inv in H1.
      destruct H1 as [c [-> Hc]]. unfold all_chars in *. simpl.
      rewrite Hc. now apply IH2.
  - induction s as [|c s IH]; unfold all_chars; simpl; intros H.
    + constructor.
    + apply andb_true_iff in H. destruct H as [Hc Hs].
      apply (matches_Star_app (JS.Class p) (String c "") s).
      * now constructor.
      * now apply IH.
Qed.

Lemma matches_Plus_Class (p : ascii -> bool) (s : string) :
  matches (JS.Plus (JS.Class p)) s <-> s <> "" /\ all_chars p s = true.
Proof.
  unfold JS.Plus. rewrite matches_Cat_inv. split.
  - intros [s1 [s2 [-> [H1 H2]]]].
    apply matches_Class_inv in H1. destruct H1 as [c [-> Hc]].
    apply matches_Star_Class in H2. split; [discriminate|].
    unfold all_chars in *. simpl. now rewrite Hc.
  - intros [Hne H]. destruct s as [|c s]; [congruence|].
    unfold all_chars in H. simpl in H. apply andb_true_iff in H.
    destruct H as [Hc Hs]. exists (String c ""), s.
    split; [reflexivity|]. split; [now constructor|].
    now apply matches_Star_Class.
Qed.

Lemma matches_char (c : ascii) (s : string) :
  matches (JS.Class (Ascii.eqb c)) s <-> s = String c "".
Proof.
  rewrite matches_Class_inv. split.
  - intros [x [-> H]]. apply Ascii.eqb_eq in H. now subst.
  - intros ->. exists c. split; auto. apply Ascii.eqb_refl.
Qed.

Lemma emailRegex_shape (s : string) :
  JS.test emailRegex s = true <-> email_shape s.
Proof.
  rewrite test_matches. unfold emailRegex, email_shape, plain. split.
  - intros H.
    apply matches_Cat_inv in H. destruct H as [a [s1 [-> [Ha H]]]].
    apply matches_Cat_inv in H. destruct H as [x [s2 [-> [Hx H]]]].
    apply matches_Cat_inv in H. destruct H as [b [s3 [-> [Hb H]]]].
    apply matches_Cat_inv in H. destruct H as [y [c [-> [Hy Hc]]]].
    apply matches_char in Hx, Hy. subst x y.
    apply matches_Plus_Class in Ha, Hb, Hc.
    exists a, b, c. auto.
  - intros [a [b [c [-> [Ha [Hb Hc]]]]]].
    apply matches_Plus_Class in Ha, Hb, Hc.
    apply matches_Cat_inv. exists a, ("@" ++ b ++ "." ++ c).
    split; [reflexivity|]. split; [exact Ha|].
    apply matches_Cat_inv. exists "@", (b ++ "." ++ c).
    split; [reflexivity|]. split; [now apply matches_char|].
    apply matches_Cat_inv. exists b, ("." ++ c).
    split; [reflexivity|]. split; [exact Hb|].
    apply matches_Cat_inv. exists ".", c.
    split; [reflexivity|]. split; [now apply matches_char | exact Hc].
Qed.

(** X1. [validateEmailFormat] tests the print of the email: it lets
    pass exactly the values whose print has the shape local@domain.tld
    with three non-empty parts that hold neither white space nor [@];
    every other value that has a print, so every other string and a
    missing email, raises the error with status code 400; a value
    without a print raises a [TypeError]; the state is not touched. *)
Theorem validateEmailFormat_accepts (email : JS.value) (w : world) :
  (forall s, JS.ToString email = Some s -> email_shape s ->
             validateEmailFormat email w = (Ok tt, w))
  /\ (forall s, JS.ToString email = Some s -> ~ email_shape s ->
                validateEmailFormat email w
                = (Throw (with_statusCode (new_Error "Invalid email format.") 400), w))
  /\ (JS.ToString email = None ->
      validateEmailFormat email w
      = (Throw (new_TypeError "Cannot convert object to primitive value"), w))
  /\ JS.ToString JS.VUndefined = Some "undefined"
  /\ (forall s, JS.ToString (JS.VString s) = Some s).
Proof.
  unfold validateEmailFormat. split; [|split; [|split; [|split]]].
  - intros s -> Hs. apply emailRegex_shape in Hs. cbn [or_TypeError].
    rewrite bind_ret. now rewrite Hs.
  - intros s -> Hn. cbn [or_TypeError]. rewrite bind_ret.
    destruct (JS.test emailRegex s) eqn:E; [|reflexivity].
    exfalso. apply Hn. now apply emailRegex_shape.
  - intros ->. reflexivity.
  - reflexivity.
  - reflexivity.
Qed.

(** *** Required fields *)

Lemma ensureRequiredFieldsPresent_first_missing (b : body)
    (present : list string) (f : string) (rest : list string) (w : world) :
  forallb (fun x => JS.ToBoolean (get b x)) present = true ->
  JS.ToBoolean (get b f) = false ->
  ensureRequiredFieldsPresent b (present ++ f :: rest) w
  = (Throw (with_statusCode (new_Error ("Please provide " ++ f ++ ".")) 400), w).
Proof.
  intros Hp Hf. induction present as [|x present IH]; simpl in *.
  - now rewrite Hf.
  - apply andb_true_iff in Hp. destruct Hp as [Hx Hp].
    rewrite Hx. simpl. auto.
Qed.

Lemma ensureRequiredFieldsPresent_passes (b : body) (fields : list string) (w : world) :
  fst (ensureRequiredFieldsPresent b fields w) = Ok tt
  <-> forallb (fun x => JS.ToBoolean (get b x)) fields = true.
Proof.
  induction fields as [|x fields IH]; simpl.
  - split; reflexivity.
  - destruct (JS.ToBoolean (get b x)); simpl.
    + exact IH.
    + split; discriminate.
Qed.

Lemma ToBoolean_false (v : JS.value) :
  JS.ToBoolean v = false
  <-> v = JS.VUndefined \/ v = JS.VNull \/ v = JS.VBool false
      \/ v = JS.VNumber "0" \/ v = JS.VNumber "NaN" \/ v = JS.VString "".
Proof.
  split.
  - destruct v as [| |[|]|p|s|l|o]; simpl; intros H; try discriminate; auto 7.
    + apply negb_false_iff, orb_true_iff in H.
      destruct H as [H|H]; apply String.eqb_eq in H; subst; auto 7.
    + destruct s; [auto 7 | discriminate].
  - intros [H|[H|[H|[H|[H|H]]]]]; subst; reflexivity.
Qed.

(** X2. [ensureRequiredFieldsPresent] goes through the fields in the order
    given and stops at the first whose value is falsy: it raises the
    error that names this field, with status code 400, whatever comes
    after it, and leaves the state alone.  It returns exactly when every
    field is truthy.  The falsy values are a missing field, [null],
    [false], the numbers zero and [NaN] and the empty string: a field
    that holds another number, [true], an array or an object counts as
    present. *)
Theorem ensureRequiredFieldsPresent_reports_first (b : body) (w : world) :
  (forall present f rest,
      forallb (fun x => JS.ToBoolean (get b x)) present = true ->
      JS.ToBoolean (get b f) = false ->
      ensureRequiredFieldsPresent b (present ++ f :: rest) w
      = (Throw (with_statusCode (new_Error ("Please provide " ++ f ++ ".")) 400), w))
  /\ (forall fields,
         fst (ensureRequiredFieldsPresent b fields w) = Ok tt
         <-> forall f, In f fields -> JS.ToBoolean (get b f) = true)
  /\ (forall fields, snd (ensureRequiredFieldsPresent b fields w) = w)
  /\ (forall v, JS.ToBoolean v = false
                <-> v = JS.VUndefined \/ v = JS.VNull \/ v = JS.VBool false
                    \/ v = JS.VNumber "0" \/ v = JS.VNumber "NaN"
                    \/ v = JS.VString "")
  /\ (forall f, (forall v, ~ In (f, v) b) -> get b f = JS.VUndefined).
Proof.
  split; [|split; [|split; [|split]]].
  - intros present f rest. apply ensureRequiredFieldsPresent_first_missing.
  - intros fields. rewrite ensureRequiredFieldsPresent_passes, forallb_forall.
    reflexivity.
  - intros fields. induction fields as [|x fields IH]; simpl; auto.
    destruct (JS.ToBoolean (get b x)); simpl; auto.
  - exact ToBoolean_false.
  - intros f Hf. induction b as [|[k v] b IH]; simpl; auto.
    destruct (String.eqb_spec k f) as [E|E].
    + exfalso. apply (Hf v). left. now rewrite E.
    + apply IH. intros v' Hin. apply (Hf v'). now right.
Qed.

(** *** Registration that fails its checks *)

Lemma registerUser_missing_field (b : body) (w : world)
    (present : list string) (f : string) (rest : list string) :
  ["first_name"; "last_name"; "email"; "password"] = (present ++ f :: rest)%list ->
  forallb (fun x => JS.ToBoolean (get b x)) present = true ->
  JS.ToBoolean (get b f) = false ->
  registerUser b w
  = (Ok (respond 400 ("Please provide " ++ f ++ ".")), set_connection false w).
Proof.
  intros E Hp Hf. unfold registerUser. rewrite E. unfold_monad.
  rewrite (ensureRequiredFieldsPresent_first_missing b present f rest _ Hp Hf).
  reflexivity.
Qed.

Lemma registerUser_malformed_email (b : body) (w : world) (s : string) :
  forallb (fun x => JS.ToBoolean (get b x))
          ["first_name"; "last_name"; "email"; "password"] = true ->
  JS.ToString (get b "email") = Some s ->
  JS.test emailRegex s = false ->
  registerUser b w
  = (Ok (respond 400 "Invalid email format."), set_connection false w).
Proof.
  intros Hp Hs Ht. unfold registerUser, validateEmailFormat. unfold_monad.
  rewrite (ensureRequiredFieldsPresent_ok b _ _ Hp), Hs, Ht. reflexivity.
Qed.

Lemma registerUser_email_without_print (b : body) (w : world) :
  forallb (fun x => JS.ToBoolean (get b x))
          ["first_name"; "last_name"; "email"; "password"] = true ->
  JS.ToString (get b "email") = None ->
  registerUser b w
  = (Ok (respond 500 "Cannot convert object to primitive value"),
     set_connection false w).
Proof.
  intros Hp Hs. unfold registerUser, validateEmailFormat. unfold_monad.
  rewrite (ensureRequiredFieldsPresent_ok b _ _ Hp), Hs. reflexivity.
Qed.

Lemma register_validation_fails (b : body) (w : world) :
  register_validates b = false ->
  exists r, registerUser b w = (Ok r, set_connection false w)
            /\ res_status r <> 201.
Proof.
  unfold register_validates, email_passes. intros H.
  destruct (JS.ToBoolean (get b "first_name")) eqn:H1.
  2:{ eexists. split; [|shelve].
      now apply (registerUser_missing_field b w [] "first_name" _ eq_refl). }
  destruct (JS.ToBoolean (get b "last_name")) eqn:H2.
  2:{ eexists. split; [|shelve].
      apply (registerUser_missing_field b w ["first_name"] "last_name" _ eq_refl);
        simpl; auto. now rewrite H1. }
  destruct (JS.ToBoolean (get b "email")) eqn:H3.
  2:{ eexists. split; [|shelve].
      apply (registerUser_missing_field b w ["first_name"; "last_name"] "email" _ eq_refl);
        simpl; auto. now rewrite H1, H2. }
  destruct (JS.ToBoolean (get b "password")) eqn:H4.
  2:{ eexists. split; [|shelve].
      apply (registerUser_missing_field b w ["first_name"; "last_name"; "email"]
               "password" _ eq_refl); simpl; auto. now rewrite H1, H2, H3. }
  simpl in H.
  assert (Hp : forallb (fun x => JS.ToBoolean (get b x))
                       ["first_name"; "last_name"; "email"; "password"] = true)
    by (simpl; now rewrite H1, H2, H3, H4).
  destruct (JS.ToString (get b "email")) as [s|] eqn:Hs; eexists; (split; [|shelve]).
  - now apply (registerUser_malformed_email b w s).
  - now apply registerUser_email_without_print.
  Unshelve. all: discriminate.
Qed.

(** X3. A registration that lacks a required field is answered 400 with
    the message that names the first such field in the order first name,
    last name, email, password; one with all four fields and an email of
    another shape is answered 400 with the message of the email check.
    In both cases no connection is taken, and tables and log are as
    before. *)
Theorem register_validation_error_answers_400 (b : body) (w : world) :
  (forall present f rest,
      ["first_name"; "last_name"; "email"; "password"] = (present ++ f :: rest)%list ->
      forallb (fun x => JS.ToBoolean (get b x)) present = true ->
      JS.ToBoolean (get b f) = false ->
      registerUser b w
      = (Ok (respond 400 ("Please provide " ++ f ++ ".")), set_connection false w))
  /\ (forall s,
         forallb (fun x => JS.ToBoolean (get b x))
                 ["first_name"; "last_name"; "email"; "password"] = true ->
         JS.ToString (get b "email") = Some s ->
         ~ email_shape s ->
         registerUser b w
         = (Ok (respond 400 "Invalid email format."), set_connection false w)).
Proof.
  split.
  - apply registerUser_missing_field.
  - intros s Hp Hs Hn. apply (registerUser_malformed_email b w s); auto.
    destruct (JS.test emailRegex s) eqn:E; auto.
    exfalso. apply Hn. now apply emailRegex_shape.
Qed.

(** *** A login that succeeds, and the token it issues *)

Lemma loginUser_success (b : body) (w : world) (e p : string)
    (u : User.t) (rest : list User.t) :
  login_validates b = true -> settled w ->
  get b "email" = JS.VString e -> get b "password" = JS.VString p ->
  matching e (users w) = u :: rest ->
  bcrypt_compare p (User.password_hash u) = true ->
  User.status u <> "blocked" ->
  loginUser b w
  = (Ok {| res_status := 200;
           res_json :=
             JObj [("message", JStr "Login successful!");
                   ("token", JStr (jwt_sign (issued_claims (User.id u) (User.email u) w)));
                   ("user",
                    JObj [("id", JNum (User.id u));
                          ("first_name", JStr (User.first_name u));
                          ("last_name", JStr (User.last_name u));
                          ("email", JStr (User.email u))])] |},
     {| users := map (stamp (User.id u) (now w)) (users w);
        auto_increment := auto_increment w; txn := None; connection := true;
        log := log w ++ [GetConnection; BeginTransaction;
                         Run (SelectLoginWhereEmail (JS.VString e));
                         Run (UpdateLastLoginDate (User.id u)); Commit; Release];
        now := now w; salt := salt w |}).
Proof.
  intros Hv Ht He Hp Hm Hc Hb.
  rewrite (loginUser_known_email b w e u rest Hv Ht He Hm), Hp, Hc.
  apply String.eqb_neq in Hb. rewrite Hb. reflexivity.
Qed.

(** X4. A login with an email that matches a stored user, the password
    that verifies and a status other than [blocked] is answered 200 with a
    token for the id and the email of that user, issued at the clock and
    expiring [expiresIn] later (ten minutes unless configured), and with
    the id, names and email of the user.  The login time is set to the
    clock on the rows with the id of the user and no row changes
    otherwise; the transaction is committed and the connection
    released. *)
Theorem login_success (b : body) (w : world) (e p : string)
    (u : User.t) (rest : list User.t) :
  login_validates b = true -> settled w ->
  get b "email" = JS.VString e -> get b "password" = JS.VString p ->
  matching e (users w) = u :: rest ->
  bcrypt_compare p (User.password_hash u) = true ->
  User.status u <> "blocked" ->
  exists r,
    fst (loginUser b w) = Ok r
    /\ res_status r = 200
    /\ token_of r = Some (jwt_sign {| userId := User.id u; claim_email := JS.VString (User.email u);
                                      iat := now w; exp := now w + expiresIn |})
    /\ (JWT_EXPIRES_IN = None -> expiresIn = 600)
    /\ json_field "user" (res_json r)
       = Some (JObj [("id", JNum (User.id u));
                     ("first_name", JStr (User.first_name u));
                     ("last_name", JStr (User.last_name u));
                     ("email", JStr (User.email u))])
    /\ users (snd (loginUser b w)) = map (stamp (User.id u) (now w)) (users w)
    /\ (forall v, User.id v <> User.id u -> stamp (User.id u) (now w) v = v)
    /\ (forall v, User.id v = User.id u ->
                  stamp (User.id u) (now w) v = User.set_last_login_date (Some (now w)) v)
    /\ txn (snd (loginUser b w)) = None
    /\ log (snd (loginUser b w))
       = (log w ++ [GetConnection; BeginTransaction; Run (SelectLoginWhereEmail (JS.VString e));
                    Run (UpdateLastLoginDate (User.id u)); Commit; Release])%list.
Proof.
  intros Hv Ht He Hp Hm Hc Hb.
  rewrite (loginUser_success b w e p u rest Hv Ht He Hp Hm Hc Hb).
  eexists. split; [reflexivity|]. simpl.
  repeat split; auto.
  - unfold expiresIn. now intros ->.
  - intros v Hn. unfold stamp. apply Z.eqb_neq in Hn. now rewrite Hn.
  - intros v Hn. unfold stamp. apply Z.eqb_eq in Hn. now rewrite Hn.
Qed.

Lemma bearer_token_issued (t : string) :
  no_space t = true -> bearer_token ("Bearer " ++ t) = Some t.
Proof.
  intros Hn.
  change ("Bearer " ++ t) with ("Bearer" ++ String " " t).
  rewrite bearer_token_second by reflexivity.
  unfold JS.split. now rewrite (split_aux_no_space t "" Hn).
Qed.

(** X5. The token a successful login issues opens the guard: as long as the
    clock is before its expiry, a request that carries it as
    [Bearer <token>] is let through with the id, email and status of the
    user the table then holds under the id of the token, unless that user
    is by then blocked, when it is answered 403, or gone, when it is
    answered 401.  The library is assumed to decode what it signed, to a
    token without a space. *)
Theorem issued_token_opens_guard (b : body) (w : world) (e p : string)
    (u : User.t) (rest : list User.t) :
  login_validates b = true -> settled w ->
  get b "email" = JS.VString e -> get b "password" = JS.VString p ->
  matching e (users w) = u :: rest ->
  bcrypt_compare p (User.password_hash u) = true ->
  User.status u <> "blocked" ->
  let c := issued_claims (User.id u) (User.email u) w in
  jwt_decode (jwt_sign c) = Some c ->
  no_space (jwt_sign c) = true -> jwt_sign c <> "" ->
  exists r,
    fst (loginUser b w) = Ok r /\ token_of r = Some (jwt_sign c)
    /\ forall w2, now w2 < now w + expiresIn ->
         fst (protect (Some ("Bearer " ++ jwt_sign c)) w2)
         = Ok (admit_user (User.id u) (view w2)).
Proof.
  intros Hv Ht He Hp Hm Hc Hb c Hd Hn Hne.
  rewrite (loginUser_success b w e p u rest Hv Ht He Hp Hm Hc Hb).
  eexists. split; [reflexivity|]. split; [reflexivity|].
  intros w2 Hw.
  rewrite (protect_verified ("Bearer " ++ jwt_sign c) (jwt_sign c) c w2);
    auto using bearer_token_issued.
Qed.

(** X6. The token a login issues is refused once the clock has reached its
    expiry, with the answer 401 of the expired-token branch and without a
    connection being taken; with a lifetime of zero, or less, it is refused
    from the moment it is issued. *)
Theorem issued_token_expires (b : body) (w : world) (e p : string)
    (u : User.t) (rest : list User.t) :
  login_validates b = true -> settled w ->
  get b "email" = JS.VString e -> get b "password" = JS.VString p ->
  matching e (users w) = u :: rest ->
  bcrypt_compare p (User.password_hash u) = true ->
  User.status u <> "blocked" ->
  let c := issued_claims (User.id u) (User.email u) w in
  jwt_decode (jwt_sign c) = Some c ->
  no_space (jwt_sign c) = true -> jwt_sign c <> "" ->
  exists r,
    fst (loginUser b w) = Ok r /\ token_of r = Some (jwt_sign c)
    /\ (forall w2, now w + expiresIn <= now w2 ->
          protect (Some ("Bearer " ++ jwt_sign c)) w2
          = (Ok (Answered
                   (respond 401 ("Not authorized, token expired at "
                                 ++ new_Date_toString ((now w + expiresIn) * 1000 * 1000)))),
             set_connection false w2))
    /\ (expiresIn <= 0 ->
        forall w2, now w <= now w2 ->
          exists r2, fst (protect (Some ("Bearer " ++ jwt_sign c)) w2) = Ok (Answered r2)
                     /\ res_status r2 = 401).
Proof.
  intros Hv Ht He Hp Hm Hc Hb c Hd Hn Hne.
  rewrite (loginUser_success b w e p u rest Hv Ht He Hp Hm Hc Hb).
  eexists. split; [reflexivity|]. split; [reflexivity|].
  assert (Hexp : forall w2, now w + expiresIn <= now w2 ->
            protect (Some ("Bearer " ++ jwt_sign c)) w2
            = (Ok (Answered
                     (respond 401 ("Not authorized, token expired at "
                                   ++ new_Date_toString ((now w + expiresIn) * 1000 * 1000)))),
               set_connection false w2)).
  { intros w2 Hw.
    apply (protect_expired ("Bearer " ++ jwt_sign c) (jwt_sign c) c w2);
      auto using bearer_token_issued. }
  split; [exact Hexp|].
  intros Hz w2 Hw. rewrite Hexp by lia. eexists. split; reflexivity.
Qed.

(** *** Registration followed by login *)

Lemma matching_registered (b : body) (w : world) (e : string) :
  get b "email" = JS.VString e -> matching e (users w) = [] ->
  matching e (users w ++ [registered b w]) = [registered b w].
Proof.
  intros He Hm. unfold matching in *. rewrite filter_app, Hm. simpl.
  rewrite He. simpl. now rewrite text_eqb_refl.
Qed.

Lemma register_validates_login (b : body) :
  register_validates b = true -> login_validates b = true.
Proof.
  unfold register_validates, login_validates. intros H.
  repeat (apply andb_true_iff in H; destruct H as [H ?]).
  repeat (apply andb_true_iff; split); auto.
Qed.

(** X7. After a registration with string fields and a fresh email, a
    login with the same email and password is answered 200 for the id
    that the registration assigned, provided [bcrypt.compare] accepts the
    password against the digest [bcrypt.hash] made of it. *)
Theorem register_then_login (b : body) (w : world) (e p : string) :
  register_validates b = true -> text_fields b -> settled w -> fresh_ids w ->
  get b "email" = JS.VString e -> get b "password" = JS.VString p ->
  matching e (users w) = [] ->
  bcrypt_compare p (bcrypt_hash p saltRounds (salt w)) = true ->
  exists r1 w1 r2,
    registerUser b w = (Ok r1, w1) /\ res_status r1 = 201
    /\ fst (loginUser b w1) = Ok r2 /\ res_status r2 = 200
    /\ json_field "userId" (res_json r1) = Some (JNum (auto_increment w))
    /\ json_field "user" (res_json r2)
       = Some (JObj [("id", JNum (auto_increment w));
                     ("first_name", JStr (text (get b "first_name")));
                     ("last_name", JStr (text (get b "last_name")));
                     ("email", JStr e)]).
Proof.
  intros Hv Htext Ht Hf He Hp Hm Hc.
  rewrite (registerUser_fresh b w e Hv Htext Ht Hf He Hm).
  eexists. eexists. eexists. split; [reflexivity|]. split; [reflexivity|].
  rewrite (loginUser_success b _ e p (registered b w) []
             (register_validates_login b Hv)); try reflexivity; auto.
  - simpl. rewrite He. auto.
  - simpl. now apply matching_registered.
  - simpl. now rewrite Hp.
  - discriminate.
Qed.

(** *** What the bulk operations leave behind *)

Lemma id_in_spec (ids : list JS.number) (u : User.t) :
  id_in ids u = true <-> In (JS.Num (User.id u)) ids.
Proof.
  unfold id_in. rewrite existsb_exists. split.
  - intros [[|z| |] [Hin H]]; try discriminate.
    apply Z.eqb_eq in H. now subst.
  - intros Hin. exists (JS.Num (User.id u)). split; auto. apply Z.eqb_refl.
Qed.

Lemma filter_head {A : Type} (p : A -> bool) (l : list A) (a : A) (rest : list A) :
  filter p l = a :: rest -> p a = true.
Proof.
  intros H. assert (Hin : In a (filter p l)) by (rewrite H; now left).
  apply filter_In in Hin. now destruct Hin.
Qed.

Lemma filter_id_map (f : User.t -> User.t) (k : Z) (rows : list User.t) :
  (forall u, User.id (f u) = User.id u) ->
  filter (fun u => User.id u =? k) (map f rows)
  = map f (filter (fun u => User.id u =? k) rows).
Proof.
  intros Hf. induction rows as [|u rows IH]; simpl; auto.
  rewrite Hf. destruct (User.id u =? k); simpl; now rewrite IH.
Qed.

Lemma filter_id_deleted (ids : list JS.number) (k : Z) (rows : list User.t) :
  In (JS.Num k) ids ->
  filter (fun u => User.id u =? k) (filter (fun u => negb (id_in ids u)) rows) = [].
Proof.
  intros Hin. induction rows as [|u rows IH]; simpl; auto.
  destruct (id_in ids u) eqn:Hu; simpl; auto.
  destruct (Z.eqb_spec (User.id u) k) as [E|_]; auto.
  exfalso. subst k. apply id_in_spec in Hin. congruence.
Qed.

Lemma id_set_status (s : string) (ids : list JS.number) (u : User.t) :
  User.id (if id_in ids u then User.set_status s u else u) = User.id u.
Proof. destruct (id_in ids u); reflexivity. Qed.

(** X8. A bulk status update takes effect at the guard with the next
    request.  After an update to a status spelled in any case, whose ids
    are numbers that the statement can carry, a verified and unexpired
    token of a user that is stored and is among the ids is answered 403
    when the status is [blocked], and is let through, with the new
    status attached, when it is [active].  After an update that the
    server refuses, as one of its ids is [Infinity], the guard finds the
    user as before. *)
Theorem status_update_reaches_guard (b : body) (w : world) (ids : list JS.value)
    (valid : list JS.number) (s h t : string) (c : claims)
    (u : User.t) (rest : list User.t) :
  get b "userIds" = JS.VArray ids -> get b "status" = JS.VString s ->
  includes ["active"; "blocked"] (JS.toLowerCase s) = true ->
  validUserIds ids = Some valid -> settled w ->
  JS.startsWith h "Bearer" = true -> bearer_token h = Some t -> t <> "" ->
  jwt_decode t = Some c -> now w < exp c ->
  In (JS.Num (userId c)) valid ->
  filter (fun x => User.id x =? userId c) (users w) = u :: rest ->
  fst (protect (Some h) (snd (updateMultipleUsersStatus b w)))
  = Ok (if forallb writable valid then
          if String.eqb (JS.toLowerCase s) "blocked"
          then Answered (respond 403 "Forbidden: Your account is blocked.")
          else Next (AuthRow.of_user (User.set_status "active" u))
        else
          if String.eqb (User.status u) "blocked"
          then Answered (respond 403 "Forbidden: Your account is blocked.")
          else Next (AuthRow.of_user u)).
Proof.
  intros Hb Hs Hok Hv Ht Hh Htok Hne Hd He Hin Hu.
  assert (Hvne : valid <> []) by (intros E; subst; contradiction).
  destruct (forallb writable valid) eqn:Hw.
  - rewrite (updateMultipleUsersStatus_run b w ids valid s Hb Hs Hok Hv Hvne Hw Ht).
    rewrite (protect_verified h t c _ Hh Htok Hne Hd) by exact He.
    cbn [fst snd view txn users]. unfold admit_user.
    rewrite (filter_id_map _ _ _ (id_set_status _ _)), Hu. cbn [map hd_error].
    assert (Hu' : id_in valid u = true).
    { apply id_in_spec. pose proof (filter_head _ _ _ _ Hu) as E.
      apply Z.eqb_eq in E. now rewrite E. }
    rewrite Hu'. cbn [User.status User.set_status].
    destruct (String.eqb (JS.toLowerCase s) "blocked") eqn:Eb; [reflexivity|].
    unfold includes in Hok. cbn [existsb] in Hok.
    rewrite Eb in Hok. rewrite !orb_false_r in Hok.
    apply String.eqb_eq in Hok. now rewrite Hok.
  - rewrite (updateMultipleUsersStatus_refused b w ids valid s Hb Hs Hok Hv Hw Ht).
    rewrite (protect_verified h t c _ Hh Htok Hne Hd) by exact He.
    cbn [fst snd view txn users rolled_back]. unfold admit_user.
    now rewrite Hu.
Qed.

(** X9. A bulk delete takes effect at the guard with the next request: a
    verified and unexpired token whose user id is among the ids of the
    delete is answered 401, user not found, whether or not the delete
    found a row, when the ids are numbers that the statement can carry.
    After a delete that the server refuses, as one of its ids is
    [Infinity], the guard finds what it found before. *)
Theorem deleted_user_token_rejected (b : body) (w : world) (ids : list JS.value)
    (valid : list JS.number) (h t : string) (c : claims) :
  get b "userIds" = JS.VArray ids -> validUserIds ids = Some valid -> settled w ->
  JS.startsWith h "Bearer" = true -> bearer_token h = Some t -> t <> "" ->
  jwt_decode t = Some c -> now w < exp c ->
  In (JS.Num (userId c)) valid ->
  fst (protect (Some h) (snd (deleteMultipleUsers b w)))
  = Ok (if forallb writable valid
        then Answered (respond 401 "Not authorized, user associated with token not found")
        else admit_user (userId c) (users w)).
Proof.
  intros Hb Hv Ht Hh Htok Hne Hd He Hin.
  assert (Hvne : valid <> []) by (intros E; subst; contradiction).
  destruct (forallb writable valid) eqn:Hw.
  - rewrite (deleteMultipleUsers_run b w ids valid Hb Hv Hvne Hw Ht).
    destruct (affected (id_in valid) (users w) =? 0) eqn:Ha;
      rewrite (protect_verified h t c _ Hh Htok Hne Hd) by exact He;
      cbn [fst snd view txn users]; unfold admit_user.
    + apply Z.eqb_eq in Ha. rewrite <- (affected_zero_keeps _ _ Ha).
      now rewrite (filter_id_deleted _ _ _ Hin).
    + now rewrite (filter_id_deleted _ _ _ Hin).
  - rewrite (deleteMultipleUsers_refused b w ids valid Hb Hv Hw Ht).
    rewrite (protect_verified h t c _ Hh Htok Hne Hd) by exact He.
    reflexivity.
Qed.

Lemma map_status_twice (s : string) (ids : list JS.number) (rows : list User.t) :
  map (fun u => if id_in ids u then User.set_status s u else u)
      (map (fun u => if id_in ids u then User.set_status s u else u) rows)
  = map (fun u => if id_in ids u then User.set_status s u else u) rows.
Proof.
  rewrite map_map. apply map_ext. intros u.
  destruct (id_in ids u) eqn:E; [|now rewrite E].
  unfold id_in in *. cbn [User.id User.set_status]. now rewrite E.
Qed.

Lemma affected_map_status (s : string) (ids : list JS.number) (rows : list User.t) :
  affected (id_in ids)
           (map (fun u => if id_in ids u then User.set_status s u else u) rows)
  = affected (id_in ids) rows.
Proof.
  unfold affected. f_equal.
  induction rows as [|u rows IH]; simpl; auto.
  destruct (id_in ids u) eqn:E.
  - unfold id_in in *. cbn [User.id User.set_status]. rewrite E. simpl. now rewrite IH.
  - rewrite E. exact IH.
Qed.

(** X10. A bulk status update changes statuses and nothing else.  The
    rows keep their number, their order and every other column; a row
    whose id is not among the ids kept is as before; when the ids are
    numbers that the statement can carry, a row whose id is among them
    has the status of the request in lower case, and otherwise no row
    changes.  The same update made again gives the same answer and
    leaves the table as the first one left it. *)
Theorem status_update_frame (b : body) (w : world) (ids : list JS.value)
    (valid : list JS.number) (s : string) :
  get b "userIds" = JS.VArray ids -> get b "status" = JS.VString s ->
  includes ["active"; "blocked"] (JS.toLowerCase s) = true ->
  validUserIds ids = Some valid -> valid <> [] -> settled w ->
  let w1 := snd (updateMultipleUsersStatus b w) in
  map (User.set_status "") (users w1) = map (User.set_status "") (users w)
  /\ filter (fun u => negb (id_in valid u)) (users w1)
     = filter (fun u => negb (id_in valid u)) (users w)
  /\ (forallb writable valid = true ->
      Forall (fun u => id_in valid u = true -> User.status u = JS.toLowerCase s)
             (users w1))
  /\ (forallb writable valid = false -> users w1 = users w)
  /\ fst (updateMultipleUsersStatus b w1) = fst (updateMultipleUsersStatus b w)
  /\ users (snd (updateMultipleUsersStatus b w1)) = users w1.
Proof.
  intros Hb Hs Hok Hv Hne Ht w1. subst w1.
  destruct (forallb writable valid) eqn:Hw.
  - rewrite (updateMultipleUsersStatus_run b w ids valid s Hb Hs Hok Hv Hne Hw Ht).
    cbn [snd users].
    split; [|split; [|split; [|split; [|split]]]].
    + rewrite map_map. apply map_ext. intros u.
      destruct (id_in valid u); reflexivity.
    + induction (users w) as [|u rows IH]; simpl; auto.
      destruct (id_in valid u) eqn:E.
      * unfold id_in in *. cbn [User.id User.set_status]. rewrite E. simpl. exact IH.
      * rewrite E. simpl. now rewrite IH.
    + intros _. apply Forall_forall. intros x Hx. apply in_map_iff in Hx.
      destruct Hx as [u [<- _]]. destruct (id_in valid u) eqn:E.
      * reflexivity.
      * intros E'. congruence.
    + discriminate.
    + rewrite (updateMultipleUsersStatus_run b _ ids valid s Hb Hs Hok Hv Hne Hw)
        by reflexivity.
      cbn [fst users]. now rewrite affected_map_status.
    + rewrite (updateMultipleUsersStatus_run b _ ids valid s Hb Hs Hok Hv Hne Hw)
        by reflexivity.
      cbn [snd users]. apply map_status_twice.
  - rewrite (updateMultipleUsersStatus_refused b w ids valid s Hb Hs Hok Hv Hw Ht).
    cbn [snd users rolled_back].
    split; [reflexivity|]. split; [reflexivity|].
    split; [discriminate|]. split; [reflexivity|].
    rewrite (updateMultipleUsersStatus_refused b _ ids valid s Hb Hs Hok Hv Hw)
      by reflexivity.
    split; reflexivity.
Qed.

(** *** Bulk requests that are refused *)

(** X11. The bulk handlers refuse a request before they take a connection:
    when [userIds] is not an array or is empty; for the status update,
    when the status is falsy or is a string that is neither [active] nor
    [blocked] in any case; and when no entry of [userIds] reads as a
    positive integer.  Each case is answered 400 with its own message,
    the check on [userIds] first.  A status that is truthy and not a
    string has no [toLowerCase], and an entry of [userIds] without a
    print cannot be read: the call throws and the request is answered
    500.  In every case tables and log are as before. *)
Theorem bulk_input_errors (b : body) (w : world) :
  ((forall ids, get b "userIds" <> JS.VArray ids) \/ get b "userIds" = JS.VArray [] ->
   deleteMultipleUsers b w
   = (Ok (respond 400 "Please provide an array of user IDs."), set_connection false w)
   /\ updateMultipleUsersStatus b w
      = (Ok (respond 400 "Please provide a non-empty array of user IDs."),
         set_connection false w))
  /\ (forall ids, get b "userIds" = JS.VArray ids -> ids <> [] ->
        validUserIds ids = Some [] ->
        deleteMultipleUsers b w
        = (Ok (respond 400 "No valid user IDs provided for deletion."),
           set_connection false w))
  /\ (forall ids, get b "userIds" = JS.VArray ids -> ids <> [] ->
        validUserIds ids = None ->
        deleteMultipleUsers b w
        = (Ok (respond 500 "An error occurred while deleting users."),
           set_connection false w))
  /\ (forall ids, get b "userIds" = JS.VArray ids -> ids <> [] ->
        JS.ToBoolean (get b "status") = false
        \/ (exists s, get b "status" = JS.VString s
                      /\ ~ In (JS.toLowerCase s) ["active"; "blocked"]) ->
        updateMultipleUsersStatus b w
        = (Ok (respond 400 "Invalid status provided. Must be 'active' or 'blocked'."),
           set_connection false w))
  /\ (forall ids, get b "userIds" = JS.VArray ids -> ids <> [] ->
        JS.ToBoolean (get b "status") = true ->
        JS.is_string (get b "status") = false ->
        updateMultipleUsersStatus b w
        = (Ok (respond 500 "An error occurred while updating user statuses."),
           set_connection false w))
  /\ (forall ids s, get b "userIds" = JS.VArray ids -> ids <> [] ->
        get b "status" = JS.VString s -> In (JS.toLowerCase s) ["active"; "blocked"] ->
        validUserIds ids = Some [] ->
        updateMultipleUsersStatus b w
        = (Ok (respond 400 "No valid user IDs provided for status update."),
           set_connection false w))
  /\ (forall ids s, get b "userIds" = JS.VArray ids -> ids <> [] ->
        get b "status" = JS.VString s -> In (JS.toLowerCase s) ["active"; "blocked"] ->
        validUserIds ids = None ->
        updateMultipleUsersStatus b w
        = (Ok (respond 500 "An error occurred while updating user statuses."),
           set_connection false w)).
Proof.
  split; [|split; [|split; [|split; [|split; [|split]]]]].
  - intros [H|H]; unfold deleteMultipleUsers, updateMultipleUsersStatus.
    + destruct (get b "userIds") as [| | | | |l|]; try (split; reflexivity).
      exfalso. exact (H l eq_refl).
    + rewrite H. split; reflexivity.
  - intros ids Hb Hne Hv. unfold deleteMultipleUsers. rewrite Hb.
    destruct ids as [|i ids]; [congruence|]. rewrite Hv. reflexivity.
  - intros ids Hb Hne Hv. unfold deleteMultipleUsers. rewrite Hb.
    destruct ids as [|i ids]; [congruence|]. rewrite Hv. reflexivity.
  - intros ids Hb Hne Hs. unfold updateMultipleUsersStatus. rewrite Hb.
    destruct ids as [|i ids]; [congruence|].
    destruct Hs as [Hs | [s [Hs Hn]]].
    + rewrite Hs. reflexivity.
    + rewrite Hs. destruct (JS.ToBoolean (JS.VString s)); [|reflexivity].
      cbn [negb JS.call_toLowerCase or_TypeError]. rewrite bind_ret.
      destruct (includes ["active"; "blocked"] (JS.toLowerCase s)) eqn:E;
        [|reflexivity].
      apply includes_In in E. exfalso. exact (Hn E).
  - intros ids Hb Hne Ht Hs. unfold updateMultipleUsersStatus. rewrite Hb, Ht.
    destruct ids as [|i ids]; [congruence|].
    destruct (get b "status"); try discriminate; reflexivity.
  - intros ids s Hb Hne Hs Hin Hv. unfold updateMultipleUsersStatus. rewrite Hb, Hs.
    destruct ids as [|i ids]; [congruence|].
    apply includes_In in Hin.
    rewrite (status_accepted_truthy s Hin).
    cbn [negb JS.call_toLowerCase or_TypeError]. rewrite bind_ret.
    rewrite Hin, Hv. reflexivity.
  - intros ids s Hb Hne Hs Hin Hv. unfold updateMultipleUsersStatus. rewrite Hb, Hs.
    destruct ids as [|i ids]; [congruence|].
    apply includes_In in Hin.
    rewrite (status_accepted_truthy s Hin).
    cbn [negb JS.call_toLowerCase or_TypeError]. rewrite bind_ret.
    rewrite Hin, Hv. reflexivity.
Qed.

(** *** Parameters and calls that may throw *)

Lemma text_parameter_cases (v : JS.value) :
  (exists e, text_parameter v = throw e /\ statusCode e = None)
  \/ (exists t, text_parameter v = ret t).
Proof.
  unfold text_parameter.
  destruct v; eauto; destruct (stored_as _); eauto.
Qed.

Lemma where_parameter_cases (v : JS.value) :
  (exists e, where_parameter v = throw e /\ statusCode e = None)
  \/ (exists p, where_parameter v = ret p).
Proof.
  unfold where_parameter.
  destruct v; eauto; destruct (equal_to _); eauto.
Qed.

Lemma bcrypt_compare_async_cases (data : JS.value) (hash : string) :
  (exists e, bcrypt_compare_async data hash = throw e)
  \/ (exists c, bcrypt_compare_async data hash = ret c).
Proof. unfold bcrypt_compare_async. destruct data; eauto. Qed.

Lemma after_let_connection {A : Type} (m : M A) (w : world) :
  (let_connection ;; m) w = m (set_connection false w).
Proof. reflexivity. Qed.

(** *** Computations that keep a part of the state *)

Lemma keeps_ret {A X : Type} (f : world -> X) (a : A) : keeps f (ret a).
Proof. intros w. reflexivity. Qed.

Lemma keeps_throw {A X : Type} (f : world -> X) (e : error) : keeps f (@throw A e).
Proof. intros w. reflexivity. Qed.

Lemma keeps_bind {A B X : Type} (f : world -> X) (m : M A) (k : A -> M B) :
  keeps f m -> (forall a, keeps f (k a)) -> keeps f (bind m k).
Proof.
  intros Hm Hk w. unfold bind. specialize (Hm w).
  destruct (m w) as [[a|e] w1]; simpl in *; [|exact Hm].
  now rewrite Hk.
Qed.

Lemma keeps_try {A X : Type} (f : world -> X) (body : M A)
    (handler : error -> M A) (cleanup : M unit) :
  keeps f body -> (forall e, keeps f (handler e)) -> keeps f cleanup ->
  keeps f (try_catch_finally body handler cleanup).
Proof.
  intros Hb Hh Hc w. unfold try_catch_finally. specialize (Hb w).
  destruct (body w) as [[a|e] w1]; simpl in Hb.
  - specialize (Hc w1). destruct (cleanup w1) as [[[]|e] w2]; simpl in *; congruence.
  - specialize (Hh e w1). destruct (handler e w1) as [r w2]. simpl in Hh.
    specialize (Hc w2). destruct (cleanup w2) as [[[]|e'] w3]; simpl in *; congruence.
Qed.

Lemma keeps_tables_emit (e : event) : keeps tables (emit e).
Proof. intros w. reflexivity. Qed.

Lemma keeps_tables_let_connection : keeps tables let_connection.
Proof. intros w. reflexivity. Qed.

Lemma keeps_tables_getConnection : keeps tables getConnection.
Proof. intros w. reflexivity. Qed.

Lemma keeps_tables_release_if_connection : keeps tables release_if_connection.
Proof. intros w. unfold_monad. destruct (connection w); reflexivity. Qed.

Lemma keeps_tables_query {A : Type} (q : statement) (f : list User.t -> A) :
  keeps tables (query q f).
Proof. intros w. reflexivity. Qed.

Lemma keeps_tables_verify (token : option string) : keeps tables (verify token).
Proof.
  intros w. unfold verify. destruct token as [[|c t]|]; try reflexivity.
  destruct (jwt_decode _); [|reflexivity].
  unfold_monad. destruct (_ <=? _); reflexivity.
Qed.

Lemma keeps_tables_protect (authorization : option string) :
  keeps tables (protect authorization).
Proof.
  unfold protect. apply keeps_bind; [apply keeps_tables_let_connection|].
  intros _. destruct (JS.truthy authorization && _); [|apply keeps_ret].
  apply keeps_try.
  - apply keeps_bind; [apply keeps_tables_verify|]. intros c.
    apply keeps_bind; [apply keeps_tables_getConnection|]. intros _.
    apply keeps_bind.
    + unfold getUserForAuth. apply keeps_bind; [apply keeps_tables_query|].
      intros rows. apply keeps_ret.
    + intros [u|]; [|apply keeps_ret].
      destruct (String.eqb _ _); apply keeps_ret.
  - intros e. destruct (String.eqb (name e) "JsonWebTokenError"); [apply keeps_ret|].
    destruct (String.eqb (name e) "TokenExpiredError"); apply keeps_ret.
  - apply keeps_tables_release_if_connection.
Qed.

Lemma keeps_tables_getAllUsers (sortBy sortOrder : JS.value) :
  keeps tables (getAllUsers sortBy sortOrder).
Proof.
  unfold getAllUsers. apply keeps_bind; [apply keeps_tables_let_connection|].
  intros _. apply keeps_try.
  - apply keeps_bind; [apply keeps_tables_getConnection|]. intros _.
    apply keeps_bind; [|intros rows; apply keeps_ret].
    unfold fetchAllUsersFromDB.
    apply keeps_bind; [destruct (effectiveSortOrder _); intros v; reflexivity|].
    intros d. apply keeps_tables_query.
  - intros e. apply keeps_ret.
  - apply keeps_tables_release_if_connection.
Qed.

(** X13. The guard, the list and the logout only read: whatever the header
    or the sort parameters and whatever the outcome, the committed table,
    the open transaction, if any, and the next id of the table are after
    the call what they were before. *)
Theorem guard_and_list_only_read (authorization : option string)
    (sortBy sortOrder : JS.value) (w : world) :
  tables (snd (protect authorization w)) = tables w
  /\ tables (snd (getAllUsers sortBy sortOrder w)) = tables w
  /\ tables (snd (logoutUser w)) = tables w.
Proof.
  split; [apply keeps_tables_protect|].
  split; [apply keeps_tables_getAllUsers | reflexivity].
Qed.

(** *** The connection is given back *)

Lemma inner_Run (q : statement) : inner (Run q).
Proof. split; discriminate. Qed.

Lemma pure_ret {A : Type} (a : A) : pure (ret a).
Proof. intros w. reflexivity. Qed.

Lemma pure_throw {A : Type} (e : error) : pure (@throw A e).
Proof. intros w. reflexivity. Qed.

Lemma pure_bind {A B : Type} (m : M A) (k : A -> M B) :
  pure m -> (forall a, pure (k a)) -> pure (bind m k).
Proof.
  intros Hm Hk w. unfold bind. specialize (Hm w).
  destruct (m w) as [[a|e] w1]; simpl in *; subst; [apply Hk | reflexivity].
Qed.

Lemma pure_get_world : pure get_world.
Proof. intros w. reflexivity. Qed.

Lemma pure_or_TypeError {A : Type} (v : option A) (msg : string) :
  pure (or_TypeError v msg).
Proof. destruct v; intros w; reflexivity. Qed.

Lemma pure_text_parameter (v : JS.value) : pure (text_parameter v).
Proof.
  destruct (text_parameter_cases v) as [[e [-> _]]|[t ->]];
    [apply pure_throw | apply pure_ret].
Qed.

Lemma pure_where_parameter (v : JS.value) : pure (where_parameter v).
Proof.
  destruct (where_parameter_cases v) as [[e [-> _]]|[t ->]];
    [apply pure_throw | apply pure_ret].
Qed.

Lemma pure_ensureRequiredFieldsPresent (b : body) (fields : list string) :
  pure (ensureRequiredFieldsPresent b fields).
Proof.
  induction fields as [|f fields IH]; simpl; [apply pure_ret|].
  destruct (negb _); [apply pure_throw | exact IH].
Qed.

Lemma pure_validateEmailFormat (email : JS.value) :
  pure (validateEmailFormat email).
Proof.
  unfold validateEmailFormat. apply pure_bind; [apply pure_or_TypeError|].
  intros s. destruct (negb _); [apply pure_throw | apply pure_ret].
Qed.

Lemma pure_verify (token : option string) : pure (verify token).
Proof.
  unfold verify. destruct token as [[|c t]|]; try apply pure_throw.
  destruct (jwt_decode _); [|apply pure_throw].
  apply pure_bind; [apply pure_get_world|]. intros w.
  destruct (_ <=? _); [apply pure_throw | apply pure_ret].
Qed.

Lemma pure_generateHashedPassword (p : JS.value) :
  pure (generateHashedPassword p).
Proof.
  unfold generateHashedPassword. destruct p; try apply pure_throw.
  apply pure_bind; [apply pure_get_world|]. intros w. apply pure_ret.
Qed.

Lemma pure_sign (id : Z) (email : JS.value) : pure (sign id email).
Proof.
  unfold sign. apply pure_bind; [apply pure_get_world|]. intros w. apply pure_ret.
Qed.

Lemma pure_bcrypt_compare_async (data : JS.value) (hash : string) :
  pure (bcrypt_compare_async data hash).
Proof.
  destruct (bcrypt_compare_async_cases data hash) as [[e ->]|[c ->]];
    [apply pure_throw | apply pure_ret].
Qed.

Lemma quiet_pure {A : Type} (m : M A) : pure m -> quiet m.
Proof.
  intros Hm w. rewrite (Hm w). split; [reflexivity|].
  exists []. split; [symmetry; apply app_nil_r | constructor].
Qed.

Lemma quiet_bind {A B : Type} (m : M A) (k : A -> M B) :
  quiet m -> (forall a, quiet (k a)) -> quiet (bind m k).
Proof.
  intros Hm Hk w. unfold bind. specialize (Hm w).
  destruct (m w) as [[a|e] w1]; simpl in *; [|exact Hm].
  destruct Hm as [Hc [l1 [Hl1 Hi1]]].
  destruct (Hk a w1) as [Hc2 [l2 [Hl2 Hi2]]].
  split; [congruence|]. exists (l1 ++ l2)%list.
  split; [now rewrite Hl2, Hl1, app_assoc | now apply Forall_app].
Qed.

Lemma quiet_emit (e : event) : inner e -> quiet (emit e).
Proof.
  intros He w. split; [reflexivity|]. exists [e]. split; [reflexivity|].
  now constructor.
Qed.

(** A step that changes the tables only. *)
Lemma quiet_tables (f : world -> list User.t) (g : world -> option (list User.t)) :
  quiet (fun w => (Ok tt, set_tables (f w) (g w) w)).
Proof.
  intros w. split; [reflexivity|]. exists []. simpl.
  split; [symmetry; apply app_nil_r | constructor].
Qed.

Lemma quiet_beginTransaction : quiet beginTransaction.
Proof.
  unfold beginTransaction. apply quiet_bind.
  - apply quiet_emit. split; discriminate.
  - intros _. apply (quiet_tables view (fun w => Some (view w))).
Qed.

Lemma quiet_commit : quiet commit.
Proof.
  unfold commit. apply quiet_bind.
  - apply quiet_emit. split; discriminate.
  - intros _. apply (quiet_tables view (fun _ => None)).
Qed.

Lemma quiet_rollback : quiet rollback.
Proof.
  unfold rollback. apply quiet_bind.
  - apply quiet_emit. split; discriminate.
  - intros _. apply (quiet_tables users (fun _ => None)).
Qed.

Lemma quiet_query {A : Type} (q : statement) (f : list User.t -> A) :
  quiet (query q f).
Proof.
  unfold query. apply quiet_bind; [apply quiet_emit, inner_Run|].
  intros _. apply quiet_pure. intros w. reflexivity.
Qed.

Lemma quiet_update (q : statement) (f : list User.t -> list User.t) :
  quiet (update q f).
Proof.
  unfold update. apply quiet_bind; [apply quiet_emit, inner_Run|].
  intros _ w. split; [destruct (txn w); reflexivity|].
  exists []. split; [|constructor].
  rewrite app_nil_r. destruct (txn w); reflexivity.
Qed.

Lemma quiet_insertNewUser (f l e : JS.value) (h : string) (j c : JS.value) :
  quiet (insertNewUser f l e h j c).
Proof.
  unfold insertNewUser.
  apply quiet_bind; [apply quiet_pure, pure_text_parameter|]. intros f'.
  apply quiet_bind; [apply quiet_pure, pure_text_parameter|]. intros l'.
  apply quiet_bind; [apply quiet_pure, pure_text_parameter|]. intros e'.
  apply quiet_bind; [apply quiet_pure, pure_text_parameter|]. intros j'.
  apply quiet_bind; [apply quiet_pure, pure_text_parameter|]. intros c'.
  assert (Hnull : quiet (emit (Run (InsertUser f l e h (or_null j) (or_null c))) ;;
                         @throw Z (new_Error "Column cannot be null"))).
  { apply quiet_bind; [apply quiet_emit, inner_Run|].
    intros _. apply quiet_pure, pure_throw. }
  destruct f' as [f'|], l' as [l'|], e' as [e'|]; try exact Hnull.
  intros w. unfold_monad.
  destruct (violates_unique_email e' (view w)); simpl.
  - split; [reflexivity|]. eexists. split; [reflexivity|].
    constructor; [apply inner_Run | constructor].
  - split; [destruct (txn w); reflexivity|].
    eexists. split; [destruct (txn w); reflexivity|].
    constructor; [apply inner_Run | constructor].
Qed.

Create HintDb quiet.

#[local] Hint Resolve quiet_beginTransaction quiet_commit quiet_rollback
  quiet_query quiet_update quiet_insertNewUser quiet_emit inner_Run : quiet.

#[local] Hint Extern 1 (quiet _) =>
  apply quiet_pure;
  first [ apply pure_ret | apply pure_throw | apply pure_get_world
        | apply pure_or_TypeError | apply pure_text_parameter
        | apply pure_where_parameter | apply pure_generateHashedPassword
        | apply pure_sign | apply pure_bcrypt_compare_async ] : quiet.

Ltac quiet_steps :=
  repeat first
    [ solve [auto with quiet]
    | apply quiet_bind; [solve [auto with quiet] | intros ?]
    | match goal with
      | |- quiet (match ?x with _ => _ end) => destruct x
      end ].

Lemma quiet_checkEmailAvailability (email : JS.value) :
  quiet (checkEmailAvailability email).
Proof. unfold checkEmailAvailability. quiet_steps. Qed.

Lemma quiet_updateUserLastLoginDate (id : Z) : quiet (updateUserLastLoginDate id).
Proof. unfold updateUserLastLoginDate. quiet_steps. Qed.

Lemma quiet_findUserByEmailInDB (email : JS.value) :
  quiet (findUserByEmailInDB email).
Proof. unfold findUserByEmailInDB. quiet_steps. Qed.

Lemma quiet_getUserForAuth (id : Z) : quiet (getUserForAuth id).
Proof. unfold getUserForAuth. quiet_steps. Qed.

Lemma quiet_fetchAllUsersFromDB (sortBy sortOrder : JS.value) :
  quiet (fetchAllUsersFromDB sortBy sortOrder).
Proof. unfold fetchAllUsersFromDB. quiet_steps. Qed.

Lemma quiet_deleteMultipleUsersFromDB (ids : list JS.number) :
  quiet (deleteMultipleUsersFromDB ids).
Proof. unfold deleteMultipleUsersFromDB. quiet_steps. Qed.

Lemma quiet_updateStatusForMultipleUsersInDB (ids : list JS.number) (s : string) :
  quiet (updateStatusForMultipleUsersInDB ids s).
Proof. unfold updateStatusForMultipleUsersInDB. quiet_steps. Qed.

#[local] Hint Resolve quiet_checkEmailAvailability quiet_updateUserLastLoginDate
  quiet_findUserByEmailInDB quiet_getUserForAuth quiet_fetchAllUsersFromDB
  quiet_deleteMultipleUsersFromDB quiet_updateStatusForMultipleUsersInDB : quiet.

Section Released.

Variable l0 : list event.

Lemma leads_pure {A : Type} (P : world -> Prop) (m : M A) :
  pure m -> leads P P m.
Proof. intros Hm w Hw. now rewrite Hm. Qed.

Lemma leads_weaken {A : Type} (P Q R : world -> Prop) (m : M A) :
  leads P Q m -> (forall w, Q w -> R w) -> leads P R m.
Proof. intros Hm H w Hw. apply H, Hm, Hw. Qed.

Lemma leads_prefix {A B : Type} (m : M A) (k : A -> M B) :
  pure m -> (forall a, leads (idle l0) (idle_or_held l0) (k a)) ->
  leads (idle l0) (idle_or_held l0) (bind m k).
Proof.
  intros Hm Hk w Hw. unfold bind. specialize (Hm w).
  destruct (m w) as [[a|e] w1]; simpl in *; subst.
  - now apply Hk.
  - now left.
Qed.

Lemma leads_ret {A : Type} (a : A) :
  leads (idle l0) (idle_or_held l0) (ret a).
Proof. intros w Hw. now left. Qed.

Lemma leads_throw {A : Type} (e : error) :
  leads (idle l0) (idle_or_held l0) (@throw A e).
Proof. intros w Hw. now left. Qed.

Lemma held_quiet {A : Type} (m : M A) (w : world) :
  quiet m -> held l0 w -> held l0 (snd (m w)).
Proof.
  intros Hm [Hc [l [Hl Hi]]]. destruct (Hm w) as [Hc' [l' [Hl' Hi']]].
  split; [congruence|]. exists (l ++ l')%list. split.
  - rewrite Hl', Hl, <- app_assoc. reflexivity.
  - now apply Forall_app.
Qed.

Lemma leads_connect {A : Type} (m : M A) :
  quiet m -> leads (idle l0) (idle_or_held l0) (getConnection ;; m).
Proof.
  intros Hm w [Hc Hl]. right.
  change ((getConnection ;; m) w)
    with (m (set_connection true
               {| users := users w; auto_increment := auto_increment w;
                  txn := txn w; connection := connection w;
                  log := log w ++ [GetConnection]; now := now w; salt := salt w |})).
  apply held_quiet; auto. split; [reflexivity|].
  exists []. simpl. split; [now rewrite Hl | constructor].
Qed.

Lemma leads_rollback_then_respond (r : response) :
  leads (idle_or_held l0) (idle_or_held l0) (rollback_if_connection ;; ret r).
Proof.
  intros w [[Hc Hl]|Hh].
  - left. unfold_monad. rewrite Hc. simpl. split; assumption.
  - right. apply held_quiet; auto.
    apply quiet_bind; [|intros _; apply quiet_pure, pure_ret].
    unfold rollback_if_connection.
    apply quiet_bind; [apply quiet_pure, pure_get_world|]. intros v.
    unfold when. destruct (connection v);
      [apply quiet_rollback | apply quiet_pure, pure_ret].
Qed.

Lemma released_after_cleanup (w : world) :
  idle_or_held l0 w -> released l0 (log (snd (release_if_connection w))).
Proof.
  intros [[Hc Hl]|[Hc [l [Hl Hi]]]]; unfold_monad; rewrite Hc; simpl.
  - now left.
  - right. exists l. split; auto. rewrite Hl, <- app_assoc. reflexivity.
Qed.

Lemma try_catch_finally_released {A : Type} (body : M A) (handler : error -> M A)
    (w : world) :
  leads (idle l0) (idle_or_held l0) body ->
  (forall e, leads (idle_or_held l0) (idle_or_held l0) (handler e)) ->
  idle l0 w ->
  released l0 (log (snd (try_catch_finally body handler release_if_connection w))).
Proof.
  intros Hb Hh Hw. unfold try_catch_finally. specialize (Hb w Hw).
  destruct (body w) as [[a|e] w1]; simpl in Hb.
  - pose proof (released_after_cleanup w1 Hb) as Hr.
    destruct (release_if_connection w1) as [[[]|e] w2]; exact Hr.
  - specialize (Hh e w1 Hb). destruct (handler e w1) as [r w2]. simpl in Hh.
    pose proof (released_after_cleanup w2 Hh) as Hr.
    destruct (release_if_connection w2) as [[[]|e'] w3]; exact Hr.
Qed.

End Released.

Ltac body_steps :=
  repeat first
    [ apply leads_ret
    | apply leads_throw
    | apply leads_connect; quiet_steps
    | apply leads_prefix;
      [ first [ apply pure_ensureRequiredFieldsPresent
              | apply pure_validateEmailFormat | apply pure_verify
              | apply pure_or_TypeError ]
      | intros ? ]
    | match goal with
      | |- leads _ _ (match ?x with _ => _ end) => destruct x
      end ].

(** X14. Every handler, and the guard, gives back the connection it took,
    on every path: the calls it makes on the pool and the connection are
    none at all or begin with [getConnection], end with [release] and
    hold neither of the two in between, whatever the request and the
    state, and also when a step throws. *)
Theorem connection_always_released (b : body) (sortBy sortOrder : JS.value)
    (authorization : option string) (w : world) :
  released (log w) (log (snd (loginUser b w)))
  /\ released (log w) (log (snd (registerUser b w)))
  /\ released (log w) (log (snd (updateMultipleUsersStatus b w)))
  /\ released (log w) (log (snd (deleteMultipleUsers b w)))
  /\ released (log w) (log (snd (getAllUsers sortBy sortOrder w)))
  /\ released (log w) (log (snd (protect authorization w))).
Proof.
  assert (Hidle : idle (log w) (set_connection false w)) by (split; reflexivity).
  split; [|split; [|split; [|split; [|split]]]].
  - unfold loginUser. rewrite after_let_connection.
    apply try_catch_finally_released; auto.
    + body_steps.
    + intros e. apply leads_rollback_then_respond.
  - unfold registerUser. rewrite after_let_connection.
    apply try_catch_finally_released; auto.
    + body_steps.
    + intros e. apply leads_rollback_then_respond.
  - unfold updateMultipleUsersStatus. rewrite after_let_connection.
    apply try_catch_finally_released; auto.
    + body_steps.
    + intros e. apply leads_rollback_then_respond.
  - unfold deleteMultipleUsers. rewrite after_let_connection.
    apply try_catch_finally_released; auto.
    + body_steps.
    + intros e. apply leads_rollback_then_respond.
  - unfold getAllUsers. rewrite after_let_connection.
    apply try_catch_finally_released; auto.
    + body_steps.
    + intros e. apply leads_pure, pure_ret.
  - unfold protect. rewrite after_let_connection.
    destruct (JS.truthy authorization && _); [|now left].
    apply try_catch_finally_released; auto.
    + body_steps.
    + intros e. apply leads_pure.
      destruct (String.eqb (name e) "JsonWebTokenError"); [apply pure_ret|].
      destruct (String.eqb (name e) "TokenExpiredError"); apply pure_ret.
Qed.

(** *** What a handler may do to the table *)

Ltac table_unchanged :=
  eexists; split; [reflexivity|]; split; [reflexivity|]; split; [reflexivity|];
  left; split; [discriminate | reflexivity].

Lemma loginUser_outcome (b : body) (w : world) :
  settled w ->
  exists r,
    fst (loginUser b w) = Ok r
    /\ settled (snd (loginUser b w))
    /\ auto_increment (snd (loginUser b w)) = auto_increment w
    /\ ((res_status r <> 200 /\ users (snd (loginUser b w)) = users w)
        \/ (res_status r = 200
            /\ exists id, users (snd (loginUser b w))
                          = map (stamp id (now w)) (users w))).
Proof.
  intros Ht. destruct (login_validates b) eqn:Hv.
  - destruct (login_validates_inv b Hv) as [Hp [s [Hs [Hre Hreq]]]].
    unfold loginUser, findUserByEmailInDB, validateEmailFormat.
    destruct (where_parameter_cases (get b "email")) as [[e [He _]]|[equal He]];
      rewrite He; unfold bcrypt_compare_async, updateUserLastLoginDate, sign;
      unfold_monad; rewrite Hreq, Hs; simpl; rewrite Hre; simpl;
      unfold view; simpl; unfold settled, view in Ht; rewrite ?Ht; simpl.
    + table_unchanged.
    + destruct (filter (fun u => equal (User.email u)) (users w)) as [|u rest];
        simpl; [table_unchanged|].
      destruct (get b "password") as [| |x|x|p|x|x]; simpl; try table_unchanged.
      destruct (bcrypt_compare p (User.password_hash u)); simpl;
        [|table_unchanged].
      destruct (String.eqb (User.status u) "blocked"); simpl; [table_unchanged|].
      eexists. split; [reflexivity|]. split; [reflexivity|]. split; [reflexivity|].
      right. split; [reflexivity|]. exists (User.id u). reflexivity.
  - rewrite (login_validation_fails b w Hv).
    eexists. split; [reflexivity|]. split; [exact Ht|]. split; [reflexivity|].
    left. split; [discriminate | reflexivity].
Qed.

(** An insert that is refused changes no table; one that goes through
    adds a row with the next id and an email that no row has. *)
Lemma insertNewUser_cases (f l e : JS.value) (h : string) (j c : JS.value)
    (w : world) :
  (exists err w1,
      insertNewUser f l e h j c w = (Throw err, w1)
      /\ statusCode err = None
      /\ tables w1 = tables w /\ connection w1 = connection w /\ now w1 = now w)
  \/ (exists row l1,
         insertNewUser f l e h j c w
         = (Ok (auto_increment w),
            {| users := match txn w with Some _ => users w
                                       | None => (users w ++ [row])%list end;
               auto_increment := auto_increment w + 1;
               txn := match txn w with Some rows => Some (rows ++ [row])%list
                                     | None => None end;
               connection := connection w; log := l1; now := now w;
               salt := salt w |})
         /\ User.id row = auto_increment w
         /\ User.last_login_date row = None
         /\ violates_unique_email (User.email row) (view w) = false).
Proof.
  unfold insertNewUser.
  destruct (text_parameter_cases f) as [[x [-> Hx]]|[f' ->]];
    [left; eexists; eexists; split; [reflexivity|]; repeat split; exact Hx|].
  destruct (text_parameter_cases l) as [[x [-> Hx]]|[l' ->]];
    [left; eexists; eexists; split; [reflexivity|]; repeat split; exact Hx|].
  destruct (text_parameter_cases e) as [[x [-> Hx]]|[e' ->]];
    [left; eexists; eexists; split; [reflexivity|]; repeat split; exact Hx|].
  destruct (text_parameter_cases (or_null j)) as [[x [-> Hx]]|[j' ->]];
    [left; eexists; eexists; split; [reflexivity|]; repeat split; exact Hx|].
  destruct (text_parameter_cases (or_null c)) as [[x [-> Hx]]|[c' ->]];
    [left; eexists; eexists; split; [reflexivity|]; repeat split; exact Hx|].
  rewrite !bind_ret.
  destruct f' as [f'|], l' as [l'|], e' as [e'|];
    try (left; eexists; eexists; split; [reflexivity|]; repeat split).
  unfold_monad. destruct (violates_unique_email e' (view w)) eqn:Hu; simpl.
  - left. eexists. eexists. split; [reflexivity|]. repeat split.
  - right. exists (inserted_row (auto_increment w) f' l' e' h j' c' (now w)).
    exists (log w ++ [Run (InsertUser f l e h (or_null j) (or_null c))])%list.
    split; [|repeat split; exact Hu].
    destruct (txn w); reflexivity.
Qed.

#[local] Arguments insertNewUser : simpl never.

Lemma registerUser_outcome (b : body) (w : world) :
  settled w -> fresh_ids w ->
  exists r,
    fst (registerUser b w) = Ok r
    /\ settled (snd (registerUser b w))
    /\ ((res_status r <> 201
         /\ users (snd (registerUser b w)) = users w
         /\ auto_increment (snd (registerUser b w)) = auto_increment w)
        \/ (res_status r = 201
            /\ exists row,
                 User.id row = auto_increment w
                 /\ violates_unique_email (User.email row) (users w) = false
                 /\ users (snd (registerUser b w)) = (users w ++ [row])%list
                 /\ auto_increment (snd (registerUser b w))
                    = auto_increment w + 1)).
Proof.
  intros Ht Hf. destruct (register_validates b) eqn:Hv.
  - destruct (register_validates_inv b Hv) as [_ [_ [_ [s [Hs [Hre Hreq]]]]]].
    unfold registerUser, checkEmailAvailability, validateEmailFormat.
    destruct (where_parameter_cases (get b "email")) as [[e [He Hsc]]|[equal He]];
      rewrite He; unfold generateHashedPassword, updateUserLastLoginDate, sign;
      unfold_monad; rewrite Hreq, Hs; simpl; rewrite Hre; simpl;
      unfold view; simpl; unfold settled, view in Ht; rewrite ?Ht; simpl.
    + eexists. split; [reflexivity|]. split; [reflexivity|].
      left. unfold statusCode_or_500. rewrite Hsc. simpl.
      split; [discriminate|]. split; reflexivity.
    + destruct (0 <? _); simpl.
      { eexists. split; [reflexivity|]. split; [reflexivity|].
        left. split; [discriminate|]. split; reflexivity. }
      destruct (get b "password") as [| |x|x|p|x|x]; simpl;
        try (eexists; split; [reflexivity|]; split; [reflexivity|];
             left; split; [discriminate|]; split; reflexivity).
      match goal with
      | |- context [insertNewUser ?f ?l ?e ?h ?j ?c ?w1] =>
          destruct (insertNewUser_cases f l e h j c w1)
            as [(err & w1' & E & Hsc & Htab & Hc & Hn)
               |(row & l1 & E & Hid & Hll & Hu)];
          rewrite E; clear E
      end; simpl.
      * simpl in Hc. repeat (rewrite Hc; simpl).
        unfold tables in Htab. simpl in Htab. injection Htab as Hu Htx Ha.
        eexists. split; [reflexivity|]. split; [reflexivity|].
        left. unfold statusCode_or_500. rewrite Hsc. simpl.
        split; [discriminate|]. rewrite Hu, Ha. split; reflexivity.
      * simpl in Hid, Hu. unfold view in Hu. simpl in Hu.
        eexists. split; [reflexivity|]. split; [reflexivity|].
        right. split; [reflexivity|].
        exists (User.set_last_login_date (Some (now w)) row). simpl.
        split; [exact Hid|]. split; [exact Hu|]. split; [|reflexivity].
        rewrite map_app. simpl. rewrite Hid, Z.eqb_refl.
        now rewrite (stamp_fresh_rows _ _ _ Hf).
  - destruct (register_validation_fails b w Hv) as [r [E Hr]]. rewrite E.
    eexists. split; [reflexivity|]. split; [exact Ht|].
    left. split; [exact Hr|]. split; reflexivity.
Qed.

Lemma deleteMultipleUsers_outcome (b : body) (w : world) :
  settled w ->
  exists r,
    fst (deleteMultipleUsers b w) = Ok r
    /\ settled (snd (deleteMultipleUsers b w))
    /\ auto_increment (snd (deleteMultipleUsers b w)) = auto_increment w
    /\ ((res_status r <> 200 /\ users (snd (deleteMultipleUsers b w)) = users w)
        \/ (res_status r = 200
            /\ exists ids, users (snd (deleteMultipleUsers b w))
                           = filter (fun u => negb (id_in ids u)) (users w))).
Proof.
  intros Ht.
  assert (Hrefused : forall r,
             deleteMultipleUsers b w = (Ok r, set_connection false w) ->
             res_status r <> 200 ->
             exists r,
               fst (deleteMultipleUsers b w) = Ok r
               /\ settled (snd (deleteMultipleUsers b w))
               /\ auto_increment (snd (deleteMultipleUsers b w)) = auto_increment w
               /\ ((res_status r <> 200 /\ users (snd (deleteMultipleUsers b w)) = users w)
                   \/ (res_status r = 200
                       /\ exists ids, users (snd (deleteMultipleUsers b w))
                                      = filter (fun u => negb (id_in ids u)) (users w)))).
  { intros r E Hr. rewrite E. exists r. split; [reflexivity|].
    split; [exact Ht|]. split; [reflexivity|].
    left. split; [exact Hr | reflexivity]. }
  destruct (get b "userIds") as [| | | | |ids|] eqn:Hb;
    try (eapply Hrefused;
         [unfold deleteMultipleUsers; rewrite Hb; reflexivity | discriminate]).
  destruct ids as [|i ids].
  { eapply Hrefused;
      [unfold deleteMultipleUsers; rewrite Hb; reflexivity | discriminate]. }
  destruct (validUserIds (i :: ids)) as [[|n valid]|] eqn:Hv;
    try (eapply Hrefused;
         [unfold deleteMultipleUsers; rewrite Hb, Hv; reflexivity | discriminate]).
  destruct (forallb writable (n :: valid)) eqn:Hw.
  - rewrite (deleteMultipleUsers_run b w (i :: ids) (n :: valid) Hb Hv)
      by (auto; discriminate).
    destruct (affected (id_in (n :: valid)) (users w) =? 0).
    + eexists. split; [reflexivity|]. split; [reflexivity|]. split; [reflexivity|].
      left. split; [discriminate | reflexivity].
    + eexists. split; [reflexivity|]. split; [reflexivity|]. split; [reflexivity|].
      right. split; [reflexivity|]. eexists. reflexivity.
  - rewrite (deleteMultipleUsers_refused b w (i :: ids) (n :: valid) Hb Hv Hw Ht).
    table_unchanged.
Qed.

Lemma updateMultipleUsersStatus_outcome (b : body) (w : world) :
  settled w ->
  exists r,
    fst (updateMultipleUsersStatus b w) = Ok r
    /\ settled (snd (updateMultipleUsersStatus b w))
    /\ auto_increment (snd (updateMultipleUsersStatus b w)) = auto_increment w
    /\ ((res_status r <> 200 /\ users (snd (updateMultipleUsersStatus b w)) = users w)
        \/ (res_status r = 200
            /\ exists ids s,
                 users (snd (updateMultipleUsersStatus b w))
                 = map (fun u => if id_in ids u then User.set_status s u else u)
                       (users w))).
Proof.
  intros Ht.
  assert (Hrefused : forall r,
             updateMultipleUsersStatus b w = (Ok r, set_connection false w) ->
             res_status r <> 200 ->
             exists r,
               fst (updateMultipleUsersStatus b w) = Ok r
               /\ settled (snd (updateMultipleUsersStatus b w))
               /\ auto_increment (snd (updateMultipleUsersStatus b w)) = auto_increment w
               /\ ((res_status r <> 200
                    /\ users (snd (updateMultipleUsersStatus b w)) = users w)
                   \/ (res_status r = 200
                       /\ exists ids s,
                            users (snd (updateMultipleUsersStatus b w))
                            = map (fun u => if id_in ids u then User.set_status s u else u)
                                  (users w)))).
  { intros r E Hr. rewrite E. exists r. split; [reflexivity|].
    split; [exact Ht|]. split; [reflexivity|].
    left. split; [exact Hr | reflexivity]. }
  destruct (get b "userIds") as [| | | | |ids|] eqn:Hb;
    try (eapply Hrefused;
         [unfold updateMultipleUsersStatus; rewrite Hb; reflexivity | discriminate]).
  destruct ids as [|i ids].
  { eapply Hrefused;
      [unfold updateMultipleUsersStatus; rewrite Hb; reflexivity | discriminate]. }
  destruct (JS.ToBoolean (get b "status")) eqn:Htruthy.
  2:{ eapply Hrefused;
        [unfold updateMultipleUsersStatus; rewrite Hb, Htruthy; reflexivity
        | discriminate]. }
  destruct (get b "status") as [| |x|x|s|x|x] eqn:Hs;
    try (eapply Hrefused;
         [unfold updateMultipleUsersStatus; rewrite Hb, Hs, Htruthy; reflexivity
         | discriminate]).
  destruct (includes ["active"; "blocked"] (JS.toLowerCase s)) eqn:Hok.
  2:{ eapply Hrefused;
        [unfold updateMultipleUsersStatus; rewrite Hb, Hs, Htruthy;
         cbn [negb JS.call_toLowerCase or_TypeError]; rewrite bind_ret, Hok;
         reflexivity
        | discriminate]. }
  destruct (validUserIds (i :: ids)) as [[|n valid]|] eqn:Hv;
    try (eapply Hrefused;
         [unfold updateMultipleUsersStatus; rewrite Hb, Hs, Htruthy;
          cbn [negb JS.call_toLowerCase or_TypeError]; rewrite bind_ret, Hok, Hv;
          reflexivity
         | discriminate]).
  destruct (forallb writable (n :: valid)) eqn:Hw.
  - rewrite (updateMultipleUsersStatus_run b w (i :: ids) (n :: valid) s Hb Hs Hok Hv)
      by (auto; discriminate).
    cbn [fst snd users auto_increment].
    destruct (affected (id_in (n :: valid)) (users w) =? 0) eqn:Ha.
    + eexists. split; [reflexivity|]. split; [reflexivity|]. split; [reflexivity|].
      left. split; [discriminate|].
      apply Z.eqb_eq in Ha. now apply affected_zero_maps.
    + eexists. split; [reflexivity|]. split; [reflexivity|]. split; [reflexivity|].
      right. split; [reflexivity|]. eexists. eexists. reflexivity.
  - rewrite (updateMultipleUsersStatus_refused b w (i :: ids) (n :: valid) s
               Hb Hs Hok Hv Hw Ht).
    table_unchanged.
Qed.

(** X15. The table changes only when a request succeeds.  On a connection
    without pending changes, a login that is not answered 200, a
    registration that is not answered 201 and a bulk delete or status
    update that is not answered 200 leave the committed table as it was,
    and no change is pending afterwards, whatever the request. *)
Theorem table_changes_only_on_success (b : body) (w : world) :
  settled w -> fresh_ids w ->
  (forall r, fst (loginUser b w) = Ok r -> res_status r <> 200 ->
             users (snd (loginUser b w)) = users w)
  /\ (forall r, fst (registerUser b w) = Ok r -> res_status r <> 201 ->
                users (snd (registerUser b w)) = users w
                /\ auto_increment (snd (registerUser b w)) = auto_increment w)
  /\ (forall r, fst (deleteMultipleUsers b w) = Ok r -> res_status r <> 200 ->
                users (snd (deleteMultipleUsers b w)) = users w)
  /\ (forall r, fst (updateMultipleUsersStatus b w) = Ok r -> res_status r <> 200 ->
                users (snd (updateMultipleUsersStatus b w)) = users w)
  /\ settled (snd (loginUser b w)) /\ settled (snd (registerUser b w))
  /\ settled (snd (deleteMultipleUsers b w))
  /\ settled (snd (updateMultipleUsersStatus b w)).
Proof.
  intros Ht Hf.
  destruct (loginUser_outcome b w Ht) as [r1 [E1 [S1 [_ H1]]]].
  destruct (registerUser_outcome b w Ht Hf) as [r2 [E2 [S2 H2]]].
  destruct (deleteMultipleUsers_outcome b w Ht) as [r3 [E3 [S3 [_ H3]]]].
  destruct (updateMultipleUsersStatus_outcome b w Ht) as [r4 [E4 [S4 [_ H4]]]].
  split; [|split; [|split; [|split]]]; [| | | |auto].
  - intros r E Hr. rewrite E1 in E. injection E as <-.
    destruct H1 as [[_ H]|[H _]]; [exact H | contradiction].
  - intros r E Hr. rewrite E2 in E. injection E as <-.
    destruct H2 as [[_ H]|[H _]]; [exact H | contradiction].
  - intros r E Hr. rewrite E3 in E. injection E as <-.
    destruct H3 as [[_ H]|[H _]]; [exact H | contradiction].
  - intros r E Hr. rewrite E4 in E. injection E as <-.
    destruct H4 as [[_ H]|[H _]]; [exact H | contradiction].
Qed.

(** *** Tables that stay consistent *)
(** *** Tables that stay consistent *)

Lemma unique_keys_filter {K : Type} (key : User.t -> K) (keep : User.t -> bool)
    (rows : list User.t) :
  NoDup (map key rows) -> NoDup (map key (filter keep rows)).
Proof.
  intros H. induction rows as [|u rows IH]; [exact H|].
  cbn [map filter] in *. apply NoDup_cons_iff in H. destruct H as [Hn Hd].
  destruct (keep u); [|auto].
  cbn [map]. constructor; [|auto].
  intros Hin. apply Hn.
  apply in_map_iff in Hin. destruct Hin as [x [E Hx]].
  apply filter_In in Hx. apply in_map_iff. exists x.
  split; [exact E | exact (proj1 Hx)].
Qed.

Lemma map_same_key {B : Type} (f : User.t -> B) (g : User.t -> User.t)
    (rows : list User.t) :
  (forall u, f (g u) = f u) -> map f (map g rows) = map f rows.
Proof. intros H. rewrite map_map. apply map_ext. exact H. Qed.

Lemma stamp_keeps (id t : Z) (u : User.t) :
  User.id (stamp id t u) = User.id u /\ User.email (stamp id t u) = User.email u.
Proof. unfold stamp. destruct (User.id u =? id); split; reflexivity. Qed.

Lemma set_status_keeps (ids : list JS.number) (s : string) (u : User.t) :
  User.id (if id_in ids u then User.set_status s u else u) = User.id u
  /\ User.email (if id_in ids u then User.set_status s u else u) = User.email u.
Proof. destruct (id_in ids u); split; reflexivity. Qed.

Lemma not_stored_weight (e : string) (rows : list User.t) :
  violates_unique_email e rows = false ->
  ~ In (weight_string e) (map (fun u => weight_string (User.email u)) rows).
Proof.
  unfold violates_unique_email. intros Hm Hin.
  apply in_map_iff in Hin. destruct Hin as [u [E Hu]].
  assert (Hx : existsb (fun u => text_eqb (User.email u) e) rows = true).
  { apply existsb_exists. exists u. split; auto. unfold text_eqb. rewrite E.
    destruct weights_compare_preorder as [A _ _].
    specialize (A (weight_string e) (weight_string e)).
    destruct (weights_compare (weight_string e) (weight_string e)); simpl in A;
      congruence. }
  congruence.
Qed.

Lemma consistent_same_tables (w w1 : world) :
  tables w1 = tables w -> consistent w -> consistent w1.
Proof.
  unfold tables, consistent, settled, fresh_ids, view.
  intros E. injection E as Eu Et Ea. rewrite Eu, Et, Ea. auto.
Qed.

Lemma consistent_rows (w w1 : world) (f : User.t -> User.t) :
  consistent w -> settled w1 -> auto_increment w1 = auto_increment w ->
  users w1 = map f (users w) ->
  (forall u, User.id (f u) = User.id u /\ User.email (f u) = User.email u) ->
  consistent w1.
Proof.
  intros (Hs & Hf & Hi & He) Hs1 Ha Hu Hk. unfold consistent.
  split; [exact Hs1|]. unfold fresh_ids, unique_ids, unique_emails in *.
  rewrite Hu, Ha. split; [|split].
  - apply Forall_map. eapply Forall_impl; [|exact Hf].
    intros u Hlt. simpl. now rewrite (proj1 (Hk u)).
  - rewrite (map_same_key User.id f); auto. intros u. apply Hk.
  - rewrite (map_same_key (fun u => weight_string (User.email u)) f); auto.
    intros u. simpl. now rewrite (proj2 (Hk u)).
Qed.

Lemma consistent_filtered (w w1 : world) (p : User.t -> bool) :
  consistent w -> settled w1 -> auto_increment w1 = auto_increment w ->
  users w1 = filter p (users w) -> consistent w1.
Proof.
  intros (Hs & Hf & Hi & He) Hs1 Ha Hu. unfold consistent.
  split; [exact Hs1|]. unfold fresh_ids, unique_ids, unique_emails in *.
  rewrite Hu, Ha. split; [|split].
  - apply Forall_forall. intros u Hin. apply filter_In in Hin.
    rewrite Forall_forall in Hf. now apply Hf.
  - now apply unique_keys_filter.
  - now apply unique_keys_filter.
Qed.

Lemma consistent_inserted (w w1 : world) (row : User.t) :
  consistent w -> settled w1 ->
  User.id row = auto_increment w ->
  violates_unique_email (User.email row) (users w) = false ->
  users w1 = (users w ++ [row])%list ->
  auto_increment w1 = auto_increment w + 1 ->
  consistent w1.
Proof.
  intros (Hs & Hf & Hi & He) Hs1 Hid Hm Hu Ha. unfold consistent.
  split; [exact Hs1|]. unfold fresh_ids, unique_ids, unique_emails in *.
  rewrite Hu, Ha, !map_app. cbn [map]. split; [|split].
  - apply Forall_app. split.
    + eapply Forall_impl; [|exact Hf]. intros u Hlt. simpl in *. lia.
    + constructor; [simpl; lia | constructor].
  - apply NoDup_app; [exact Hi | constructor; [intros [] | constructor] |].
    intros a Hin [E|[]]. subst a.
    apply in_map_iff in Hin. destruct Hin as [u [E Hin]].
    rewrite Forall_forall in Hf. specialize (Hf u Hin). simpl in Hf. lia.
  - apply NoDup_app; [exact He | constructor; [intros [] | constructor] |].
    intros a Hin [E|[]]. subst a.
    now apply (not_stored_weight (User.email row) (users w)).
Qed.

(** X16. Every handler keeps the table consistent.  If no change is
    pending, every id is below the next id to assign, and no two rows share
    an id or an email (emails compared as the unique index compares them),
    then the same holds after a login, a registration, a bulk delete, a
    bulk status update, a listing and the guard, whatever the request. *)
Theorem handlers_keep_consistency (b : body) (sortBy sortOrder : JS.value)
    (authorization : option string) (w : world) :
  consistent w ->
  consistent (snd (loginUser b w))
  /\ consistent (snd (registerUser b w))
  /\ consistent (snd (deleteMultipleUsers b w))
  /\ consistent (snd (updateMultipleUsersStatus b w))
  /\ consistent (snd (getAllUsers sortBy sortOrder w))
  /\ consistent (snd (protect authorization w)).
Proof.
  intros Hc. pose proof Hc as (Ht & Hf & _).
  destruct (loginUser_outcome b w Ht) as [r1 [_ [S1 [A1 H1]]]].
  destruct (registerUser_outcome b w Ht Hf) as [r2 [_ [S2 H2]]].
  destruct (deleteMultipleUsers_outcome b w Ht) as [r3 [_ [S3 [A3 H3]]]].
  destruct (updateMultipleUsersStatus_outcome b w Ht) as [r4 [_ [S4 [A4 H4]]]].
  split; [|split; [|split; [|split; [|split]]]].
  - destruct H1 as [[_ H]|[_ [id H]]].
    + apply (consistent_rows w _ (fun u => u) Hc S1 A1).
      * now rewrite map_id.
      * auto.
    + apply (consistent_rows w _ _ Hc S1 A1 H). intros u. apply stamp_keeps.
  - destruct H2 as [[_ [H A2]]|[_ [row [Hid [Hm [H A2]]]]]].
    + apply (consistent_rows w _ (fun u => u) Hc S2 A2).
      * now rewrite map_id.
      * auto.
    + exact (consistent_inserted w _ row Hc S2 Hid Hm H A2).
  - destruct H3 as [[_ H]|[_ [ids H]]].
    + apply (consistent_rows w _ (fun u => u) Hc S3 A3).
      * now rewrite map_id.
      * auto.
    + exact (consistent_filtered w _ _ Hc S3 A3 H).
  - destruct H4 as [[_ H]|[_ [ids [s H]]]].
    + apply (consistent_rows w _ (fun u => u) Hc S4 A4).
      * now rewrite map_id.
      * auto.
    + apply (consistent_rows w _ _ Hc S4 A4 H). intros u. apply set_status_keeps.
  - apply (consistent_same_tables w); [|exact Hc].
    apply keeps_tables_getAllUsers.
  - apply (consistent_same_tables w); [|exact Hc].
    apply keeps_tables_protect.
Qed.

(** *** Listing *)

Lemma effectiveSortBy_or_default (sortBy : JS.value) :
  effectiveSortBy (or_default sortBy "last_login_date") = effectiveSortBy sortBy.
Proof.
  unfold or_default. destruct (JS.ToBoolean sortBy) eqn:E; [reflexivity|].
  unfold effectiveSortBy. destruct sortBy; try reflexivity.
  rewrite E. reflexivity.
Qed.

Lemma effectiveSortOrder_or_default (sortOrder : JS.value) :
  effectiveSortOrder (or_default sortOrder "DESC") = effectiveSortOrder sortOrder.
Proof.
  unfold or_default. destruct (JS.ToBoolean sortOrder) eqn:E; [reflexivity|].
  unfold effectiveSortOrder. rewrite E. reflexivity.
Qed.

Lemma getAllUsers_run (sortBy sortOrder : JS.value) (w : world) :
  getAllUsers sortBy sortOrder w
  = match effectiveSortOrder sortOrder with
    | Some dir =>
        let order := orderByClause (effectiveSortBy sortBy) dir in
        (Ok {| res_status := 200;
               res_json :=
                 JObj [("message", JStr "Users retrieved successfully!");
                       ("count", JNum (Z.of_nat (List.length (view w))));
                       ("users", JArr (map (select_row columnsToSelect)
                                           (order_by order (view w))))] |},
         {| users := users w; auto_increment := auto_increment w; txn := txn w;
            connection := true;
            log := log w ++ [GetConnection; Run (SelectAllUsers order); Release];
            now := now w; salt := salt w |})
    | None =>
        (Ok (respond 500 "An error occurred while retrieving users."),
         {| users := users w; auto_increment := auto_increment w; txn := txn w;
            connection := true; log := log w ++ [GetConnection; Release];
            now := now w; salt := salt w |})
    end.
Proof.
  unfold getAllUsers, fetchAllUsersFromDB.
  rewrite effectiveSortBy_or_default, effectiveSortOrder_or_default.
  destruct (effectiveSortOrder sortOrder) as [dir|].
  - unfold_monad. simpl. rewrite <- !app_assoc. simpl.
    rewrite length_map.
    rewrite <- (Permutation_length (order_by_perm _ (view w))).
    reflexivity.
  - unfold_monad. simpl. rewrite <- !app_assoc. reflexivity.
Qed.

(** X17. The list counts every user.  With a sort order that is missing,
    empty or a string, [getAllUsers] answers 200 with the rows of the
    table, each once, and [count] is their number.  With a sort order
    that is an array or an object the call of [toUpperCase] throws: the
    answer is 500, the connection is taken and released and no statement
    is run.  A sort key outside the allow-list and an order that is a
    string other than [ASC] in upper case give the very run that the
    request without the parameter gives, and the request without
    parameters is the one for [last_login_date], [DESC]. *)
Theorem list_counts_every_user (sortBy sortOrder : JS.value) (w : world) :
  (JS.ToBoolean sortOrder = false \/ JS.is_string sortOrder = true ->
   exists rows,
      fst (getAllUsers sortBy sortOrder w)
      = Ok {| res_status := 200;
              res_json :=
                JObj [("message", JStr "Users retrieved successfully!");
                      ("count", JNum (Z.of_nat (List.length (view w))));
                      ("users", JArr (map (select_row columnsToSelect) rows))] |}
      /\ Permutation (view w) rows)
  /\ (JS.ToBoolean sortOrder = true -> JS.is_string sortOrder = false ->
      getAllUsers sortBy sortOrder w
      = (Ok (respond 500 "An error occurred while retrieving users."),
         {| users := users w; auto_increment := auto_increment w; txn := txn w;
            connection := true; log := log w ++ [GetConnection; Release];
            now := now w; salt := salt w |}))
  /\ ((forall s, sortBy = JS.VString s -> ~ In s allowedSortBy) ->
      getAllUsers sortBy sortOrder w = getAllUsers JS.VUndefined sortOrder w)
  /\ (forall s, sortOrder = JS.VString s -> JS.toUpperCase s <> "ASC" ->
                getAllUsers sortBy sortOrder w = getAllUsers sortBy JS.VUndefined w)
  /\ getAllUsers JS.VUndefined JS.VUndefined w
     = getAllUsers (JS.VString "last_login_date") (JS.VString "DESC") w.
Proof.
  split; [|split; [|split; [|split]]].
  - intros H. rewrite getAllUsers_run.
    destruct (effectiveSortOrder sortOrder) as [dir|] eqn:E.
    + cbn [fst]. eexists. split; [reflexivity|]. apply order_by_perm.
    + apply effectiveSortOrder_throws in E. destruct E as [E1 E2].
      destruct H; congruence.
  - intros H1 H2. rewrite getAllUsers_run.
    assert (E : effectiveSortOrder sortOrder = None)
      by (apply effectiveSortOrder_throws; auto).
    now rewrite E.
  - intros Hs. rewrite !getAllUsers_run.
    assert (E : effectiveSortBy sortBy = effectiveSortBy JS.VUndefined).
    { unfold effectiveSortBy. destruct sortBy as [| | | |s| |]; try reflexivity.
      destruct (includes allowedSortBy s) eqn:Hi.
      - apply includes_In in Hi. exfalso. exact (Hs s eq_refl Hi).
      - rewrite andb_false_r. reflexivity. }
    rewrite E. reflexivity.
  - intros s -> Hs. rewrite !getAllUsers_run.
    assert (E : effectiveSortOrder (JS.VString s) = effectiveSortOrder JS.VUndefined).
    { unfold effectiveSortOrder. cbn [JS.call_toUpperCase].
      apply String.eqb_neq in Hs. rewrite Hs.
      destruct (JS.ToBoolean (JS.VString s)); reflexivity. }
    rewrite E. reflexivity.
  - rewrite !getAllUsers_run. reflexivity.
Qed.

(** *** Routes behind the guard *)

Lemma keeps_data_release_if_connection : keeps data release_if_connection.
Proof. intros w. unfold_monad. destruct (connection w); reflexivity. Qed.

Lemma keeps_data_verify (token : option string) : keeps data (verify token).
Proof.
  intros w. unfold verify. destruct token as [[|c t]|]; try reflexivity.
  destruct (jwt_decode _); [|reflexivity].
  unfold_monad. destruct (_ <=? _); reflexivity.
Qed.

Lemma keeps_data_protect (authorization : option string) :
  keeps data (protect authorization).
Proof.
  unfold protect. apply keeps_bind; [intros w; reflexivity|].
  intros _. destruct (JS.truthy authorization && _); [|apply keeps_ret].
  apply keeps_try.
  - apply keeps_bind; [apply keeps_data_verify|]. intros c.
    apply keeps_bind; [intros w; reflexivity|]. intros _.
    apply keeps_bind.
    + unfold getUserForAuth. apply keeps_bind; [intros w; reflexivity|].
      intros rows. apply keeps_ret.
    + intros [u|]; [|apply keeps_ret].
      destruct (String.eqb _ _); apply keeps_ret.
  - intros e. destruct (String.eqb (name e) "JsonWebTokenError"); [apply keeps_ret|].
    destruct (String.eqb (name e) "TokenExpiredError"); apply keeps_ret.
  - apply keeps_data_release_if_connection.
Qed.

(** The guard's verdict depends on the tables and the clock only. *)
Lemma protect_reads_data (authorization : option string) (w w' : world) :
  data w' = data w ->
  fst (protect authorization w') = fst (protect authorization w).
Proof.
  unfold data, tables. intros H. injection H as Hu Ht Ha Hn Hs.
  assert (Hv : view w' = view w) by (unfold view; now rewrite Hu, Ht).
  unfold protect. rewrite !after_let_connection.
  destruct (JS.truthy authorization && _); [|reflexivity].
  unfold try_catch_finally, verify.
  destruct (nth_error _ 1) as [[|c t]|]; try reflexivity.
  destruct (jwt_decode _) as [p|]; [|reflexivity].
  unfold_monad. simpl. rewrite Hn.
  destruct (exp p <=? now w); simpl; [reflexivity|].
  unfold view in *. simpl. rewrite Ht, Hu.
  destruct (hd_error _) as [u|]; simpl; [|reflexivity].
  destruct (String.eqb _ _); reflexivity.
Qed.

Lemma protect_next_answered (req : request) (next : M response) (w : world)
    (r : response) :
  fst (protect (headers_authorization req) w) = Ok (Answered r) ->
  protect_next req next w = (Ok r, snd (protect (headers_authorization req) w)).
Proof.
  unfold protect_next, bind. destruct (protect _ w) as [g w1].
  simpl. intros ->. reflexivity.
Qed.

Lemma protect_next_admitted (req : request) (next : M response) (w : world)
    (u : AuthRow.t) :
  fst (protect (headers_authorization req) w) = Ok (Next u) ->
  protect_next req next w = next (snd (protect (headers_authorization req) w)).
Proof.
  unfold protect_next, bind. destruct (protect _ w) as [g w1].
  simpl. intros ->. reflexivity.
Qed.

Lemma protect_twice_answered (req : request) (next : M response) (w : world)
    (r : response) :
  fst (protect (headers_authorization req) w) = Ok (Answered r) ->
  protect_next req (protect_next req next) w
  = (Ok r, snd (protect (headers_authorization req) w))
  /\ data (snd (protect_next req (protect_next req next) w)) = data w.
Proof.
  intros H. rewrite (protect_next_answered req _ w r H). split; [reflexivity|].
  apply keeps_data_protect.
Qed.

Lemma protect_twice_admitted (req : request) (next : M response) (w : world)
    (u : AuthRow.t) :
  fst (protect (headers_authorization req) w) = Ok (Next u) ->
  exists w2, data w2 = data w
             /\ protect_next req (protect_next req next) w = next w2.
Proof.
  intros H. rewrite (protect_next_admitted req _ w u H).
  set (w1 := snd (protect (headers_authorization req) w)).
  assert (H1 : data w1 = data w) by apply keeps_data_protect.
  assert (H2 : fst (protect (headers_authorization req) w1) = Ok (Next u)).
  { rewrite (protect_reads_data _ w w1 H1). exact H. }
  rewrite (protect_next_admitted req _ w1 u H2).
  eexists. split; [|reflexivity].
  rewrite <- H1. apply keeps_data_protect.
Qed.

(** X18. A request the guard turns down stops at the guard.  On each of
    the four routes behind [protect], when the guard answers the request
    (401 or 403), the run of the route is the run of the guard alone: its
    answer is the answer of the route, the handler does not run, and
    tables, clock and salt are what they were. *)
Theorem rejected_request_stops_at_guard (r : route) (req : request) (w : world)
    (answer : response) :
  r <> Register -> r <> Login ->
  fst (protect (headers_authorization req) w) = Ok (Answered answer) ->
  userRoutes r req w = (Ok answer, snd (protect (headers_authorization req) w))
  /\ data (snd (userRoutes r req w)) = data w.
Proof.
  intros Hr Hl H.
  destruct r; try contradiction; unfold userRoutes;
    apply (protect_twice_answered req _ w answer H).
Qed.

(** X19. A request the guard lets through is handled as the handler alone
    would handle it.  When the guard admits the request, each route runs
    its handler on a state with the same tables, clock and salt, the guard
    having passed twice on the four routes that are behind it. *)
Theorem admitted_request_reaches_handler (r : route) (req : request) (w : world)
    (u : AuthRow.t) :
  fst (protect (headers_authorization req) w) = Ok (Next u) ->
  exists w2, data w2 = data w /\ userRoutes r req w = controller r req w2.
Proof.
  intros H.
  destruct r; unfold userRoutes, controller;
    try (exists w; split; reflexivity);
    apply (protect_twice_admitted req _ w u H).
Qed.

(** X20. Logging out revokes nothing.  The logout route changes neither
    tables nor clock nor salt, whether the guard admits the request or
    not, and after it the guard gives every header the verdict it gave
    before: a token that was accepted stays accepted until it expires. *)
Theorem logout_revokes_nothing (req : request) (authorization : option string)
    (w : world) :
  data (snd (userRoutes Logout req w)) = data w
  /\ fst (protect authorization (snd (userRoutes Logout req w)))
     = fst (protect authorization w).
Proof.
  assert (Hd : data (snd (userRoutes Logout req w)) = data w).
  { unfold userRoutes, protect_next.
    apply (keeps_bind data); [apply keeps_data_protect|].
    intros [r|u]; [apply keeps_ret|].
    apply (keeps_bind data); [apply keeps_data_protect|].
    intros [r|u']; [apply keeps_ret|]. intros w'. reflexivity. }
  split; [exact Hd|]. now apply protect_reads_data.
Qed.

(** *** What a bulk delete removes *)

Lemma affected_split (p : User.t -> bool) (rows : list User.t) :
  Z.of_nat (List.length rows)
  = Z.of_nat (List.length (filter (fun u => negb (p u)) rows)) + affected p rows.
Proof.
  unfold affected. induction rows as [|u rows IH]; [reflexivity|].
  cbn [filter]. destruct (p u); cbn [negb List.length];
    rewrite ?Nat2Z.inj_succ; lia.
Qed.

Lemma affected_after_delete (p : User.t -> bool) (rows : list User.t) :
  affected p (filter (fun u => negb (p u)) rows) = 0.
Proof.
  unfold affected. induction rows as [|u rows IH]; simpl; auto.
  destruct (p u) eqn:E; simpl; auto. now rewrite E.
Qed.

(** X21. A bulk delete removes the rows whose id is among the ids kept,
    and nothing else, when these are numbers that the statement can
    carry: the other rows stay, in their order, the number in the answer
    is the number of rows removed, and the answer is 404 exactly when
    there is none.  The same delete made again is answered 404 and
    leaves the table as the first one left it.  When an id kept is
    [Infinity] the server refuses the statement: the answer is 500
    after a rollback and no row is removed. *)
Theorem bulk_delete_frame (b : body) (w : world) (ids : list JS.value)
    (valid : list JS.number) :
  get b "userIds" = JS.VArray ids -> validUserIds ids = Some valid ->
  valid <> [] -> settled w ->
  let gone := id_in valid in
  let w1 := snd (deleteMultipleUsers b w) in
  if forallb writable valid then
    users w1 = filter (fun u => negb (gone u)) (users w)
    /\ Z.of_nat (List.length (users w))
       = Z.of_nat (List.length (users w1)) + affected gone (users w)
    /\ fst (deleteMultipleUsers b w)
       = Ok (if affected gone (users w) =? 0 then
               respond 404 "No users found matching the provided IDs for deletion, or no valid IDs were provided."
             else
               respond 200 ("Successfully deleted "
                            ++ JS.string_of_Z (affected gone (users w)) ++ " user(s)."))
    /\ fst (deleteMultipleUsers b w1)
       = Ok (respond 404 "No users found matching the provided IDs for deletion, or no valid IDs were provided.")
    /\ users (snd (deleteMultipleUsers b w1)) = users w1
  else
    deleteMultipleUsers b w
    = (Ok (respond 500 "An error occurred while deleting users."),
       rolled_back [DeleteWhereIdIn valid] w)
    /\ users w1 = users w.
Proof.
  intros Hb Hv Hne Ht gone w1.
  destruct (forallb writable valid) eqn:Hw.
  2:{ subst w1. rewrite (deleteMultipleUsers_refused b w ids valid Hb Hv Hw Ht).
      split; reflexivity. }
  assert (Hu : users w1 = filter (fun u => negb (gone u)) (users w)).
  { subst w1. rewrite (deleteMultipleUsers_run b w ids valid Hb Hv Hne Hw Ht).
    fold gone.
    destruct (affected gone (users w) =? 0) eqn:Ha; [|reflexivity].
    apply Z.eqb_eq in Ha. cbn [snd users].
    symmetry. now apply affected_zero_keeps. }
  assert (Ht1 : settled w1).
  { subst w1. rewrite (deleteMultipleUsers_run b w ids valid Hb Hv Hne Hw Ht).
    destruct (_ =? 0); reflexivity. }
  assert (Ha1 : (affected gone (users w1) =? 0) = true).
  { rewrite Hu. apply Z.eqb_eq. apply affected_after_delete. }
  split; [exact Hu|]. split; [rewrite Hu; apply affected_split|].
  split.
  - rewrite (deleteMultipleUsers_run b w ids valid Hb Hv Hne Hw Ht). fold gone.
    destruct (affected gone (users w) =? 0); reflexivity.
  - rewrite (deleteMultipleUsers_run b w1 ids valid Hb Hv Hne Hw Ht1). fold gone.
    rewrite Ha1. split; reflexivity.
Qed.

End Service.

(** ** The statements on the concrete instance *)

Section Instance.

Import Fixture.

#[local] Abbreviation login := (loginUser binary_weights compare sign None equal).
#[local] Abbreviation register :=
  (registerUser binary_weights hash sign None stored equal).
#[local] Abbreviation guard := (protect decode print_date).


Lemma bulk_zero_match_witness :
  validUserIds [JS.VString "99abc"] = Some [JS.Num 99]
  /\ affected (id_in [JS.Num 99]) (users w0) = 0
  /\ txn (snd (deleteMultipleUsers (bulk "Blocked" [JS.VString "99abc"]) w0))
     = Some (users w0)
  /\ txn (snd (updateMultipleUsersStatus (bulk "Blocked" [JS.VString "99abc"]) w0))
     = None.
Proof.
  split; [reflexivity|]. split; [reflexivity|].
  destruct (bulk_zero_match (bulk "Blocked" [JS.VString "99abc"]) w0
              [JS.VString "99abc"] [JS.Num 99] "Blocked" eq_refl eq_refl
              ltac:(discriminate) eq_refl eq_refl eq_refl) as [H _].
  destruct (H eq_refl eq_refl) as (_ & _ & Hd & _ & _ & _ & Hu & _).
  split; [exact Hd | exact Hu].
Defined.


Lemma list_sort_policy_witness :
  effectiveSortBy (JS.VString "email") = "email"
  /\ effectiveSortBy (JS.VString "password_hash") = "last_login_date".
Proof.
  destruct (list_sort_policy binary_weights (JS.VString "email") (JS.VString "asc") w0)
    as [H1 _].
  destruct (list_sort_policy binary_weights (JS.VString "password_hash")
              JS.VUndefined w0)
    as [_ [H2 _]].
  split.
  - apply (H1 "email" eq_refl). simpl. auto 10.
  - apply H2. intros s E. injection E as <-. simpl.
    intros H. repeat (destruct H as [H|H]; [discriminate H|]). exact H.
Defined.

Lemma fresh_ids_w0 : fresh_ids w0.
Proof. repeat constructor. Defined.

(** C4, as stated, fails for a registration whose password is the number
    123: it passes the checks on its fields, its email is not stored, and
    it is answered 500, not 201; no user is added. *)
Lemma registration_with_numeric_password :
  register_validates (registration_numeric_password "carol@example.com") = true
  /\ matching binary_weights "carol@example.com" (users w0) = []
  /\ fst (register (registration_numeric_password "carol@example.com") w0)
     = Ok (respond 500 "data must be a string or Buffer and salt must either be a salt string or a number of rounds")
  /\ users (snd (register (registration_numeric_password "carol@example.com") w0))
     = users w0.
Proof. repeat split. Qed.

Lemma text_fields_registration : text_fields (registration "carol@example.com").
Proof. repeat split; try reflexivity; right; reflexivity. Defined.

Lemma register_uniqueness_atomicity_witness :
  fst (register (registration "alice@example.com") w0)
  = Ok (respond 409 "Email already registered.")
  /\ users (snd (register (registration "alice@example.com") w0)) = users w0
  /\ exists r w1,
       register (registration "carol@example.com") w0 = (Ok r, w1)
       /\ res_status r = 201
       /\ fst (register (registration "carol@example.com") w1)
          = Ok (respond 409 "Email already registered.").
Proof.
  destruct (register_uniqueness_atomicity binary_weights hash sign None stored equal
              (registration "alice@example.com") w0 "alice@example.com"
              eq_refl eq_refl fresh_ids_w0 eq_refl) as [H _].
  destruct (register_uniqueness_atomicity binary_weights hash sign None stored equal
              (registration "carol@example.com") w0 "carol@example.com"
              eq_refl eq_refl fresh_ids_w0 eq_refl) as [_ H'].
  destruct (H ltac:(discriminate)) as (H1 & H2 & _).
  destruct (H' text_fields_registration eq_refl)
    as (r & w1 & E & Hr & _ & _ & _ & H3 & _).
  split; [exact H1|]. split; [exact H2|].
  exists r, w1. split; [exact E|]. split; [exact Hr | exact H3].
Defined.

Lemma login_validation_error_answers_500_witness :
  login_validates (email_only "alice@example.com") = false
  /\ fst (login (email_only "alice@example.com") w0)
     = Ok (respond 500 "An error occurred during login.").
Proof.
  split; [reflexivity|].
  destruct (login_validation_error_answers_500 binary_weights compare sign None equal
              (email_only "alice@example.com") w0 eq_refl) as [H _].
  exact (f_equal fst H).
Defined.

Lemma guard_expired_token_message_witness :
  decode "stale.jwt"
  = Some {| userId := 1; claim_email := JS.VString "alice@example.com";
            iat := 1000; exp := 1000 |}
  /\ fst (guard (Some "Bearer stale.jwt") w0)
     = Ok (Answered (respond 401 "Not authorized, token expired at 1000000000")).
Proof.
  split; [reflexivity|].
  destruct (guard_expired_token_message decode print_date "Bearer stale.jwt"
              "stale.jwt" _ w0 eq_refl eq_refl ltac:(discriminate) eq_refl
              ltac:(simpl; lia)) as [H _].
  exact (f_equal fst H).
Defined.

Lemma blocked_account_gating_witness :
  fst (login (credentials "bob@example.com" "hunter2") w0)
  = Ok (respond 403 "Account is blocked. Please contact support.")
  /\ fst (guard (Some "Bearer bob.jwt") w0)
     = Ok (Answered (respond 403 "Forbidden: Your account is blocked.")).
Proof.
  destruct (blocked_account_gating binary_weights compare sign decode
              None print_date equal) as [Hl Hg].
  split.
  - destruct (Hl (credentials "bob@example.com" "hunter2") w0
                "bob@example.com" "hunter2" bob [] eq_refl eq_refl eq_refl
                eq_refl eq_refl eq_refl eq_refl) as [H _].
    exact (f_equal fst H).
  - destruct (Hg "Bearer bob.jwt" "bob.jwt" _ w0 bob [] eq_refl eq_refl
                ltac:(discriminate) eq_refl ltac:(simpl; lia) eq_refl)
      as (_ & H & _).
    exact (H eq_refl).
Defined.

Lemma same_but_digests_w0 : same_but_digests compare w0 w0'.
Proof.
  split; simpl; auto; try reflexivity.
  repeat constructor.
Defined.

Lemma digest_confidentiality_witness :
  salt w0 <> salt w0'
  /\ fst (register (registration "carol@example.com") w0)
     = fst (register (registration "carol@example.com") w0')
  /\ fst (getAllUsers binary_weights JS.VUndefined JS.VUndefined w0)
     = fst (getAllUsers binary_weights JS.VUndefined JS.VUndefined w0')
  /\ fst (guard (Some "Bearer alice.jwt") w0)
     = fst (guard (Some "Bearer alice.jwt") w0').
Proof.
  destruct (digest_confidentiality binary_weights hash compare sign decode
              None print_date stored equal w0 w0' same_but_digests_w0)
    as (Hr & Hl & _ & _ & Hg & _).
  split; [discriminate|].
  split; [apply Hr|]. split; [apply Hl | apply Hg].
Defined.

Lemma bearer_scheme_edge_cases_witness :
  guard (Some "BearerX alice.jwt") w0 = guard (Some "Bearer alice.jwt") w0
  /\ fst (guard (Some "Bearer") w0) = Ok (Answered invalid_token).
Proof.
  destruct (bearer_scheme_edge_cases decode print_date) as (_ & Hx & Hn & _).
  split.
  - exact (Hx "X" "alice.jwt" w0 eq_refl).
  - destruct (Hn "Bearer" w0 eq_refl eq_refl) as (_ & H & _).
    exact (f_equal fst H).
Defined.

(** C10, as stated, fails for the digits of a positive integer that is
    no double: the entry is kept, as the double next to it and not as
    that integer. *)
Lemma bulk_id_above_2_53_is_rounded :
  leading_integer "9007199254740993abc" 9007199254740993
  /\ validUserIds [JS.VString "9007199254740993abc"]
     = Some [JS.Num 9007199254740992]
  /\ JS.Num 9007199254740992 <> JS.Num 9007199254740993.
Proof.
  split; [|split; [vm_compute; reflexivity | discriminate]].
  exact (leading_integer_intro "" "" "9007199254740993" "abc"
           eq_refl (or_introl eq_refl) ltac:(discriminate) eq_refl eq_refl).
Qed.

Lemma bulk_ids_coercion_witness :
  validUserIds [JS.VString "12abc"; JS.VString "abc"; JS.VString "12abc"]
  = Some [JS.Num 12; JS.Num 12]
  /\ In (Run (DeleteWhereIdIn [JS.Num 12]))
        (log (snd (deleteMultipleUsers (bulk "active" [JS.VString "12abc"]) w0))).
Proof.
  destruct bulk_ids_coercion as (_ & _ & _ & _ & Hp & _ & _ & Hd & _).
  split.
  - exact (Hp 12 "abc" [] [JS.VString "abc"; JS.VString "12abc"] [] [JS.Num 12]
             ltac:(vm_compute; split; [reflexivity | discriminate])
             eq_refl eq_refl eq_refl).
  - exact (Hd (bulk "active" [JS.VString "12abc"]) w0 [JS.VString "12abc"]
             [JS.Num 12] eq_refl eq_refl ltac:(discriminate)).
Defined.

Lemma validateEmailFormat_accepts_witness :
  validateEmailFormat (JS.VString "alice@example.com") w0 = (Ok tt, w0)
  /\ validateEmailFormat (JS.VString "alice") w0
     = (Throw (with_statusCode (new_Error "Invalid email format.") 400), w0)
  /\ validateEmailFormat JS.VUndefined w0
     = (Throw (with_statusCode (new_Error "Invalid email format.") 400), w0).
Proof.
  destruct (validateEmailFormat_accepts (JS.VString "alice@example.com") w0)
    as [H _].
  destruct (validateEmailFormat_accepts (JS.VString "alice") w0) as [_ [H' _]].
  destruct (validateEmailFormat_accepts JS.VUndefined w0) as [_ [H'' _]].
  split; [|split].
  - apply (H "alice@example.com" eq_refl).
    exists "alice", "example", "com".
    split; [reflexivity|]. unfold plain.
    repeat split; try discriminate; reflexivity.
  - apply (H' "alice" eq_refl). intros Hs.
    apply emailRegex_shape in Hs. discriminate Hs.
  - apply (H'' "undefined" eq_refl). intros Hs.
    apply emailRegex_shape in Hs. discriminate Hs.
Defined.

Lemma ensureRequiredFieldsPresent_reports_first_witness :
  ensureRequiredFieldsPresent (email_only "ghost@example.com")
    ["email"; "password"] w0
  = (Throw (with_statusCode (new_Error "Please provide password.") 400), w0)
  /\ fst (ensureRequiredFieldsPresent (numeric_password "ghost@example.com")
            ["email"; "password"] w0) = Ok tt.
Proof.
  destruct (ensureRequiredFieldsPresent_reports_first
              (email_only "ghost@example.com") w0) as [H _].
  destruct (ensureRequiredFieldsPresent_reports_first
              (numeric_password "ghost@example.com") w0) as [_ [H' _]].
  split.
  - exact (H ["email"] "password" [] eq_refl eq_refl).
  - apply H'. intros f [<-|[<-|[]]]; reflexivity.
Defined.

Lemma register_validation_error_answers_400_witness :
  register (credentials "alice@example.com" "secret") w0
  = (Ok (respond 400 "Please provide first_name."), w0)
  /\ register (registration "carol") w0
     = (Ok (respond 400 "Invalid email format."), w0).
Proof.
  destruct (register_validation_error_answers_400 binary_weights hash sign None
              stored equal (credentials "alice@example.com" "secret") w0) as [H _].
  destruct (register_validation_error_answers_400 binary_weights hash sign None
              stored equal (registration "carol") w0) as [_ H'].
  split.
  - exact (H [] "first_name" ["last_name"; "email"; "password"]
             eq_refl eq_refl eq_refl).
  - apply (H' "carol" eq_refl eq_refl). intros Hs.
    apply emailRegex_shape in Hs. discriminate Hs.
Defined.

Lemma login_success_witness :
  exists r,
    fst (login (credentials "alice@example.com" "secret") w0) = Ok r
    /\ res_status r = 200
    /\ users (snd (login (credentials "alice@example.com" "secret") w0))
       = [User.set_last_login_date (Some 1200) alice; bob].
Proof.
  destruct (login_success binary_weights compare sign None equal
              (credentials "alice@example.com" "secret") w0
              "alice@example.com" "secret" alice []
              eq_refl eq_refl eq_refl eq_refl eq_refl eq_refl
              ltac:(discriminate))
    as [r [H1 [H2 [_ [_ [_ [H3 _]]]]]]].
  exists r. split; [exact H1|]. split; [exact H2 | exact H3].
Defined.

Lemma issued_token_opens_guard_witness :
  fst (protect Tokens.decode print_date
         (Some ("Bearer " ++ Tokens.sign Tokens.alice_claims)) w0)
  = Ok (Next (AuthRow.of_user alice)).
Proof.
  destruct (issued_token_opens_guard binary_weights compare Tokens.sign
              Tokens.decode None print_date equal
              (credentials "alice@example.com" "secret") w0
              "alice@example.com" "secret" alice []
              eq_refl eq_refl eq_refl eq_refl eq_refl eq_refl
              ltac:(discriminate) eq_refl eq_refl ltac:(discriminate))
    as [r [_ [_ H]]].
  exact (H w0 eq_refl).
Defined.

Lemma issued_token_expires_witness :
  fst (protect Tokens.decode print_date
         (Some ("Bearer " ++ Tokens.sign Tokens.alice_claims))
         (Tokens.at_time 1800 w0))
  = Ok (Answered (respond 401 "Not authorized, token expired at 1800000000")).
Proof.
  destruct (issued_token_expires binary_weights compare Tokens.sign
              Tokens.decode None print_date equal
              (credentials "alice@example.com" "secret") w0
              "alice@example.com" "secret" alice []
              eq_refl eq_refl eq_refl eq_refl eq_refl eq_refl
              ltac:(discriminate) eq_refl eq_refl ltac:(discriminate))
    as [r [_ [_ [H _]]]].
  exact (f_equal fst (H (Tokens.at_time 1800 w0) ltac:(vm_compute; discriminate))).
Defined.

Lemma register_then_login_witness :
  exists r1 w1 r2,
    register (registration "carol@example.com") w0 = (Ok r1, w1)
    /\ res_status r1 = 201
    /\ fst (login (registration "carol@example.com") w1) = Ok r2
    /\ res_status r2 = 200.
Proof.
  destruct (register_then_login binary_weights hash compare sign None stored equal
              (registration "carol@example.com") w0 "carol@example.com" "s3cret"
              eq_refl text_fields_registration eq_refl fresh_ids_w0
              eq_refl eq_refl eq_refl eq_refl)
    as [r1 [w1 [r2 [H1 [H2 [H3 [H4 _]]]]]]].
  exists r1, w1, r2. split; [exact H1|]. split; [exact H2|].
  split; [exact H3 | exact H4].
Defined.

Lemma status_update_reaches_guard_witness :
  fst (guard (Some "Bearer alice.jwt")
         (snd (updateMultipleUsersStatus (bulk "Blocked" [JS.VNumber "1"]) w0)))
  = Ok (Answered (respond 403 "Forbidden: Your account is blocked.")).
Proof.
  exact (status_update_reaches_guard decode print_date
           (bulk "Blocked" [JS.VNumber "1"]) w0 [JS.VNumber "1"] [JS.Num 1]
           "Blocked" "Bearer alice.jwt" "alice.jwt"
           {| userId := 1; claim_email := JS.VString "alice@example.com";
              iat := 1000; exp := 1600 |}
           alice []
           eq_refl eq_refl eq_refl eq_refl eq_refl
           eq_refl eq_refl ltac:(discriminate) eq_refl eq_refl
           (or_introl eq_refl) eq_refl).
Defined.

Lemma deleted_user_token_rejected_witness :
  fst (guard (Some "Bearer alice.jwt")
         (snd (deleteMultipleUsers (bulk "" [JS.VNumber "1"]) w0)))
  = Ok (Answered (respond 401 "Not authorized, user associated with token not found")).
Proof.
  exact (deleted_user_token_rejected decode print_date
           (bulk "" [JS.VNumber "1"]) w0 [JS.VNumber "1"] [JS.Num 1]
           "Bearer alice.jwt" "alice.jwt"
           {| userId := 1; claim_email := JS.VString "alice@example.com";
              iat := 1000; exp := 1600 |}
           eq_refl eq_refl eq_refl
           eq_refl eq_refl ltac:(discriminate) eq_refl eq_refl
           (or_introl eq_refl)).
Defined.

Lemma status_update_frame_witness :
  filter (fun u => negb (id_in [JS.Num 1] u))
    (users (snd (updateMultipleUsersStatus (bulk "Blocked" [JS.VNumber "1"]) w0)))
  = [bob]
  /\ Forall (fun u => id_in [JS.Num 1] u = true -> User.status u = "blocked")
       (users (snd (updateMultipleUsersStatus (bulk "Blocked" [JS.VNumber "1"]) w0))).
Proof.
  destruct (status_update_frame (bulk "Blocked" [JS.VNumber "1"]) w0
              [JS.VNumber "1"] [JS.Num 1] "Blocked"
              eq_refl eq_refl eq_refl eq_refl ltac:(discriminate) eq_refl)
    as [_ [H1 [H2 _]]].
  split; [exact H1 | exact (H2 eq_refl)].
Defined.

Lemma bulk_input_errors_witness :
  deleteMultipleUsers (credentials "alice@example.com" "secret") w0
  = (Ok (respond 400 "Please provide an array of user IDs."), w0)
  /\ updateMultipleUsersStatus (bulk "Blocked" [JS.VString "abc"]) w0
     = (Ok (respond 400 "No valid user IDs provided for status update."), w0)
  /\ updateMultipleUsersStatus
       [("status", JS.VNumber "1"); ("userIds", JS.VArray [JS.VNumber "1"])] w0
     = (Ok (respond 500 "An error occurred while updating user statuses."), w0).
Proof.
  destruct (bulk_input_errors (credentials "alice@example.com" "secret") w0)
    as [H _].
  destruct (bulk_input_errors (bulk "Blocked" [JS.VString "abc"]) w0)
    as [_ [_ [_ [_ [_ [H' _]]]]]].
  destruct (bulk_input_errors
              [("status", JS.VNumber "1"); ("userIds", JS.VArray [JS.VNumber "1"])] w0)
    as [_ [_ [_ [_ [H'' _]]]]].
  split; [|split].
  - apply H. left. intros ids E. discriminate E.
  - exact (H' [JS.VString "abc"] "Blocked" eq_refl ltac:(discriminate) eq_refl
              (or_intror (or_introl eq_refl)) eq_refl).
  - exact (H'' [JS.VNumber "1"] eq_refl ltac:(discriminate) eq_refl eq_refl).
Defined.

Lemma table_changes_only_on_success_witness :
  users (snd (login (credentials "alice@example.com" "guess") w0)) = users w0
  /\ users (snd (deleteMultipleUsers (bulk "" [JS.VNumber "99"]) w0)) = users w0.
Proof.
  destruct (table_changes_only_on_success binary_weights hash compare sign None
              stored equal
              (credentials "alice@example.com" "guess") w0 eq_refl fresh_ids_w0)
    as [H _].
  destruct (table_changes_only_on_success binary_weights hash compare sign None
              stored equal
              (bulk "" [JS.VNumber "99"]) w0 eq_refl fresh_ids_w0)
    as [_ [_ [H' _]]].
  split.
  - eapply H; [reflexivity | vm_compute; discriminate].
  - eapply H'; [reflexivity | vm_compute; discriminate].
Defined.

Lemma consistent_w0 : consistent binary_weights w0.
Proof.
  split; [reflexivity|]. split; [exact fresh_ids_w0|].
  split; repeat constructor;
    try (intros [H|[]]; discriminate H); intros [].
Defined.

Lemma handlers_keep_consistency_witness :
  consistent binary_weights (snd (register (registration "carol@example.com") w0))
  /\ consistent binary_weights
       (snd (deleteMultipleUsers (bulk "" [JS.VNumber "1"]) w0)).
Proof.
  destruct (handlers_keep_consistency binary_weights hash compare sign decode
              None print_date stored equal (registration "carol@example.com")
              JS.VUndefined JS.VUndefined None w0 consistent_w0) as [_ [H _]].
  destruct (handlers_keep_consistency binary_weights hash compare sign decode
              None print_date stored equal (bulk "" [JS.VNumber "1"])
              JS.VUndefined JS.VUndefined None w0 consistent_w0) as [_ [_ [H' _]]].
  split; [exact H | exact H'].
Defined.

Lemma list_counts_every_user_witness :
  getAllUsers binary_weights (JS.VString "password_hash") (JS.VString "desc") w0
  = getAllUsers binary_weights JS.VUndefined JS.VUndefined w0
  /\ fst (getAllUsers binary_weights JS.VUndefined (JS.VArray [JS.VString "ASC"]) w0)
     = Ok (respond 500 "An error occurred while retrieving users.").
Proof.
  destruct (list_counts_every_user binary_weights
              (JS.VString "password_hash") (JS.VString "desc") w0) as [_ [_ [H _]]].
  destruct (list_counts_every_user binary_weights JS.VUndefined (JS.VString "desc") w0)
    as [_ [_ [_ [H' _]]]].
  destruct (list_counts_every_user binary_weights JS.VUndefined
              (JS.VArray [JS.VString "ASC"]) w0) as [_ [H'' _]].
  split.
  - refine (eq_trans (H _) (H' "desc" eq_refl _)).
    + intros s E. injection E as <-. simpl.
      intros E. repeat (destruct E as [E|E]; [discriminate E|]). exact E.
    + discriminate.
  - exact (f_equal fst (H'' eq_refl eq_refl)).
Defined.

Lemma rejected_request_stops_at_guard_witness :
  fst (userRoutes binary_weights hash compare sign decode None print_date
         stored equal BulkDelete
         {| headers_authorization := Some "Bearer bob.jwt";
            req_body := bulk "" [JS.VNumber "1"];
            req_query_sortBy := JS.VUndefined;
            req_query_sortOrder := JS.VUndefined |} w0)
  = Ok (respond 403 "Forbidden: Your account is blocked.")
  /\ users (snd (userRoutes binary_weights hash compare sign decode None print_date
                   stored equal BulkDelete
                   {| headers_authorization := Some "Bearer bob.jwt";
                      req_body := bulk "" [JS.VNumber "1"];
                      req_query_sortBy := JS.VUndefined;
                      req_query_sortOrder := JS.VUndefined |} w0))
     = users w0.
Proof.
  destruct (rejected_request_stops_at_guard binary_weights hash compare sign
              decode None print_date stored equal BulkDelete
              {| headers_authorization := Some "Bearer bob.jwt";
                 req_body := bulk "" [JS.VNumber "1"];
                 req_query_sortBy := JS.VUndefined;
                 req_query_sortOrder := JS.VUndefined |} w0
              (respond 403 "Forbidden: Your account is blocked.")
              ltac:(discriminate) ltac:(discriminate) eq_refl) as [H1 H2].
  split; [exact (f_equal fst H1)|].
  exact (f_equal (fun d => fst (fst (fst (fst d)))) H2).
Defined.

Lemma admitted_request_reaches_handler_witness :
  exists w2,
    data w2 = data w0
    /\ userRoutes binary_weights hash compare sign decode None print_date
         stored equal BulkDelete
         {| headers_authorization := Some "Bearer alice.jwt";
            req_body := bulk "" [JS.VNumber "2"];
            req_query_sortBy := JS.VUndefined;
            req_query_sortOrder := JS.VUndefined |} w0
       = deleteMultipleUsers (bulk "" [JS.VNumber "2"]) w2.
Proof.
  exact (admitted_request_reaches_handler binary_weights hash compare sign
           decode None print_date stored equal BulkDelete
           {| headers_authorization := Some "Bearer alice.jwt";
              req_body := bulk "" [JS.VNumber "2"];
              req_query_sortBy := JS.VUndefined;
              req_query_sortOrder := JS.VUndefined |} w0
           (AuthRow.of_user alice) eq_refl).
Defined.

Lemma bulk_delete_frame_witness :
  validUserIds [JS.VString "2nd"; JS.VNull; JS.VNumber "1e+21"]
  = Some [JS.Num 2; JS.Num 1]
  /\ users (snd (deleteMultipleUsers
                   (bulk "" [JS.VString "2nd"; JS.VNull; JS.VNumber "1e+21"]) w0))
     = []
  /\ fst (deleteMultipleUsers
            (bulk "" [JS.VString "2nd"; JS.VNull; JS.VNumber "1e+21"]) w0)
     = Ok (respond 200 "Successfully deleted 2 user(s).").
Proof.
  split; [reflexivity|].
  destruct (bulk_delete_frame
              (bulk "" [JS.VString "2nd"; JS.VNull; JS.VNumber "1e+21"]) w0
              [JS.VString "2nd"; JS.VNull; JS.VNumber "1e+21"] [JS.Num 2; JS.Num 1]
              eq_refl eq_refl ltac:(discriminate) eq_refl) as [H1 [_ [H2 _]]].
  split; [exact H1 | exact H2].
Defined.

End Instance.
